(** * Startup pass, login route and root component of the IT-asset manager

    The backend (an Express server over a MySQL pool) runs [runMigrations]
    once at startup: it borrows one connection, makes sure the bookkeeping
    table [migrations] exists, reads the applied ids, builds the fixed list
    of fifteen migrations, runs [ensureCriticalSchema] and then applies every
    migration whose id is not recorded.

    The development has these layers:
    - [Sql]: the part of MySQL the pass talks to (catalog, rows, the
      statement forms the source issues, their errors);
    - [Bcrypt]: the shape of the value [bcrypt.hashSync] returns;
    - [Server]: the JavaScript of the pass, as a state-and-exception monad
      over the database and the ordered list of observable events
      (connection traffic and console lines);
    - [Api]: the login route of the backend, over the catalog of [Sql];
    - [App]: the root component of the frontend, as functions on its
      state and on the browser storages it uses. *)

From Stdlib Require Import ZArith String Ascii List Lia Bool DecimalString.
From stdpp Require Import base option list strings gmap.

Local Open Scope string_scope.
Local Open Scope Z_scope.

(* ===================================================================== *)
(** ** The MySQL fragment

    The server is seen through the statements that the pass sends.  The
    model keeps, per table, the column definitions and the rows.  It
    follows the server in these points, which decide what the pass does:
    - [CREATE TABLE IF NOT EXISTS] leaves an existing table as it is;
    - [ALTER TABLE ... ADD COLUMN] is rejected for a column name the table
      has, [MODIFY COLUMN] for one it lacks, and both for a missing table;
    - [SHOW TABLES LIKE] and [SHOW COLUMNS ... LIKE] match LIKE patterns,
      with their wildcards;
    - a plain [INSERT] is rejected on a duplicate key and on a NOT NULL
      column left without a value (strict mode), where [INSERT IGNORE]
      drops the row or invents the implicit default;
    - the statements of one query text run in order, and what ran before
      an error stays (DDL and autocommit DML are not rolled back).
    It leaves out: conversions between types, the collation of names and
    of strings (they are compared as they are written), the clock, and
    auto-increment counters that outlive their rows (the next value is
    one more than the largest stored).  For [MODIFY COLUMN] it also
    leaves out the conversion of the stored values, the checks by which
    the server refuses the statement on a column that exists (NULL on a
    column of the primary key, values that do not convert), and the
    indexes, which the server keeps: here the key is part of the column
    definition and is replaced with it.  A theorem below whose subject
    touches one of these points is stated so that it allows for either
    behaviour: a refused ALTER ends in the console error of its
    [catch]. *)
(* ===================================================================== *)

Module Sql.

(** A cell of a row, or a value literal of a statement. *)
Inductive Value :=
| VNull
| VInt (n : Z)
| VStr (s : string).

#[global] Instance Value_eq_dec : EqDecision Value.
Proof. solve_decision. Defined.

Inductive SqlType :=
| INT
| VARCHAR (n : nat)
| TEXT
| MEDIUMTEXT
| DATETIME
| BOOLEAN
| ENUM (members : list string).

#[global] Instance SqlType_eq_dec : EqDecision SqlType.
Proof. solve_decision. Defined.

Inductive Default :=
| NoDefault
| DefaultValue (v : Value)
| DefaultCurrentTimestamp.

#[global] Instance Default_eq_dec : EqDecision Default.
Proof. solve_decision. Defined.

Inductive Key := NoKey | UNI | PRI.

#[global] Instance Key_eq_dec : EqDecision Key.
Proof. solve_decision. Defined.

(** What a column definition fragment such as
    [VARCHAR(50) DEFAULT 'approved'] says. *)
Record ColumnDef := {
  sqlType : SqlType;
  notNull : bool;
  dflt : Default;
  key : Key;
  autoIncrement : bool
}.

#[global] Instance ColumnDef_eq_dec : EqDecision ColumnDef.
Proof. solve_decision. Defined.

(** The attributes that occur in the DDL of the source. *)
Inductive Attr :=
| NOT_NULL
| NULL
| UNIQUE
| PRIMARY_KEY
| AUTO_INCREMENT
| DEFAULT (v : Value)
| DEFAULT_CURRENT_TIMESTAMP.

Definition applyAttr (d : ColumnDef) (a : Attr) : ColumnDef :=
  match a with
  | NOT_NULL => {| sqlType := sqlType d; notNull := true; dflt := dflt d;
                   key := key d; autoIncrement := autoIncrement d |}
  | NULL => {| sqlType := sqlType d; notNull := false; dflt := dflt d;
               key := key d; autoIncrement := autoIncrement d |}
  | UNIQUE => {| sqlType := sqlType d; notNull := notNull d; dflt := dflt d;
                 key := UNI; autoIncrement := autoIncrement d |}
  | PRIMARY_KEY => {| sqlType := sqlType d; notNull := true; dflt := dflt d;
                      key := PRI; autoIncrement := autoIncrement d |}
  | AUTO_INCREMENT => {| sqlType := sqlType d; notNull := notNull d; dflt := dflt d;
                         key := key d; autoIncrement := true |}
  | DEFAULT v => {| sqlType := sqlType d; notNull := notNull d; dflt := DefaultValue v;
                    key := key d; autoIncrement := autoIncrement d |}
  | DEFAULT_CURRENT_TIMESTAMP =>
      {| sqlType := sqlType d; notNull := notNull d; dflt := DefaultCurrentTimestamp;
         key := key d; autoIncrement := autoIncrement d |}
  end.

(** [def ty attrs] reads a fragment: a type followed by attributes. *)
Definition def (ty : SqlType) (attrs : list Attr) : ColumnDef :=
  fold_left applyAttr attrs
    {| sqlType := ty; notNull := false; dflt := NoDefault; key := NoKey;
       autoIncrement := false |}.

Record Column := { Field : string; definition : ColumnDef }.

#[global] Instance Column_eq_dec : EqDecision Column.
Proof. solve_decision. Defined.

Definition column (name : string) (ty : SqlType) (attrs : list Attr) : Column :=
  {| Field := name; definition := def ty attrs |}.

(** A row: column name to cell, in column order.  Result sets use the same
    shape (the driver returns one object per row). *)
Definition Row := list (string * Value).

Fixpoint row_get (k : string) (r : Row) : option Value :=
  match r with
  | [] => None
  | (k', v) :: r' => if String.eqb k k' then Some v else row_get k r'
  end.

Record Table := { columns : list Column; rows : list Row }.

(** The catalog of one database: table name to table. *)
Abbreviation DB := (gmap string Table).

Definition fields (T : Table) : list string := map Field (columns T).

(** Errors the server reports for the statements below, and the pool's
    failure to hand out a connection. *)
Inductive SqlError :=
| ER_NO_SUCH_TABLE (t : string)
| ER_DUP_FIELDNAME (c : string)
| ER_BAD_FIELD_ERROR (c : string)
| ER_DUP_ENTRY (c : string) (v : Value)
| ER_NO_DEFAULT_FOR_FIELD (c : string)
| ER_BAD_NULL_ERROR (c : string)
| ER_WRONG_VALUE_COUNT
| ER_FK_CANNOT_OPEN_PARENT (t : string)
| ECONNREFUSED.

#[global] Instance SqlError_eq_dec : EqDecision SqlError.
Proof. solve_decision. Defined.

(** The statement forms that the pass sends. *)
Inductive Stmt :=
| CreateTableIfNotExists (t : string) (cols : list Column) (references : list string)
| SelectFrom (c : string) (t : string)
| ShowTablesLike (pattern : string)
| ShowColumnsFrom (t : string) (like : option string)
| AlterTableAddColumn (t : string) (c : string) (d : ColumnDef)
| AlterTableModifyColumn (t : string) (c : string) (d : ColumnDef)
| InsertInto (ignore : bool) (t : string) (cols : list string) (vals : list Value).

#[global] Instance Stmt_eq_dec : EqDecision Stmt.
Proof. solve_decision. Defined.

(** *** LIKE patterns

    [%] matches any run of characters, [_] exactly one character, and a
    backslash takes the next pattern character literally. *)
Fixpoint like_chars (p s : list ascii) {struct p} : bool :=
  match p with
  | [] => match s with [] => true | _ :: _ => false end
  | c :: p' =>
      if Ascii.eqb c "%"%char then
        (fix star (s : list ascii) : bool :=
           like_chars p' s ||
           match s with [] => false | _ :: s' => star s' end) s
      else if Ascii.eqb c "_"%char then
        match s with [] => false | _ :: s' => like_chars p' s' end
      else if Ascii.eqb c "\"%char then
        match p', s with
        | e :: p'', x :: s' => Ascii.eqb e x && like_chars p'' s'
        | _, _ => false
        end
      else
        match s with
        | [] => false
        | x :: s' => Ascii.eqb c x && like_chars p' s'
        end
  end.

Definition like (pattern s : string) : bool :=
  like_chars (list_ascii_of_string pattern) (list_ascii_of_string s).

(** *** Cells the server supplies itself *)

(** The implicit default of a type: what a NOT NULL column without a
    DEFAULT receives where the server has to invent a value. *)
Definition implicitDefault (ty : SqlType) : Value :=
  match ty with
  | INT | BOOLEAN => VInt 0
  | VARCHAR _ | TEXT | MEDIUMTEXT => VStr ""
  | DATETIME => VStr "0000-00-00 00:00:00"
  | ENUM members => VStr (hd "" members)
  end.

(** The server clock is not part of the model: a cell filled from
    [DEFAULT CURRENT_TIMESTAMP] holds this token. *)
Definition current_timestamp : Value := VStr "CURRENT_TIMESTAMP".

(** The cell that the existing rows receive for a column added by ALTER. *)
Definition fillValue (d : ColumnDef) : Value :=
  match dflt d with
  | DefaultValue v => v
  | DefaultCurrentTimestamp => current_timestamp
  | NoDefault => if notNull d then implicitDefault (sqlType d) else VNull
  end.

Definition intCell (c : string) (r : Row) : Z :=
  match row_get c r with
  | Some (VInt n) => n
  | _ => 0
  end.

Definition nextAutoIncrement (c : string) (T : Table) : Z :=
  1 + fold_right Z.max 0 (map (intCell c) (rows T)).

(** The cell of column [col] in a row inserted with the listed cells
    [given].  A plain INSERT runs in strict mode; INSERT IGNORE turns the
    NOT NULL errors into the implicit default. *)
Definition cellFor (ignore : bool) (T : Table) (given : Row) (col : Column)
  : SqlError + Value :=
  let d := definition col in
  let invented :=
    if autoIncrement d then inr (VInt (nextAutoIncrement (Field col) T))
    else match dflt d with
         | DefaultValue v => inr v
         | DefaultCurrentTimestamp => inr current_timestamp
         | NoDefault =>
             if notNull d then
               if ignore then inr (implicitDefault (sqlType d))
               else inl (ER_NO_DEFAULT_FOR_FIELD (Field col))
             else inr VNull
         end in
  match row_get (Field col) given with
  | None => invented
  | Some VNull =>
      if autoIncrement d then inr (VInt (nextAutoIncrement (Field col) T))
      else if notNull d then
        if ignore then inr (implicitDefault (sqlType d))
        else inl (ER_BAD_NULL_ERROR (Field col))
      else inr VNull
  | Some v => inr v
  end.

Fixpoint buildRow (ignore : bool) (T : Table) (given : Row) (cols : list Column)
  : SqlError + Row :=
  match cols with
  | [] => inr []
  | col :: cols' =>
      match cellFor ignore T given col with
      | inl e => inl e
      | inr v =>
          match buildRow ignore T given cols' with
          | inl e => inl e
          | inr r => inr ((Field col, v) :: r)
          end
      end
  end.

(** [conflicts T row col]: [col] is a unique or primary key and some stored
    row already has the non-NULL cell that [row] has there. *)
Definition conflicts (T : Table) (row : Row) (col : Column) : bool :=
  match key (definition col) with
  | NoKey => false
  | UNI | PRI =>
      match row_get (Field col) row with
      | None | Some VNull => false
      | Some v =>
          existsb (fun r => bool_decide (row_get (Field col) r = Some v)) (rows T)
      end
  end.

Definition hasTable (db : DB) (t : string) : bool :=
  match db !! t with Some _ => true | None => false end.

Definition tableNames (db : DB) : list string := map fst (map_to_list db).

Definition yesno (b : bool) : Value := VStr (if b then "YES" else "NO").

Definition keyName (k : Key) : Value :=
  VStr match k with NoKey => "" | UNI => "UNI" | PRI => "PRI" end.

(** One row of SHOW COLUMNS (the Type and Default texts are left out: the
    pass reads [Field] and the number of rows only). *)
Definition describe (col : Column) : Row :=
  [("Field", VStr (Field col));
   ("Null", yesno (negb (notNull (definition col))));
   ("Key", keyName (key (definition col)));
   ("Extra", VStr (if autoIncrement (definition col) then "auto_increment" else ""))].

Definition matchesLike (pattern : option string) (col : Column) : bool :=
  match pattern with
  | None => true
  | Some p => like p (Field col)
  end.

Definition project (c : string) (r : Row) : Row :=
  match row_get c r with
  | Some v => [(c, v)]
  | None => []
  end.

Definition addColumn (c : string) (d : ColumnDef) (T : Table) : Table :=
  {| columns := (columns T ++ [{| Field := c; definition := d |}])%list;
     rows := map (fun r : Row => (r ++ [(c, fillValue d)])%list) (rows T) |}.

Definition modifyColumn (c : string) (d : ColumnDef) (T : Table) : Table :=
  {| columns :=
       map (fun col => if String.eqb (Field col) c
                       then {| Field := Field col; definition := d |}
                       else col) (columns T);
     rows := rows T |}.

Definition appendRow (r : Row) (T : Table) : Table :=
  {| columns := columns T; rows := (rows T ++ [r])%list |}.

Definition insertInto (ignore : bool) (t : string) (cols : list string)
    (vals : list Value) (db : DB) : SqlError + (DB * list Row) :=
  match db !! t with
  | None => inl (ER_NO_SUCH_TABLE t)
  | Some T =>
      if negb (Nat.eqb (length cols) (length vals)) then inl ER_WRONG_VALUE_COUNT
      else
        match find (fun c => negb (bool_decide (c ∈ fields T))) cols with
        | Some c => inl (ER_BAD_FIELD_ERROR c)
        | None =>
            match buildRow ignore T (combine cols vals) (columns T) with
            | inl e => inl e
            | inr row =>
                match find (conflicts T row) (columns T) with
                | Some col =>
                    if ignore then inr (db, [])
                    else inl (ER_DUP_ENTRY (Field col)
                                (default VNull (row_get (Field col) row)))
                | None => inr (<[t := appendRow row T]> db, [])
                end
            end
        end
  end.

(** One statement: the new catalog and the result set, or the error (the
    catalog is then unchanged). *)
Definition execStmt (s : Stmt) (db : DB) : SqlError + (DB * list Row) :=
  match s with
  | CreateTableIfNotExists t cols references =>
      if hasTable db t then inr (db, [])
      else
        match find (fun r => negb (hasTable db r)) references with
        | Some r => inl (ER_FK_CANNOT_OPEN_PARENT r)
        | None => inr (<[t := {| columns := cols; rows := [] |}]> db, [])
        end
  | SelectFrom c t =>
      match db !! t with
      | None => inl (ER_NO_SUCH_TABLE t)
      | Some T =>
          if bool_decide (c ∈ fields T) then inr (db, map (project c) (rows T))
          else inl (ER_BAD_FIELD_ERROR c)
      end
  | ShowTablesLike pattern =>
      inr (db, map (fun n => [("Tables_in_database", VStr n)])
                 (filter (fun n => like pattern n = true) (tableNames db)))
  | ShowColumnsFrom t pattern =>
      match db !! t with
      | None => inl (ER_NO_SUCH_TABLE t)
      | Some T =>
          inr (db, map describe
                     (filter (fun col => matchesLike pattern col = true) (columns T)))
      end
  | AlterTableAddColumn t c d =>
      match db !! t with
      | None => inl (ER_NO_SUCH_TABLE t)
      | Some T =>
          if bool_decide (c ∈ fields T) then inl (ER_DUP_FIELDNAME c)
          else inr (<[t := addColumn c d T]> db, [])
      end
  | AlterTableModifyColumn t c d =>
      match db !! t with
      | None => inl (ER_NO_SUCH_TABLE t)
      | Some T =>
          if bool_decide (c ∈ fields T) then inr (<[t := modifyColumn c d T]> db, [])
          else inl (ER_BAD_FIELD_ERROR c)
      end
  | InsertInto ignore t cols vals => insertInto ignore t cols vals db
  end.

(** The text handed to one [connection.query] call: one statement or, the
    pool being opened with [multipleStatements], several.  They run in
    order and stop at the first error; what ran before it stays. *)
Definition Query := list Stmt.

Fixpoint execQuery (q : Query) (db : DB) : DB * (SqlError + list (list Row)) :=
  match q with
  | [] => (db, inr [])
  | s :: q' =>
      match execStmt s db with
      | inl e => (db, inl e)
      | inr (db', rs) =>
          let '(db'', r) := execQuery q' db' in
          (db'', match r with inl e => inl e | inr rss => inr (rs :: rss) end)
      end
  end.

End Sql.

(* ===================================================================== *)
(** ** bcryptjs, as far as the pass depends on it

    The pass calls [bcrypt.hashSync(s, rounds)] once per run.  The library
    is not part of the repository; what matters here is the shape of its
    result, the version marker, the two-digit cost, [$], the 22 characters
    of the salt and the 31 characters of the digest, and that the salt is
    drawn from the random source at each call.  The digest is a
    parameter, the drawn salt an explicit argument.  The marker is
    written [$2a$], as release 2 of the library does (release 3 writes
    [$2b$]); nothing below depends on its letter or on the cost digits. *)
(* ===================================================================== *)

Module Bcrypt.

Section Hash.

(** The expensive key schedule: password, cost and salt to the 31
    characters that end the hash.  Its values are never inspected. *)
Variable digest : string -> nat -> string -> string.

(** The cost that [genSaltSync(rounds)] uses: zero counts as no argument
    and gives the default of 10; otherwise the cost is kept within 4 and
    31. *)
Definition clampRounds (rounds : nat) : nat :=
  if Nat.eqb rounds 0 then 10%nat
  else if Nat.ltb rounds 4 then 4%nat
  else if Nat.ltb 31 rounds then 31%nat
  else rounds.

Definition decimal (n : nat) : string :=
  DecimalString.NilEmpty.string_of_uint (Nat.to_uint n).

(** [genSaltSync(rounds)]: version, two-digit cost and the 22 characters
    that encode 16 bytes taken from the random source (here [random]). *)
Definition genSaltSync (rounds : nat) (random : string) : string :=
  let r := clampRounds rounds in
  "$2a$" ++ (if Nat.ltb r 10 then "0" else "") ++ decimal r ++ "$" ++ random.

(** [hashSync(s, rounds)] with a number for its second argument: a salt
    is generated first, and the result starts with that salt. *)
Definition hashSync (s : string) (rounds : nat) (random : string) : string :=
  genSaltSync rounds random ++ digest s (clampRounds rounds) random.

End Hash.

End Bcrypt.

(* ===================================================================== *)
(** ** The pass *)
(* ===================================================================== *)

Module Server.

Import Sql.

Local Open Scope list_scope.

(** The lines the pass writes to the console, one constructor per
    template of the source. *)
Inductive Message :=
| CheckingDatabaseMigrations
    (* "Checking database migrations..." *)
| RunningCriticalSchemaCheck
    (* "Running critical schema check..." *)
| AutoRepairAdding (columnName tableName : string)
    (* `Auto-repair: Adding '${columnName}' to ${tableName}` *)
| ErrorCheckingColumn (columnName tableName : string) (err : SqlError)
    (* `Error checking column ${columnName} in ${tableName}:`, err.message *)
| AutoRepairEquipmentIdNullable
    (* "Auto-repair: Making legacy column 'equipmentId' NULLABLE to fix Insert error." *)
| AutoRepairWarningEquipmentId (err : SqlError)
    (* "Auto-repair warning for equipmentId:", err.message *)
| AutoRepairTimestampDefault
    (* "Auto-repair: Ensuring 'timestamp' has DEFAULT CURRENT_TIMESTAMP." *)
| AutoRepairWarningTimestamp (err : SqlError)
    (* "Auto-repair warning for timestamp:", err.message *)
| AutoRepairAuditTimestampDefault
    (* "Auto-repair: Ensuring audit_log 'timestamp' has DEFAULT CURRENT_TIMESTAMP." *)
| AutoRepairWarningAuditTimestamp (err : SqlError)
    (* "Auto-repair warning for audit_log timestamp:", err.message *)
| CriticalSchemaCheckComplete
    (* "Critical schema check complete." *)
| RunningMigration (id : Z)
    (* `Running migration ${migration.id}...` *)
| MigrationCompleted (id : Z)
    (* `Migration ${migration.id} completed.` *)
| MigrationFailed (id : Z) (err : SqlError)
    (* `Migration ${migration.id} failed:`, err.message *)
| MigrationsCheckComplete
    (* "Migrations check complete." *)
| MigrationFailedFatal (error : SqlError).
    (* "Migration failed:", error *)

#[global] Instance Message_eq_dec : EqDecision Message.
Proof. solve_decision. Defined.

(** What the pass does that can be seen from outside, in order. *)
Inductive Event :=
| GetConnection
| Release
| Sent (q : Query) (error : option SqlError)
| ConsoleLog (m : Message)
| ConsoleError (m : Message).

#[global] Instance Event_eq_dec : EqDecision Event.
Proof. solve_decision. Defined.

(** *** async functions

    An async function of the pass either fulfils with a value or rejects
    with an error; it changes the database and emits events on the way. *)
Inductive Outcome (A : Type) :=
| Fulfilled (a : A)
| Rejected (e : SqlError).

Arguments Fulfilled {A} a.
Arguments Rejected {A} e.

Definition Async (A : Type) : Type := DB -> Outcome A * DB * list Event.

Definition resolve {A} (a : A) : Async A := fun db => (Fulfilled a, db, []).

Definition andThen {A B} (m : Async A) (k : A -> Async B) : Async B :=
  fun db =>
    match m db with
    | (Fulfilled a, db1, ev1) =>
        let '(o, db2, ev2) := k a db1 in (o, db2, ev1 ++ ev2)
    | (Rejected e, db1, ev1) => (Rejected e, db1, ev1)
    end.

(** [try { m } catch (err) { handler err }] *)
Definition tryCatch {A} (m : Async A) (handler : SqlError -> Async A) : Async A :=
  fun db =>
    match m db with
    | (Fulfilled a, db1, ev1) => (Fulfilled a, db1, ev1)
    | (Rejected e, db1, ev1) =>
        let '(o, db2, ev2) := handler e db1 in (o, db2, ev1 ++ ev2)
    end.

(** [try { m } catch (err) { handler err } finally { finalizer }] *)
Definition tryCatchFinally {A} (m : Async A) (handler : SqlError -> Async A)
    (finalizer : Async unit) : Async A :=
  fun db =>
    let '(o, db1, ev1) := tryCatch m handler db in
    match finalizer db1 with
    | (Fulfilled _, db2, ev2) => (o, db2, ev1 ++ ev2)
    | (Rejected e, db2, ev2) => (Rejected e, db2, ev1 ++ ev2)
    end.

(** A rejected promise. *)
Definition reject {A} (e : SqlError) : Async A := fun db => (Rejected e, db, []).

Notation "x <- m ;; k" := (andThen m (fun x => k))
  (at level 100, m at next level, right associativity).
Notation "m ;;; k" := (andThen m (fun _ => k))
  (at level 100, right associativity).

Definition emit (e : Event) : Async unit := fun db => (Fulfilled tt, db, [e]).

Definition console_log (m : Message) : Async unit := emit (ConsoleLog m).
Definition console_error (m : Message) : Async unit := emit (ConsoleError m).

(** [connection.query(sql)]: the result sets, one per statement. *)
Definition query (sql : Query) : Async (list (list Row)) :=
  fun db =>
    match execQuery sql db with
    | (db', inr results) => (Fulfilled results, db', [Sent sql None])
    | (db', inl e) => (Rejected e, db', [Sent sql (Some e)])
    end.

(** [const [rows] = await connection.query(sql)] for a single statement. *)
Definition query1 (s : Stmt) : Async (list Row) :=
  results <- query [s] ;; resolve (hd [] results).

(** [for (const x of xs) { await body(x) }] *)
Fixpoint forOf {A} (xs : list A) (body : A -> Async unit) : Async unit :=
  match xs with
  | [] => resolve tt
  | x :: xs' => body x ;;; forOf xs' body
  end.

(** [columnNames.includes(columnName)], the names being the [Field]
    property of each row ([None] where a row has no such property). *)
Definition includes (names : list (option Value)) (name : string) : bool :=
  bool_decide (Some (VStr name) ∈ names).

(** *** ensureCriticalSchema *)

Definition checkAndAddColumn (tableName columnName : string) (columnDef : ColumnDef)
  : Async unit :=
  tryCatch
    (tableExists <- query1 (ShowTablesLike tableName) ;;
     if Nat.eqb (length tableExists) 0 then resolve tt
     else
       columns <- query1 (ShowColumnsFrom tableName None) ;;
       let columnNames := map (row_get "Field") columns in
       if negb (includes columnNames columnName) then
         console_log (AutoRepairAdding columnName tableName) ;;;
         _ <- query1 (AlterTableAddColumn tableName columnName columnDef) ;;
         resolve tt
       else resolve tt)
    (fun err => console_error (ErrorCheckingColumn columnName tableName err)).

(** The three blocks "Fix 1" to "Fix 3": when SHOW COLUMNS ... LIKE finds
    the column, announce and MODIFY it; a rejection is caught and logged. *)
Definition modifyIfPresent (tableName columnName : string) (columnDef : ColumnDef)
    (announce : Message) (warning : SqlError -> Message) : Async unit :=
  tryCatch
    (cols <- query1 (ShowColumnsFrom tableName (Some columnName)) ;;
     if Nat.ltb 0 (length cols) then
       console_log announce ;;;
       _ <- query1 (AlterTableModifyColumn tableName columnName columnDef) ;;
       resolve tt
     else resolve tt)
    (fun err => console_error (warning err)).

Definition ensureCriticalSchema : Async unit :=
  console_log RunningCriticalSchemaCheck ;;;

  (* 1. Add missing columns to tables *)
  checkAndAddColumn "licenses" "empresa" (def (VARCHAR 255) [NULL]) ;;;
  checkAndAddColumn "licenses" "observacoes" (def TEXT []) ;;;
  checkAndAddColumn "licenses" "approval_status"
    (def (VARCHAR 50) [DEFAULT (VStr "approved")]) ;;;
  checkAndAddColumn "licenses" "rejection_reason" (def TEXT []) ;;;
  checkAndAddColumn "licenses" "created_by_id" (def INT [NULL]) ;;;

  checkAndAddColumn "equipment" "observacoes" (def TEXT []) ;;;
  checkAndAddColumn "equipment" "approval_status"
    (def (VARCHAR 50) [DEFAULT (VStr "approved")]) ;;;
  checkAndAddColumn "equipment" "rejection_reason" (def TEXT []) ;;;
  checkAndAddColumn "equipment" "created_by_id" (def INT [NULL]) ;;;
  checkAndAddColumn "equipment" "emailColaborador" (def (VARCHAR 255) []) ;;;

  (* Absolute Report Fields *)
  checkAndAddColumn "equipment" "brand" (def (VARCHAR 100) []) ;;;
  checkAndAddColumn "equipment" "model" (def (VARCHAR 100) []) ;;;
  checkAndAddColumn "equipment" "identificador" (def (VARCHAR 255) []) ;;;
  checkAndAddColumn "equipment" "nomeSO" (def (VARCHAR 255) []) ;;;
  checkAndAddColumn "equipment" "memoriaFisicaTotal" (def (VARCHAR 100) []) ;;;
  checkAndAddColumn "equipment" "grupoPoliticas" (def (VARCHAR 100) []) ;;;
  checkAndAddColumn "equipment" "pais" (def (VARCHAR 100) []) ;;;
  checkAndAddColumn "equipment" "cidade" (def (VARCHAR 100) []) ;;;
  checkAndAddColumn "equipment" "estadoProvincia" (def (VARCHAR 100) []) ;;;
  checkAndAddColumn "equipment" "condicaoTermo"
    (def (ENUM ["Assinado - Entrega"; "Assinado - Devolução"; "Pendente"; "N/A"])
         [DEFAULT (VStr "N/A")]) ;;;

  checkAndAddColumn "users" "twoFASecret" (def (VARCHAR 255) [NULL]) ;;;
  checkAndAddColumn "users" "is2FAEnabled" (def BOOLEAN [DEFAULT (VInt 0)]) ;;;
  checkAndAddColumn "users" "avatarUrl" (def MEDIUMTEXT []) ;;;

  (* 2. CRITICAL FIX FOR EQUIPMENT HISTORY *)
  checkAndAddColumn "equipment_history" "equipment_id" (def INT []) ;;;

  (* Fix 1 *)
  modifyIfPresent "equipment_history" "equipmentId" (def INT [NULL])
    AutoRepairEquipmentIdNullable AutoRepairWarningEquipmentId ;;;
  (* Fix 2 *)
  modifyIfPresent "equipment_history" "timestamp" (def DATETIME [DEFAULT_CURRENT_TIMESTAMP])
    AutoRepairTimestampDefault AutoRepairWarningTimestamp ;;;
  (* Fix 3 *)
  modifyIfPresent "audit_log" "timestamp" (def DATETIME [DEFAULT_CURRENT_TIMESTAMP])
    AutoRepairAuditTimestampDefault AutoRepairWarningAuditTimestamp ;;;

  console_log CriticalSchemaCheckComplete.

(** *** The fixed list of migrations *)

Record Migration := { id : Z; sql : Query }.

Definition usersColumns : list Column :=
  [ column "id" INT [AUTO_INCREMENT; PRIMARY_KEY];
    column "username" (VARCHAR 255) [NOT_NULL; UNIQUE];
    column "realName" (VARCHAR 255) [NOT_NULL];
    column "email" (VARCHAR 255) [NOT_NULL; UNIQUE];
    column "password" (VARCHAR 255) [NOT_NULL];
    column "role" (ENUM ["Admin"; "User Manager"; "User"]) [NOT_NULL];
    column "lastLogin" DATETIME [];
    column "is2FAEnabled" BOOLEAN [DEFAULT (VInt 0)];
    column "twoFASecret" (VARCHAR 255) [];
    column "ssoProvider" (VARCHAR 50) [NULL];
    column "avatarUrl" MEDIUMTEXT [] ].

Definition equipmentColumns : list Column :=
  [ column "id" INT [AUTO_INCREMENT; PRIMARY_KEY];
    column "equipamento" (VARCHAR 255) [NOT_NULL];
    column "garantia" (VARCHAR 255) [];
    column "patrimonio" (VARCHAR 255) [UNIQUE];
    column "serial" (VARCHAR 255) [UNIQUE];
    column "usuarioAtual" (VARCHAR 255) [];
    column "usuarioAnterior" (VARCHAR 255) [];
    column "local" (VARCHAR 255) [];
    column "setor" (VARCHAR 255) [];
    column "dataEntregaUsuario" (VARCHAR 255) [];
    column "status" (VARCHAR 255) [];
    column "dataDevolucao" (VARCHAR 255) [];
    column "tipo" (VARCHAR 255) [];
    column "notaCompra" (VARCHAR 255) [];
    column "notaPlKm" (VARCHAR 255) [];
    column "termoResponsabilidade" (VARCHAR 255) [];
    column "foto" TEXT [];
    column "qrCode" TEXT [];
    column "observacoes" TEXT [];
    column "approval_status" (VARCHAR 50) [DEFAULT (VStr "approved")];
    column "rejection_reason" TEXT [] ].

Definition licensesColumns : list Column :=
  [ column "id" INT [AUTO_INCREMENT; PRIMARY_KEY];
    column "produto" (VARCHAR 255) [NOT_NULL];
    column "tipoLicenca" (VARCHAR 255) [];
    column "chaveSerial" (VARCHAR 255) [NOT_NULL];
    column "dataExpiracao" (VARCHAR 255) [];
    column "usuario" (VARCHAR 255) [NOT_NULL];
    column "cargo" (VARCHAR 255) [];
    column "setor" (VARCHAR 255) [];
    column "gestor" (VARCHAR 255) [];
    column "centroCusto" (VARCHAR 255) [];
    column "contaRazao" (VARCHAR 255) [];
    column "nomeComputador" (VARCHAR 255) [];
    column "numeroChamado" (VARCHAR 255) [];
    column "observacoes" TEXT [];
    column "approval_status" (VARCHAR 50) [DEFAULT (VStr "approved")];
    column "rejection_reason" TEXT [] ].

Definition equipmentHistoryColumns : list Column :=
  [ column "id" INT [AUTO_INCREMENT; PRIMARY_KEY];
    column "equipment_id" INT [];
    column "timestamp" DATETIME [DEFAULT_CURRENT_TIMESTAMP];
    column "changedBy" (VARCHAR 255) [];
    column "changeType" (VARCHAR 255) [];
    column "from_value" TEXT [];
    column "to_value" TEXT [] ].

Definition auditLogColumns : list Column :=
  [ column "id" INT [AUTO_INCREMENT; PRIMARY_KEY];
    column "timestamp" DATETIME [DEFAULT_CURRENT_TIMESTAMP];
    column "username" (VARCHAR 255) [];
    column "action_type" (VARCHAR 255) [];
    column "target_type" (VARCHAR 255) [];
    column "target_id" (VARCHAR 255) [];
    column "details" TEXT [] ].

Definition appConfigColumns : list Column :=
  [ column "id" INT [AUTO_INCREMENT; PRIMARY_KEY];
    column "config_key" (VARCHAR 255) [NOT_NULL; UNIQUE];
    column "config_value" TEXT [] ].

Definition insertConfig (config_key : string) (config_value : Value) : Stmt :=
  InsertInto true "app_config" ["config_key"; "config_value"]
    [VStr config_key; config_value].

(** The seed of the administrative account, for a given password hash. *)
Definition seedAdmin (passwordHash : string) : Stmt :=
  InsertInto true "users" ["username"; "realName"; "email"; "password"; "role"]
    [VStr "admin"; VStr "Admin"; VStr "admin@example.com"; VStr passwordHash;
     VStr "Admin"].

(** The array literal [migrations]; [passwordHash] stands for the value of
    the interpolated [bcrypt.hashSync("marceloadmin", SALT_ROUNDS)]. *)
Definition migrationList (passwordHash : string) : list Migration :=
  [ {| id := 1; sql := [CreateTableIfNotExists "users" usersColumns []] |};
    {| id := 2; sql := [CreateTableIfNotExists "equipment" equipmentColumns []] |};
    {| id := 3; sql := [CreateTableIfNotExists "licenses" licensesColumns []] |};
    {| id := 4; sql := [CreateTableIfNotExists "equipment_history"
                          equipmentHistoryColumns ["equipment"]] |};
    {| id := 5; sql := [CreateTableIfNotExists "audit_log" auditLogColumns []] |};
    {| id := 6; sql := [CreateTableIfNotExists "app_config" appConfigColumns []] |};
    {| id := 7; sql := [seedAdmin passwordHash] |};
    {| id := 8; sql := [insertConfig "companyName" (VStr "MRR INFORMATICA");
                        insertConfig "isSsoEnabled" (VStr "false")] |};
    {| id := 9; sql := [AlterTableAddColumn "equipment" "emailColaborador"
                          (def (VARCHAR 255) [])] |};
    {| id := 10; sql := [insertConfig "termo_entrega_template" VNull;
                         insertConfig "termo_devolucao_template" VNull] |};
    {| id := 11; sql := [AlterTableAddColumn "users" "avatarUrl" (def MEDIUMTEXT [])] |};
    {| id := 12; sql := [AlterTableModifyColumn "users" "avatarUrl" (def MEDIUMTEXT [])] |};
    {| id := 13; sql := [AlterTableAddColumn "licenses" "created_by_id" (def INT [NULL])] |};
    {| id := 14; sql := [AlterTableAddColumn "equipment" "created_by_id" (def INT [NULL])] |};
    {| id := 15; sql := [insertConfig "is2faEnabled" (VStr "false")] |} ].

(** *** runMigrations *)

Definition createMigrationsTable : Stmt :=
  CreateTableIfNotExists "migrations" [column "id" INT [PRIMARY_KEY]] [].

Definition recordMigration (id : Z) : Query :=
  [InsertInto false "migrations" ["id"] [VInt id]].

(** [executedMigrationIds.has(id)], the set holding the [id] property of
    every row read from the bookkeeping table. *)
Definition has (executedMigrationIds : list (option Value)) (id : Z) : bool :=
  bool_decide (Some (VInt id) ∈ executedMigrationIds).

(** The body of the [for] loop. *)
Definition applyMigration (executedMigrationIds : list (option Value))
    (migration : Migration) : Async unit :=
  if negb (has executedMigrationIds (id migration)) then
    console_log (RunningMigration (id migration)) ;;;
    tryCatch
      (_ <- query (sql migration) ;;
       _ <- query (recordMigration (id migration)) ;;
       console_log (MigrationCompleted (id migration)))
      (fun err => console_error (MigrationFailed (id migration) err))
  else resolve tt.

(** What runs between [getConnection] and the [catch]/[finally] of
    [runMigrations], for a given array [migrations]. *)
Definition migrate (migrations : list Migration) : Async unit :=
  _ <- query1 createMigrationsTable ;;
  executedRows <- query1 (SelectFrom "id" "migrations") ;;
  let executedMigrationIds := map (row_get "id") executedRows in
  ensureCriticalSchema ;;;
  forOf migrations (applyMigration executedMigrationIds) ;;;
  console_log MigrationsCheckComplete.

(** [db.promise().getConnection()]; [connectable] says whether the pool
    hands out a connection. *)
Definition getConnection (connectable : bool) : Async unit :=
  if connectable then emit GetConnection else reject ECONNREFUSED.

(** [runMigrations] around the body of its [try] block that follows
    [getConnection].  In the [finally] block the variable [connection]
    holds a connection exactly when [getConnection] fulfilled. *)
Definition withConnection (connectable : bool) (body : Async unit) : Async unit :=
  console_log CheckingDatabaseMigrations ;;;
  tryCatchFinally
    (getConnection connectable ;;; body)
    (fun error => console_error (MigrationFailedFatal error))
    (if connectable then emit Release else resolve tt).

Section Startup.

(** Configuration and environment: [SALT_ROUNDS] as read from the
    process environment, and bcrypt's digest. *)
Variable SALT_ROUNDS : nat.
Variable digest : string -> nat -> string -> string.

(** The array as built in a run whose random source yields [random]. *)
Definition migrations (random : string) : list Migration :=
  migrationList (Bcrypt.hashSync digest "marceloadmin" SALT_ROUNDS random).

Definition runMigrations (connectable : bool) (random : string) : Async unit :=
  withConnection connectable (migrate (migrations random)).

End Startup.

(** Projections of a finished call. *)
Definition dbAfter {A} (m : Async A) (db : DB) : DB := (m db).1.2.
Definition eventsOf {A} (m : Async A) (db : DB) : list Event := (m db).2.
Definition outcomeOf {A} (m : Async A) (db : DB) : Outcome A := (m db).1.1.

End Server.

(* ===================================================================== *)
(** ** The login route

    [POST /api/login] of src/unnamed/part_000 talks to the pool directly:
    every [db.promise().query] is a statement of its own, committed when
    it returns.  The route sends three statement forms that the startup
    pass does not use; they are modelled here over the catalog of [Sql]:
    - [SELECT ... FROM t WHERE c = ?] returns the matching rows in table
      order and changes nothing;
    - [UPDATE t SET c' = NOW() WHERE c = ?] stamps the matching rows;
    - [INSERT INTO t (...) VALUES (...)] is the plain insert of [Sql].
    A missing table and an unknown column are rejected.  How the server
    compares a cell with a bound parameter (collation, conversions) is a
    parameter, [sqlEq]; a comparison with NULL never holds.  Key checks
    on UPDATE are left out: the statement stamps a DATETIME column.

    [bcrypt.compareSync] is a parameter as well: it answers, or throws on
    a stored value that is no hash.  The request body is taken to carry
    two strings. *)
(* ===================================================================== *)

Module Api.

Import Sql.

Local Open Scope list_scope.

(** What the [try] block of a route can throw. *)
Inductive Thrown :=
| QueryError (e : SqlError)
| BcryptError.

Inductive Dml :=
| SelectWhere (cols : option (list string)) (t c : string) (param : Value)
| UpdateSetNow (t target c : string) (param : Value)
| InsertValues (t : string) (cols : list string) (vals : list Value).

(** A JavaScript value read from a row object, as a condition:
    [undefined], [null], [0] and the empty string are false. *)
Definition jsTruthy (v : option Value) : bool :=
  match v with
  | None | Some VNull => false
  | Some (VInt n) => negb (Z.eqb n 0)
  | Some (VStr s) => negb (String.eqb s "")
  end.

(** A property of a row object as a bound parameter: [undefined] and
    [null] are sent as NULL. *)
Definition bound (v : option Value) : Value := default VNull v.

(** The row with cell [c] replaced by [v]. *)
Definition setCell (c : string) (v : Value) (r : Row) : Row :=
  map (fun kv : string * Value => if String.eqb (fst kv) c then (fst kv, v) else kv) r.

(** The row object without the properties [names]. *)
Definition omit (names : list string) (r : Row) : Row :=
  List.filter (fun kv : string * Value => negb (bool_decide (fst kv ∈ names))) r.

(** The selected cells of a row: all of them for [*]. *)
Definition pick (cols : option (list string)) (r : Row) : Row :=
  match cols with
  | None => r
  | Some cs => concat (map (fun c => project c r) cs)
  end.

Definition unknownColumn (T : Table) (cs : list string) : option string :=
  find (fun c => negb (bool_decide (c ∈ fields T))) cs.

Section Routes.

(** The server's [=] between a cell and a bound parameter, both not NULL. *)
Variable sqlEq : Value -> Value -> bool.

(** [bcrypt.compareSync(s, hash)] on two strings; [None] when it throws. *)
Variable compareSync : string -> string -> option bool.

Definition matches (c : string) (param : Value) (r : Row) : bool :=
  match row_get c r, param with
  | None, _ | Some VNull, _ | _, VNull => false
  | Some v, p => sqlEq v p
  end.

Definition execDml (s : Dml) (db : DB) : SqlError + (DB * list Row) :=
  match s with
  | SelectWhere cols t c param =>
      match db !! t with
      | None => inl (ER_NO_SUCH_TABLE t)
      | Some T =>
          match unknownColumn T (default [] cols ++ [c]) with
          | Some x => inl (ER_BAD_FIELD_ERROR x)
          | None => inr (db, map (pick cols) (List.filter (matches c param) (rows T)))
          end
      end
  | UpdateSetNow t target c param =>
      match db !! t with
      | None => inl (ER_NO_SUCH_TABLE t)
      | Some T =>
          match unknownColumn T [target; c] with
          | Some x => inl (ER_BAD_FIELD_ERROR x)
          | None =>
              inr (<[t := {| columns := columns T;
                             rows := map (fun r => if matches c param r
                                                   then setCell target current_timestamp r
                                                   else r) (rows T) |}]> db,
                   [])
          end
      end
  | InsertValues t cols vals => insertInto false t cols vals db
  end.

(** The [try] block of a route: it returns a value or throws, and leaves
    a database. *)
Definition Route (A : Type) : Type := DB -> (Thrown + A) * DB.

Definition ret {A} (a : A) : Route A := fun db => (inr a, db).

Definition throw {A} (e : Thrown) : Route A := fun db => (inl e, db).

Definition bind {A B} (m : Route A) (k : A -> Route B) : Route B :=
  fun db =>
    match m db with
    | (inr a, db1) => k a db1
    | (inl e, db1) => (inl e, db1)
    end.

(** [const [rows] = await db.promise().query(sql, params)] *)
Definition poolQuery (s : Dml) : Route (list Row) :=
  fun db =>
    match execDml s db with
    | inr (db', rows) => (inr rows, db')
    | inl e => (inl (QueryError e), db)
    end.

(** [bcrypt.compareSync(password, user.password)]: it throws unless both
    arguments are strings. *)
Definition comparePassword (password : string) (stored : option Value) : Route bool :=
  match stored with
  | Some (VStr hash) =>
      match compareSync password hash with
      | Some valid => ret valid
      | None => throw BcryptError
      end
  | _ => throw BcryptError
  end.

(** What [res.status(...).json(...)] sends. *)
Inductive Body :=
| MessageJson (message : string)
| ErrorJson (error : Thrown)
| UserJson (user : Row) (requires2FASetup : bool).

Record Response := { status : nat; body : Body }.

Definition auditLogin (username : string) (user : Row) : Dml :=
  InsertValues "audit_log"
    ["username"; "action_type"; "target_type"; "target_id"; "details"; "timestamp"]
    [VStr username; VStr "LOGIN"; VStr "USER"; bound (row_get "id" user);
     VStr "User logged in"; current_timestamp].

(** [try { m } catch (error) { res.status(500).json({ message:
    error.message }) }]: the response sent and the database left. *)
Definition handler (m : Route Response) (db : DB) : Response * DB :=
  match m db with
  | (inr response, db') => (response, db')
  | (inl error, db') => ({| status := 500; body := ErrorJson error |}, db')
  end.

Definition login (username password : string) : DB -> Response * DB :=
  handler
    (bind (poolQuery (SelectWhere None "users" "username" (VStr username))) (fun users =>
     match users with
     | [] => ret {| status := 401; body := MessageJson "Usuário não encontrado" |}
     | user :: _ =>
         if jsTruthy (row_get "ssoProvider" user) then
           ret {| status := 401; body := MessageJson "Por favor, use o login via SSO." |}
         else
           bind (comparePassword password (row_get "password" user)) (fun isPasswordValid =>
           if negb isPasswordValid then
             ret {| status := 401; body := MessageJson "Senha incorreta" |}
           else
             bind (poolQuery (SelectWhere (Some ["config_value"]) "app_config"
                                "config_key" (VStr "require2fa"))) (fun settingsRows =>
             let require2FA :=
               match settingsRows with
               | [] => false
               | row :: _ => bool_decide (row_get "config_value" row = Some (VStr "true"))
               end in
             bind (poolQuery (UpdateSetNow "users" "lastLogin" "id"
                                (bound (row_get "id" user)))) (fun _ =>
             bind (poolQuery (auditLogin username user)) (fun _ =>
             let userWithoutSensitiveData := omit ["password"; "twoFASecret"] user in
             ret {| status := 200;
                    body := UserJson userWithoutSensitiveData
                              (require2FA && negb (jsTruthy (row_get "is2FAEnabled" user)))
                 |}))))
     end)).

End Routes.

End Api.

(* ===================================================================== *)
(** ** The root component of the frontend

    [App] of src/App.tsx keeps who is signed in, who still owes a second
    factor and who has to set one up, and chooses the screen from that.
    Its state is the [useState] cells together with what it reads and
    writes in the browser: the items [currentUser] and [theme] of
    [localStorage], the item [2fa_verified] of [sessionStorage] and the
    class [dark] of the document element.  The handlers are functions on
    that state; all [set...] calls of one handler take effect together.

    The item [currentUser] only ever receives [JSON.stringify(user)], so
    it is kept as the user that [JSON.parse] gives back.  The child
    components and ./types are not among the sources: a child is
    represented by its name and the props it is given. *)
(* ===================================================================== *)

Module App.

(** [UserRole] of ./types: the members the component names, and the rest. *)
Inductive UserRole := Admin | UserManager | OtherRole.

#[global] Instance UserRole_eq_dec : EqDecision UserRole.
Proof. solve_decision. Defined.

(** A [User], with the properties that the component reads or writes;
    [others] stands for the remaining ones.  The two flags are kept by
    their truth value: [requires2FASetup] is absent unless the server set
    it. *)
Record User := {
  role : UserRole;
  is2FAEnabled : bool;
  requires2FASetup : bool;
  others : list (string * string)
}.

#[global] Instance User_eq_dec : EqDecision User.
Proof. solve_decision. Defined.

Definition Page := string.

(** [Partial<AppSettings>], with the properties that the component reads. *)
Record AppSettings := {
  settingsCompanyName : option string;
  settingsIsSsoEnabled : option bool;
  require2fa : option bool
}.

Record World := {
  (* the useState cells *)
  currentUser : option User;
  userFor2FA : option User;
  userFor2FASetup : option User;
  activePage : Page;
  isSidebarOpen : bool;
  isDarkMode : bool;
  companyName : string;
  isSsoEnabled : bool;
  globalSettings : AppSettings;
  (* localStorage.getItem('currentUser'), parsed *)
  savedUser : option User;
  (* localStorage.getItem('theme') *)
  savedTheme : option string;
  (* sessionStorage.getItem('2fa_verified') *)
  verified : option string;
  (* document.documentElement.classList.contains('dark') *)
  darkClass : bool
}.

(** Truth value of a string or of [null]. *)
Definition truthy (item : option string) : bool :=
  match item with
  | None => false
  | Some s => negb (String.eqb s "")
  end.

(** The state of the first render, in a browser whose storages hold what
    [w] left there; [htmlDark] says whether the document as served
    carries the class [dark]. *)
Definition initial (htmlDark : bool) (w : World) : World :=
  {| currentUser := None; userFor2FA := None; userFor2FASetup := None;
     activePage := "Dashboard"; isSidebarOpen := false; isDarkMode := false;
     companyName := "MRR INFORMATICA"; isSsoEnabled := false;
     globalSettings := {| settingsCompanyName := None; settingsIsSsoEnabled := None;
                          require2fa := None |};
     savedUser := savedUser w; savedTheme := savedTheme w;
     verified := verified w; darkClass := htmlDark |}.

(** The first effect: the saved user and the saved theme. *)
Definition loadSavedUser (w : World) : World :=
  match savedUser w with
  | Some user =>
      if is2FAEnabled user && negb (truthy (verified w)) then
        {| currentUser := currentUser w; userFor2FA := Some user;
           userFor2FASetup := userFor2FASetup w; activePage := activePage w;
           isSidebarOpen := isSidebarOpen w; isDarkMode := isDarkMode w;
           companyName := companyName w; isSsoEnabled := isSsoEnabled w;
           globalSettings := globalSettings w; savedUser := savedUser w;
           savedTheme := savedTheme w; verified := verified w; darkClass := darkClass w |}
      else
        {| currentUser := Some user; userFor2FA := userFor2FA w;
           userFor2FASetup := userFor2FASetup w; activePage := activePage w;
           isSidebarOpen := isSidebarOpen w; isDarkMode := isDarkMode w;
           companyName := companyName w; isSsoEnabled := isSsoEnabled w;
           globalSettings := globalSettings w; savedUser := savedUser w;
           savedTheme := savedTheme w; verified := verified w; darkClass := darkClass w |}
  | None => w
  end.

Definition loadSavedTheme (w : World) : World :=
  if bool_decide (savedTheme w = Some "dark") then
    {| currentUser := currentUser w; userFor2FA := userFor2FA w;
       userFor2FASetup := userFor2FASetup w; activePage := activePage w;
       isSidebarOpen := isSidebarOpen w; isDarkMode := true;
       companyName := companyName w; isSsoEnabled := isSsoEnabled w;
       globalSettings := globalSettings w; savedUser := savedUser w;
       savedTheme := savedTheme w; verified := verified w; darkClass := true |}
  else w.

Definition restoreSession (w : World) : World := loadSavedTheme (loadSavedUser w).

(** [fetchSettings], once [getSettings()] has settled: [Some settings]
    when it resolved, [None] when it rejected (the error goes to the
    console and the state stays). *)
Definition fetchSettings (result : option AppSettings) (w : World) : World :=
  match result with
  | Some settings =>
      {| currentUser := currentUser w; userFor2FA := userFor2FA w;
         userFor2FASetup := userFor2FASetup w; activePage := activePage w;
         isSidebarOpen := isSidebarOpen w; isDarkMode := isDarkMode w;
         companyName :=
           match settingsCompanyName settings with
           | Some name => if String.eqb name "" then "MRR INFORMATICA" else name
           | None => "MRR INFORMATICA"
           end;
         isSsoEnabled := default false (settingsIsSsoEnabled settings);
         globalSettings := settings; savedUser := savedUser w;
         savedTheme := savedTheme w; verified := verified w; darkClass := darkClass w |}
  | None => w
  end.

(** The third effect: a signed-in user without a second factor is moved
    to the setup screen when the settings require one. *)
Definition enforceTwoFactor (w : World) : World :=
  match currentUser w, userFor2FASetup w with
  | Some user, None =>
      if default false (require2fa (globalSettings w)) && negb (is2FAEnabled user) then
        {| currentUser := None; userFor2FA := userFor2FA w;
           userFor2FASetup := Some user; activePage := activePage w;
           isSidebarOpen := isSidebarOpen w; isDarkMode := isDarkMode w;
           companyName := companyName w; isSsoEnabled := isSsoEnabled w;
           globalSettings := globalSettings w; savedUser := savedUser w;
           savedTheme := savedTheme w; verified := verified w; darkClass := darkClass w |}
      else w
  | _, _ => w
  end.

Definition handleLoginSuccess (user : User) (w : World) : World :=
  if requires2FASetup user then
    {| currentUser := currentUser w; userFor2FA := userFor2FA w;
       userFor2FASetup := Some user; activePage := activePage w;
       isSidebarOpen := isSidebarOpen w; isDarkMode := isDarkMode w;
       companyName := companyName w; isSsoEnabled := isSsoEnabled w;
       globalSettings := globalSettings w; savedUser := savedUser w;
       savedTheme := savedTheme w; verified := verified w; darkClass := darkClass w |}
  else if is2FAEnabled user then
    {| currentUser := currentUser w; userFor2FA := Some user;
       userFor2FASetup := userFor2FASetup w; activePage := activePage w;
       isSidebarOpen := isSidebarOpen w; isDarkMode := isDarkMode w;
       companyName := companyName w; isSsoEnabled := isSsoEnabled w;
       globalSettings := globalSettings w; savedUser := savedUser w;
       savedTheme := savedTheme w; verified := verified w; darkClass := darkClass w |}
  else
    {| currentUser := Some user; userFor2FA := userFor2FA w;
       userFor2FASetup := userFor2FASetup w; activePage := activePage w;
       isSidebarOpen := isSidebarOpen w; isDarkMode := isDarkMode w;
       companyName := companyName w; isSsoEnabled := isSsoEnabled w;
       globalSettings := globalSettings w; savedUser := Some user;
       savedTheme := savedTheme w; verified := verified w; darkClass := darkClass w |}.

Definition handle2FAVerificationSuccess (user : User) (w : World) : World :=
  {| currentUser := Some user; userFor2FA := None;
     userFor2FASetup := userFor2FASetup w; activePage := activePage w;
     isSidebarOpen := isSidebarOpen w; isDarkMode := isDarkMode w;
     companyName := companyName w; isSsoEnabled := isSsoEnabled w;
     globalSettings := globalSettings w; savedUser := Some user;
     savedTheme := savedTheme w; verified := Some "true"; darkClass := darkClass w |}.

Definition handle2FASetupSuccess (user : User) (w : World) : World :=
  let updatedUser :=
    {| role := role user; is2FAEnabled := true;
       requires2FASetup := requires2FASetup user; others := others user |} in
  {| currentUser := Some updatedUser; userFor2FA := userFor2FA w;
     userFor2FASetup := None; activePage := activePage w;
     isSidebarOpen := isSidebarOpen w; isDarkMode := isDarkMode w;
     companyName := companyName w; isSsoEnabled := isSsoEnabled w;
     globalSettings := globalSettings w; savedUser := Some updatedUser;
     savedTheme := savedTheme w; verified := Some "true"; darkClass := darkClass w |}.

Definition handleLogout (w : World) : World :=
  {| currentUser := None; userFor2FA := None; userFor2FASetup := None;
     activePage := "Dashboard";
     isSidebarOpen := isSidebarOpen w; isDarkMode := isDarkMode w;
     companyName := companyName w; isSsoEnabled := isSsoEnabled w;
     globalSettings := globalSettings w; savedUser := None;
     savedTheme := savedTheme w; verified := None; darkClass := darkClass w |}.

Definition handleUserUpdate (updatedUser : User) (w : World) : World :=
  {| currentUser := Some updatedUser; userFor2FA := userFor2FA w;
     userFor2FASetup := userFor2FASetup w; activePage := activePage w;
     isSidebarOpen := isSidebarOpen w; isDarkMode := isDarkMode w;
     companyName := companyName w; isSsoEnabled := isSsoEnabled w;
     globalSettings := globalSettings w; savedUser := Some updatedUser;
     savedTheme := savedTheme w; verified := verified w; darkClass := darkClass w |}.

Definition toggleTheme (w : World) : World :=
  let newIsDark := negb (isDarkMode w) in
  {| currentUser := currentUser w; userFor2FA := userFor2FA w;
     userFor2FASetup := userFor2FASetup w; activePage := activePage w;
     isSidebarOpen := isSidebarOpen w; isDarkMode := newIsDark;
     companyName := companyName w; isSsoEnabled := isSsoEnabled w;
     globalSettings := globalSettings w; savedUser := savedUser w;
     savedTheme := Some (if newIsDark then "dark" else "light");
     verified := verified w; darkClass := newIsDark |}.

Definition setActivePage (page : Page) (w : World) : World :=
  {| currentUser := currentUser w; userFor2FA := userFor2FA w;
     userFor2FASetup := userFor2FASetup w; activePage := page;
     isSidebarOpen := isSidebarOpen w; isDarkMode := isDarkMode w;
     companyName := companyName w; isSsoEnabled := isSsoEnabled w;
     globalSettings := globalSettings w; savedUser := savedUser w;
     savedTheme := savedTheme w; verified := verified w; darkClass := darkClass w |}.

Definition setIsSidebarOpen (open : bool) (w : World) : World :=
  {| currentUser := currentUser w; userFor2FA := userFor2FA w;
     userFor2FASetup := userFor2FASetup w; activePage := activePage w;
     isSidebarOpen := open; isDarkMode := isDarkMode w;
     companyName := companyName w; isSsoEnabled := isSsoEnabled w;
     globalSettings := globalSettings w; savedUser := savedUser w;
     savedTheme := savedTheme w; verified := verified w; darkClass := darkClass w |}.

(** The array [pages] that the sidebar receives. *)
Definition pages (w : World) : list Page :=
  ["Dashboard"; "Inventário de Equipamentos"; "Controle de Licenças"]
  ++ match currentUser w with
     | Some user =>
         if bool_decide (role user ∈ [Admin; UserManager])
         then ["Usuários e Permissões"] else []
     | None => []
     end
  ++ match currentUser w with
     | Some user =>
         if bool_decide (role user = Admin) then ["Auditoria"; "Configurações"] else []
     | None => []
     end.

(** The page components, with their props. *)
Inductive PageView :=
| Dashboard (currentUser : User)
| EquipmentList (currentUser : User) (companyName : string)
| LicenseControl (currentUser : User)
| UserManagement (currentUser : User)
| AuditLog
| Settings (currentUser : User).

Definition renderPage (w : World) : option PageView :=
  match currentUser w with
  | None => None
  | Some user =>
      Some (if String.eqb (activePage w) "Dashboard" then Dashboard user
            else if String.eqb (activePage w) "Inventário de Equipamentos"
              then EquipmentList user (companyName w)
            else if String.eqb (activePage w) "Controle de Licenças"
              then LicenseControl user
            else if String.eqb (activePage w) "Usuários e Permissões"
              then UserManagement user
            else if String.eqb (activePage w) "Auditoria" then AuditLog
            else if String.eqb (activePage w) "Configurações" then Settings user
            else Dashboard user)
  end.

(** What [App] returns: one of the three sign-in screens, or the layout
    with sidebar, header and the active page. *)
Inductive Screen :=
| TwoFactorSetup (user : User)
| TwoFactorAuth (user : User)
| Login (isSsoEnabled : bool)
| Layout (activePage : Page) (pages : list Page) (user : User)
    (isDarkMode isSidebarOpen : bool) (content : option PageView).

Definition render (w : World) : Screen :=
  match userFor2FASetup w with
  | Some user => TwoFactorSetup user
  | None =>
      match userFor2FA w with
      | Some user => TwoFactorAuth user
      | None =>
          match currentUser w with
          | None => Login (isSsoEnabled w)
          | Some user =>
              Layout (activePage w) (pages w) user (isDarkMode w) (isSidebarOpen w)
                (renderPage w)
          end
      end
  end.

End App.

(* ===================================================================== *)
(** ** Vocabulary of the statements *)
(* ===================================================================== *)

Import Sql Server.

Local Open Scope list_scope.

(** *** Properties of computations *)

(** [maintains R m]: [R] relates the database before [m] to the one after. *)
Definition maintains {A} (R : DB -> DB -> Prop) (m : Async A) : Prop :=
  forall db, R db (dbAfter m db).

(** [emitsOnly P m]: every event that [m] emits satisfies [P]. *)
Definition emitsOnly {A} (P : Event -> Prop) (m : Async A) : Prop :=
  forall db, Forall P (eventsOf m db).

(** [fulfils m]: [m] never rejects. *)
Definition fulfils (m : Async unit) : Prop :=
  forall db, outcomeOf m db = Fulfilled tt.

(** A statement maintains [R] when every successful execution does. *)
Definition stmtMaintains (R : DB -> DB -> Prop) (s : Stmt) : Prop :=
  forall db db' rs, execStmt s db = inr (db', rs) -> R db db'.

(** *** Tables *)

(** The table that a statement writes, if it writes one. *)
Definition writes (s : Stmt) : option string :=
  match s with
  | CreateTableIfNotExists t _ _ => Some t
  | AlterTableAddColumn t _ _ => Some t
  | AlterTableModifyColumn t _ _ => Some t
  | InsertInto _ t _ _ => Some t
  | SelectFrom _ _ | ShowTablesLike _ | ShowColumnsFrom _ _ => None
  end.

(** [spares t s]: statement [s] does not write table [t]. *)
Definition spares (t : string) (s : Stmt) : bool :=
  bool_decide (writes s ≠ Some t).

(** The SQL of [m] does not write table [t]. *)
Definition sqlSpares (t : string) (m : Migration) : bool := forallb (spares t) (sql m).

(** Table [t] is the same in [db'] as in [db]. *)
Definition sameTable (t : string) (db db' : DB) : Prop := db' !! t = db !! t.

(** The rows of table [t]; none when there is no such table. *)
Definition rowsOf (t : string) (db : DB) : list Row :=
  match db !! t with
  | Some T => rows T
  | None => []
  end.

(** The listed cells of a row. *)
Definition cells (keys : list string) (r : Row) : list (option Value) :=
  map (fun k => row_get k r) keys.

(** Row [r] has cell [v] in column [c]. *)
Definition holds (c : string) (v : Value) (r : Row) : bool :=
  bool_decide (row_get c r = Some v).

(** The table names that SHOW TABLES LIKE [pattern] returns. *)
Definition matchingTables (pattern : string) (db : DB) : list string :=
  filter (fun n => like pattern n = true) (tableNames db).

(** Some table name of [db] matches the pattern [t]. *)
Definition hasMatch (t : string) (db : DB) : Prop :=
  exists n, is_Some (db !! n) /\ like t n = true.

(** A name without the characters that LIKE treats specially. *)
Definition plainChar (ch : ascii) : Prop :=
  ch <> "%"%char /\ ch <> "_"%char /\ ch <> "\"%char.

Definition plain (t : string) : Prop := Forall plainChar (list_ascii_of_string t).

(** *** The bookkeeping table *)

(** The [id] property of every bookkeeping row, as the pass reads it. *)
Definition appliedIds (db : DB) : list (option Value) :=
  map (row_get "id") (rowsOf "migrations" db).

(** Migration [i] is recorded in the bookkeeping table of [db]. *)
Definition recorded (db : DB) (i : Z) : Prop := Some (VInt i) ∈ appliedIds db.

(** The negation of [executedMigrationIds.has]. *)
Definition pending (executed : list (option Value)) (i : Z) : bool :=
  negb (has executed i).

(** The database once [CREATE TABLE IF NOT EXISTS migrations] has run. *)
Definition createBookkeeping (db : DB) : DB :=
  if hasTable db "migrations" then db
  else <["migrations" := {| columns := [column "id" INT [PRIMARY_KEY]]; rows := [] |}]> db.

(** The ids of the array [migrations]. *)
Definition fixedIds : list Z := [1; 2; 3; 4; 5; 6; 7; 8; 9; 10; 11; 12; 13; 14; 15].

(** *** Events *)

(** The ids whose SQL a run started to execute, in order. *)
Definition attemptedIn (evs : list Event) : list Z :=
  omap (fun e => match e with
                 | ConsoleLog (RunningMigration i) => Some i
                 | _ => None
                 end) evs.

(** The ids whose completion a run announced, in order. *)
Definition completedIn (evs : list Event) : list Z :=
  omap (fun e => match e with
                 | ConsoleLog (MigrationCompleted i) => Some i
                 | _ => None
                 end) evs.

(** The event announces the start of a migration. *)
Definition isRunning (e : Event) : Prop :=
  exists i, e = ConsoleLog (RunningMigration i).

(** Events that neither start nor complete a migration. *)
Definition quiet (e : Event) : Prop :=
  match e with
  | ConsoleLog (RunningMigration _) | ConsoleLog (MigrationCompleted _) => False
  | _ => True
  end.

(** Traffic of the repair pass: metadata probes, ALTER statements and the
    auto-repair console lines. *)
Definition repairTraffic (e : Event) : Prop :=
  match e with
  | Sent [ShowTablesLike _] _ | Sent [ShowColumnsFrom _ _] _
  | Sent [AlterTableAddColumn _ _ _] _ | Sent [AlterTableModifyColumn _ _ _] _ => True
  | ConsoleLog (AutoRepairAdding _ _)
  | ConsoleLog AutoRepairEquipmentIdNullable
  | ConsoleLog AutoRepairTimestampDefault
  | ConsoleLog AutoRepairAuditTimestampDefault => True
  | ConsoleError (ErrorCheckingColumn _ _ _)
  | ConsoleError (AutoRepairWarningEquipmentId _)
  | ConsoleError (AutoRepairWarningTimestamp _)
  | ConsoleError (AutoRepairWarningAuditTimestamp _) => True
  | _ => False
  end.

(** Traffic of the loop over [ms]: the console lines of a migration of
    the list, its SQL, and the statement that records its id. *)
Definition migrationTraffic (ms : list Migration) (e : Event) : Prop :=
  match e with
  | ConsoleLog (RunningMigration i) | ConsoleLog (MigrationCompleted i)
  | ConsoleError (MigrationFailed i _) => i ∈ map id ms
  | Sent q _ => q ∈ map sql ms \/ exists i, i ∈ map id ms /\ q = recordMigration i
  | _ => False
  end.

(** The positions, counted from [n], at which [e] occurs in [evs]. *)
Fixpoint positionsFrom (n : nat) (e : Event) (evs : list Event) : list nat :=
  match evs with
  | [] => []
  | x :: xs => (if decide (x = e) then [n] else []) ++ positionsFrom (S n) e xs
  end.

(** [ledger db db' evs]: from [db] to [db'] the bookkeeping table kept its
    columns and its rows, and gained one row per completion in [evs],
    carrying the completed id. *)
Definition ledger (db db' : DB) (evs : list Event) : Prop :=
  forall T, db !! "migrations" = Some T ->
    exists newRows,
      db' !! "migrations" = Some {| columns := columns T; rows := rows T ++ newRows |}
      /\ map (row_get "id") newRows = map (fun i => Some (VInt i)) (completedIn evs).

(** *** Parts of a run *)

(** The arguments of the calls of [checkAndAddColumn] in
    [ensureCriticalSchema], in order. *)
Definition columnRules : list (string * string * ColumnDef) :=
  [ ("licenses", "empresa", def (VARCHAR 255) [NULL]);
    ("licenses", "observacoes", def TEXT []);
    ("licenses", "approval_status", def (VARCHAR 50) [DEFAULT (VStr "approved")]);
    ("licenses", "rejection_reason", def TEXT []);
    ("licenses", "created_by_id", def INT [NULL]);

    ("equipment", "observacoes", def TEXT []);
    ("equipment", "approval_status", def (VARCHAR 50) [DEFAULT (VStr "approved")]);
    ("equipment", "rejection_reason", def TEXT []);
    ("equipment", "created_by_id", def INT [NULL]);
    ("equipment", "emailColaborador", def (VARCHAR 255) []);

    ("equipment", "brand", def (VARCHAR 100) []);
    ("equipment", "model", def (VARCHAR 100) []);
    ("equipment", "identificador", def (VARCHAR 255) []);
    ("equipment", "nomeSO", def (VARCHAR 255) []);
    ("equipment", "memoriaFisicaTotal", def (VARCHAR 100) []);
    ("equipment", "grupoPoliticas", def (VARCHAR 100) []);
    ("equipment", "pais", def (VARCHAR 100) []);
    ("equipment", "cidade", def (VARCHAR 100) []);
    ("equipment", "estadoProvincia", def (VARCHAR 100) []);
    ("equipment", "condicaoTermo",
       def (ENUM ["Assinado - Entrega"; "Assinado - Devolução"; "Pendente"; "N/A"])
           [DEFAULT (VStr "N/A")]);

    ("users", "twoFASecret", def (VARCHAR 255) [NULL]);
    ("users", "is2FAEnabled", def BOOLEAN [DEFAULT (VInt 0)]);
    ("users", "avatarUrl", def MEDIUMTEXT []);

    ("equipment_history", "equipment_id", def INT []) ].

(** The calls of [checkAndAddColumn] in [ensureCriticalSchema]. *)
Definition repairColumns : Async unit :=
  forOf columnRules (fun '(t, c, d) => checkAndAddColumn t c d).

(** What [ensureCriticalSchema] does between its two console lines. *)
Definition repairs : Async unit :=
  repairColumns ;;;
  modifyIfPresent "equipment_history" "equipmentId" (def INT [NULL])
    AutoRepairEquipmentIdNullable AutoRepairWarningEquipmentId ;;;
  modifyIfPresent "equipment_history" "timestamp" (def DATETIME [DEFAULT_CURRENT_TIMESTAMP])
    AutoRepairTimestampDefault AutoRepairWarningTimestamp ;;;
  modifyIfPresent "audit_log" "timestamp" (def DATETIME [DEFAULT_CURRENT_TIMESTAMP])
    AutoRepairAuditTimestampDefault AutoRepairWarningAuditTimestamp.

(** The tables the repairs may alter. *)
Definition repairedTables : list string :=
  ["licenses"; "equipment"; "users"; "equipment_history"; "audit_log"].

(** The [for] loop of [runMigrations]. *)
Definition migrationLoop (executed : list (option Value)) (ms : list Migration)
  : Async unit :=
  forOf ms (applyMigration executed).

(** The events of a startup that has its connection and read the applied
    ids, up to the loop. *)
Definition preamble (db : DB) : list Event :=
  [ConsoleLog CheckingDatabaseMigrations; GetConnection;
   Sent [createMigrationsTable] None;
   Sent [SelectFrom "id" "migrations"] None;
   ConsoleLog RunningCriticalSchemaCheck]
  ++ eventsOf repairs (createBookkeeping db)
  ++ [ConsoleLog CriticalSchemaCheckComplete].

(** The three ways a startup goes: no connection; the read of the applied
    ids rejected; or repairs and loop run to the end. *)
Inductive RunView (c : bool) (ms : list Migration) (db : DB)
  : Outcome unit * DB * list Event -> Prop :=
| Refused :
    c = false ->
    RunView c ms db
      (Fulfilled tt, db,
       [ConsoleLog CheckingDatabaseMigrations;
        ConsoleError (MigrationFailedFatal ECONNREFUSED)])
| Aborted e :
    c = true ->
    execStmt (SelectFrom "id" "migrations") (createBookkeeping db) = inl e ->
    RunView c ms db
      (Fulfilled tt, createBookkeeping db,
       [ConsoleLog CheckingDatabaseMigrations; GetConnection;
        Sent [createMigrationsTable] None;
        Sent [SelectFrom "id" "migrations"] (Some e);
        ConsoleError (MigrationFailedFatal e); Release])
| Migrated rs :
    c = true ->
    execStmt (SelectFrom "id" "migrations") (createBookkeeping db)
      = inr (createBookkeeping db, rs) ->
    RunView c ms db
      (Fulfilled tt,
       dbAfter (migrationLoop (appliedIds db) ms)
         (dbAfter repairs (createBookkeeping db)),
       [ConsoleLog CheckingDatabaseMigrations; GetConnection;
        Sent [createMigrationsTable] None;
        Sent [SelectFrom "id" "migrations"] None;
        ConsoleLog RunningCriticalSchemaCheck]
       ++ eventsOf repairs (createBookkeeping db)
       ++ [ConsoleLog CriticalSchemaCheckComplete]
       ++ eventsOf (migrationLoop (appliedIds db) ms)
            (dbAfter repairs (createBookkeeping db))
       ++ [ConsoleLog MigrationsCheckComplete; Release]).

(** The events of each startup of a sequence, every startup with its own
    connectivity and its own random salt. *)
Fixpoint startups (SALT_ROUNDS : nat) (digest : string -> nat -> string -> string)
    (runs : list (bool * string)) (db : DB) : list (list Event) :=
  match runs with
  | [] => []
  | (c, random) :: rest =>
      eventsOf (runMigrations SALT_ROUNDS digest c random) db
      :: startups SALT_ROUNDS digest rest
           (dbAfter (runMigrations SALT_ROUNDS digest c random) db)
  end.

(** The database that such a sequence leaves. *)
Fixpoint dbAfterStartups (SALT_ROUNDS : nat) (digest : string -> nat -> string -> string)
    (runs : list (bool * string)) (db : DB) : DB :=
  match runs with
  | [] => db
  | (c, random) :: rest =>
      dbAfterStartups SALT_ROUNDS digest rest
        (dbAfter (runMigrations SALT_ROUNDS digest c random) db)
  end.

(** *** Repairs as functions on the database *)

(** The two kinds of repair of [ensureCriticalSchema]. *)
Inductive Repair :=
| AddIfMissing (t c : string) (d : ColumnDef)
| ModifyIfPresent (t c : string) (d : ColumnDef).

(** What a repair does to the database: the database part of
    [checkAndAddColumn] and of [modifyIfPresent]
    (see [dbAfter_checkAndAddColumn], [dbAfter_modifyIfPresent]). *)
Definition applyRepair (r : Repair) (db : DB) : DB :=
  match r with
  | AddIfMissing t c d =>
      if Nat.eqb (length (matchingTables t db)) 0 then db
      else match db !! t with
           | None => db
           | Some T =>
               if bool_decide (c ∈ fields T) then db
               else <[t := addColumn c d T]> db
           end
  | ModifyIfPresent t c d =>
      match db !! t with
      | None => db
      | Some T =>
          if Nat.ltb 0 (length (filter (fun col => like c (Field col) = true) (columns T)))
          then if bool_decide (c ∈ fields T) then <[t := modifyColumn c d T]> db else db
          else db
      end
  end.

(** The repairs of [ensureCriticalSchema], in order. *)
Definition repairList : list Repair :=
  map (fun '(t, c, d) => AddIfMissing t c d) columnRules
  ++ [ModifyIfPresent "equipment_history" "equipmentId" (def INT [NULL]);
      ModifyIfPresent "equipment_history" "timestamp"
        (def DATETIME [DEFAULT_CURRENT_TIMESTAMP]);
      ModifyIfPresent "audit_log" "timestamp"
        (def DATETIME [DEFAULT_CURRENT_TIMESTAMP])].

Definition applyRepairs (rs : list Repair) (db : DB) : DB :=
  fold_left (fun db r => applyRepair r db) rs db.

(** [settled r db]: repair [r] has nothing to do on [db]. *)
Definition settled (r : Repair) (db : DB) : Prop := applyRepair r db = db.

(** [keeps r r']: running [r'] after [r] leaves [r] settled. *)
Definition keeps (r r' : Repair) : bool :=
  match r, r' with
  | AddIfMissing _ _ _, _ => true
  | ModifyIfPresent t c _, ModifyIfPresent t' c' _ =>
      negb (String.eqb t t' && String.eqb c c')
  | ModifyIfPresent _ _ _, AddIfMissing _ _ _ => false
  end.

(** Every repair of the list keeps the repairs before it settled. *)
Fixpoint ordered (rs : list Repair) : bool :=
  match rs with
  | [] => true
  | r :: rs' => forallb (keeps r) rs' && ordered rs'
  end.

(** *** The seeded account *)

(** The row that the seed inserts, for a given auto-increment value and
    password hash: the listed cells, and the defaults of the other
    columns of migration 1. *)
Definition adminRow (n : Z) (passwordHash : string) : Row :=
  [("id", VInt n); ("username", VStr "admin"); ("realName", VStr "Admin");
   ("email", VStr "admin@example.com"); ("password", VStr passwordHash);
   ("role", VStr "Admin"); ("lastLogin", VNull); ("is2FAEnabled", VInt 0);
   ("twoFASecret", VNull); ("ssoProvider", VNull); ("avatarUrl", VNull)].



(** *** Concrete installations *)

(** A stand-in for bcrypt's digest and two salts of 22 characters, for
    the closed examples; the theorems hold for every digest and salt. *)
Definition exampleDigest (s : string) (cost : nat) (salt : string) : string :=
  "0000000000000000000000000000000"%string.

Definition saltA : string := "abcdefghijklmnopqrstuv"%string.

Definition saltB : string := "ABCDEFGHIJKLMNOPQRSTUV"%string.

(** A startup with SALT_ROUNDS at its default of 10. *)
Definition startup (random : string) : Async unit :=
  runMigrations 10 exampleDigest true random.

(** The empty database of a fresh installation. *)
Definition freshDatabase : DB := ∅.

(** An installed database: the fresh one after its first startup. *)
Definition installed : DB := dbAfter (startup saltA) freshDatabase.

(** The SQL of migration 11. *)
Definition avatarSql : Query :=
  [AlterTableAddColumn "users" "avatarUrl" (def MEDIUMTEXT [])].

(** The list of a later build in which the SQL of migration [i] was
    edited to [q]. *)
Definition editSql (i : Z) (q : Query) (ms : list Migration) : list Migration :=
  map (fun m => if Z.eqb (id m) i then {| id := id m; sql := q |} else m) ms.

Definition editedMigrations : list Migration :=
  editSql 1 [CreateTableIfNotExists "users" [column "id" INT [PRIMARY_KEY]] []]
    (migrations 10 exampleDigest saltB).

(** A database without [equipment_history] but with a table whose name
    the pattern [equipment_history] matches: the underscore of the
    pattern stands for any one character. *)
Definition strayDatabase : DB :=
  {[ "equipmentXhistory" :=
       {| columns := [column "id" INT [AUTO_INCREMENT; PRIMARY_KEY]]; rows := [] |} ]}.

(** *** What a repair pass may change *)

(** [T'] is [T] with, possibly, more columns after its own and, in every
    row, more cells after the row's own. *)
Definition extendsTable (T T' : Table) : Prop :=
  fields T `prefix_of` fields T'
  /\ Forall2 (fun r r' : Row => r `prefix_of` r') (rows T) (rows T').

(** [db'] has the tables of [db] and no others, each one extended. *)
Definition extendsDB (db db' : DB) : Prop :=
  forall n, match db !! n with
            | None => db' !! n = None
            | Some T => exists T', db' !! n = Some T' /\ extendsTable T T'
            end.

(** The MODIFY statements of the blocks "Fix 1" to "Fix 3": table, column
    and the definition the column is given. *)
Definition legacyRules : list (string * string * ColumnDef) :=
  [ ("equipment_history", "equipmentId", def INT [NULL]);
    ("equipment_history", "timestamp", def DATETIME [DEFAULT_CURRENT_TIMESTAMP]);
    ("audit_log", "timestamp", def DATETIME [DEFAULT_CURRENT_TIMESTAMP]) ].

(** A database of an older release: the history table still has the
    camel-case column, and neither it nor the timestamp has a default. *)
Definition legacyDatabase : DB :=
  {[ "equipment_history" :=
       {| columns := [column "id" INT [AUTO_INCREMENT; PRIMARY_KEY];
                      column "equipmentId" INT [NOT_NULL];
                      column "timestamp" DATETIME [NOT_NULL]];
          rows := [] |} ]}.

(** The console line of the [catch] of each of these blocks. *)
Definition legacyWarning (t c : string) (err : SqlError) : Message :=
  if String.eqb t "audit_log" then AutoRepairWarningAuditTimestamp err
  else if String.eqb c "equipmentId" then AutoRepairWarningEquipmentId err
  else AutoRepairWarningTimestamp err.

(** The tables that [ensureCriticalSchema] alters with ADD COLUMN only. *)
Definition grownTables : list string := ["licenses"; "equipment"; "users"].

(** The event is a statement sent to the server. *)
Definition isSent (e : Event) : bool :=
  match e with Sent _ _ => true | _ => false end.

(** *** The loop, iteration by iteration *)

(** [Iterates ms db evs db']: going from [db] through the migrations [ms],
    none of them skipped, shows the events [evs] and leaves [db'].  The
    SQL of each migration is executed on the database that the one before
    left.  If it is rejected, the failure is logged.  If it is accepted,
    the insert of the id is executed next; the completion is logged if
    that is accepted too, and the failure if it is not. *)
Inductive Iterates : list Migration -> DB -> list Event -> DB -> Prop :=
| Iterates_end db :
    Iterates [] db [] db
| Iterates_sql_rejected m ms db db1 err evs db' :
    execQuery (sql m) db = (db1, inl err) ->
    Iterates ms db1 evs db' ->
    Iterates (m :: ms) db
      (ConsoleLog (RunningMigration (id m))
       :: Sent (sql m) (Some err)
       :: ConsoleError (MigrationFailed (id m) err) :: evs) db'
| Iterates_record_rejected m ms db db1 rs db2 err evs db' :
    execQuery (sql m) db = (db1, inr rs) ->
    execQuery (recordMigration (id m)) db1 = (db2, inl err) ->
    Iterates ms db2 evs db' ->
    Iterates (m :: ms) db
      (ConsoleLog (RunningMigration (id m))
       :: Sent (sql m) None
       :: Sent (recordMigration (id m)) (Some err)
       :: ConsoleError (MigrationFailed (id m) err) :: evs) db'
| Iterates_recorded m ms db db1 rs db2 rs' evs db' :
    execQuery (sql m) db = (db1, inr rs) ->
    execQuery (recordMigration (id m)) db1 = (db2, inr rs') ->
    Iterates ms db2 evs db' ->
    Iterates (m :: ms) db
      (ConsoleLog (RunningMigration (id m))
       :: Sent (sql m) None
       :: Sent (recordMigration (id m)) None
       :: ConsoleLog (MigrationCompleted (id m)) :: evs) db'.

(** The pattern of a [SHOW TABLES LIKE] probe. *)
Definition tableProbe (e : Event) : option string :=
  match e with
  | Sent [ShowTablesLike t] _ => Some t
  | _ => None
  end.

(** Table and pattern of a [SHOW COLUMNS FROM ... LIKE] probe. *)
Definition columnProbe (e : Event) : option (string * string) :=
  match e with
  | Sent [ShowColumnsFrom t (Some c)] _ => Some (t, c)
  | _ => None
  end.

(** The statements that belong to a call of [checkAndAddColumn] and to a
    block "Fix": the probes and the ALTER. *)
Definition ruleStatements (add : bool) (rule : string * string * ColumnDef) : list Query :=
  let '(t, c, d) := rule in
  if add then [[ShowTablesLike t]; [ShowColumnsFrom t None]; [AlterTableAddColumn t c d]]
  else [[ShowColumnsFrom t (Some c)]; [AlterTableModifyColumn t c d]].

(** Every statement among the events is a statement of a rule. *)
Definition sendsOnlyRules (evs : list Event) : Prop :=
  forall q r, Sent q r ∈ evs ->
    (exists rule, rule ∈ columnRules /\ q ∈ ruleStatements true rule)
    \/ (exists rule, rule ∈ legacyRules /\ q ∈ ruleStatements false rule).

(** The bookkeeping table, where there is one, is as
    [createMigrationsTable] creates it. *)
Definition bookkeepingAsCreated (db : DB) : Prop :=
  forall T, db !! "migrations" = Some T -> columns T = [column "id" INT [PRIMARY_KEY]].

(** A database whose bookkeeping table was created with a second column,
    which takes no NULL and has no default. *)
Definition annotatedBookkeeping : DB :=
  {[ "migrations" :=
       {| columns := [column "id" INT [PRIMARY_KEY];
                      column "note" (VARCHAR 255) [NOT_NULL]];
          rows := [] |} ]}.

(** *** Vocabulary of the login route *)

Module ApiFacts.

Import Sql Server Api.

(** The accounts that [SELECT * FROM users WHERE username = ?] returns. *)
Definition accounts (sqlEq : Value -> Value -> bool) (username : string) (db : DB)
  : list Row :=
  List.filter (matches sqlEq "username" (VStr username)) (rowsOf "users" db).

(** Table [T] with [lastLogin] stamped in the rows whose [id] is [id]. *)
Definition stamped (sqlEq : Value -> Value -> bool) (id : Value) (T : Table) : Table :=
  {| columns := columns T;
     rows := map (fun r => if matches sqlEq "id" id r
                           then setCell "lastLogin" current_timestamp r
                           else r) (rows T) |}.

Section Views.

Variable sqlEq : Value -> Value -> bool.
Variable compareSync : string -> string -> option bool.

(** The ways a login goes once the password has been accepted. *)
Inductive AfterPassword (username : string) (user : Row) (db : DB) : Response * DB -> Prop :=
| SettingsFailed e :
    AfterPassword username user db
      ({| status := 500; body := ErrorJson (QueryError e) |}, db)
| StampFailed e :
    AfterPassword username user db
      ({| status := 500; body := ErrorJson (QueryError e) |}, db)
| AuditFailed U e :
    db !! "users" = Some U ->
    insertInto false "audit_log"
      ["username"; "action_type"; "target_type"; "target_id"; "details"; "timestamp"]
      [VStr username; VStr "LOGIN"; VStr "USER"; bound (row_get "id" user);
       VStr "User logged in"; current_timestamp]
      (<["users" := stamped sqlEq (bound (row_get "id" user)) U]> db) = inl e ->
    AfterPassword username user db
      ({| status := 500; body := ErrorJson (QueryError e) |},
       <["users" := stamped sqlEq (bound (row_get "id" user)) U]> db)
| LoggedIn U db' flag :
    db !! "users" = Some U ->
    insertInto false "audit_log"
      ["username"; "action_type"; "target_type"; "target_id"; "details"; "timestamp"]
      [VStr username; VStr "LOGIN"; VStr "USER"; bound (row_get "id" user);
       VStr "User logged in"; current_timestamp]
      (<["users" := stamped sqlEq (bound (row_get "id" user)) U]> db) = inr (db', []) ->
    AfterPassword username user db
      ({| status := 200;
          body := UserJson (omit ["password"; "twoFASecret"] user) flag |}, db').

(** The ways a login goes, by what the route reads. *)
Inductive LoginView (username password : string) (db : DB) : Response * DB -> Prop :=
| SelectFailed e :
    LoginView username password db
      ({| status := 500; body := ErrorJson (QueryError e) |}, db)
| NotFound :
    accounts sqlEq username db = [] ->
    LoginView username password db
      ({| status := 401; body := MessageJson "Usuário não encontrado" |}, db)
| SsoAccount user rest :
    accounts sqlEq username db = user :: rest ->
    jsTruthy (row_get "ssoProvider" user) = true ->
    LoginView username password db
      ({| status := 401; body := MessageJson "Por favor, use o login via SSO." |}, db)
| NoHash user rest :
    accounts sqlEq username db = user :: rest ->
    jsTruthy (row_get "ssoProvider" user) = false ->
    comparePassword compareSync password (row_get "password" user) db = (inl BcryptError, db) ->
    LoginView username password db
      ({| status := 500; body := ErrorJson BcryptError |}, db)
| WrongPassword user rest hash :
    accounts sqlEq username db = user :: rest ->
    jsTruthy (row_get "ssoProvider" user) = false ->
    row_get "password" user = Some (VStr hash) ->
    compareSync password hash = Some false ->
    LoginView username password db
      ({| status := 401; body := MessageJson "Senha incorreta" |}, db)
| Accepted user rest hash result :
    accounts sqlEq username db = user :: rest ->
    jsTruthy (row_get "ssoProvider" user) = false ->
    row_get "password" user = Some (VStr hash) ->
    compareSync password hash = Some true ->
    AfterPassword username user db result ->
    LoginView username password db result.

End Views.

(** The password check passes: the first account that the query returns
    is no SSO account, stores a string, and [compareSync] accepts the
    password for it. *)
Definition accepted (sqlEq : Value -> Value -> bool)
    (compareSync : string -> string -> option bool)
    (username password : string) (db : DB) : Prop :=
  exists user rest hash,
    accounts sqlEq username db = user :: rest
    /\ jsTruthy (row_get "ssoProvider" user) = false
    /\ row_get "password" user = Some (VStr hash)
    /\ compareSync password hash = Some true.

(** Comparison of cells as they are written. *)
Definition exactEq (a b : Value) : bool := bool_decide (a = b).

(** A stand-in for [bcrypt.compareSync]: the stored value is the password. *)
Definition plainCompare (s hash : string) : option bool := Some (String.eqb s hash).

(** A database with one account and a settings table, but without the
    table [audit_log]. *)
Definition unaudited : DB :=
  {[ "users" :=
       {| columns := Server.usersColumns;
          rows := [adminRow 1 "secret"] |};
     "app_config" := {| columns := Server.appConfigColumns; rows := [] |} ]}.

(** The same database with the table [audit_log] of migration 5. *)
Definition office : DB :=
  <["audit_log" := {| columns := Server.auditLogColumns; rows := [] |}]> unaudited.

End ApiFacts.

(** *** The frontend as a transition system *)

Module AppRun.

Import App.

(** What can happen to a mounted [App]: a child calls one of the
    callbacks it was given, or [getSettings()] settles. *)
Inductive Action :=
| LoginSuccess (user : User)
| VerificationSuccess (user : User)
| SetupSuccess (user : User)
| Logout
| UserUpdate (updatedUser : User)
| ToggleTheme
| SetActivePage (page : Page)
| SetIsSidebarOpen (open : bool)
| SettingsFetched (result : option AppSettings).

Definition handle (a : Action) (w : World) : World :=
  match a with
  | LoginSuccess user => handleLoginSuccess user w
  | VerificationSuccess user => handle2FAVerificationSuccess user w
  | SetupSuccess user => handle2FASetupSuccess user w
  | Logout => handleLogout w
  | UserUpdate updatedUser => handleUserUpdate updatedUser w
  | ToggleTheme => toggleTheme w
  | SetActivePage page => setActivePage page w
  | SetIsSidebarOpen open => setIsSidebarOpen open w
  | SettingsFetched result => fetchSettings result w
  end.

(** The state after an action, once the effects of the render that
    follows it have run. *)
Definition step (a : Action) (w : World) : World := enforceTwoFactor (handle a w).

(** The state after loading the page in a browser whose storages hold
    what [w] left there, once the effects of the first render have run. *)
Definition mount (htmlDark : bool) (w : World) : World :=
  enforceTwoFactor (restoreSession (initial htmlDark w)).

Definition run (actions : list Action) (w : World) : World :=
  fold_left (fun w a => step a w) actions w.

(** The end of the browser session: [sessionStorage] is emptied. *)
Definition endSession (w : World) : World :=
  {| currentUser := currentUser w; userFor2FA := userFor2FA w;
     userFor2FASetup := userFor2FASetup w; activePage := activePage w;
     isSidebarOpen := isSidebarOpen w; isDarkMode := isDarkMode w;
     companyName := companyName w; isSsoEnabled := isSsoEnabled w;
     globalSettings := globalSettings w; savedUser := savedUser w;
     savedTheme := savedTheme w; verified := None; darkClass := darkClass w |}.

(** The settings in force require a second factor. *)
Definition requires2FA (w : World) : bool := default false (require2fa (globalSettings w)).

(** The user that the layout is rendered for, if the layout is rendered. *)
Definition shownUser (w : World) : option User :=
  match render w with
  | Layout _ _ user _ _ _ => Some user
  | _ => None
  end.

(** [user] once the setup of the second factor has succeeded. *)
Definition withSecondFactor (user : User) : User :=
  {| role := role user; is2FAEnabled := true;
     requires2FASetup := requires2FASetup user; others := others user |}.

(** A browser that has never run the application. *)
Definition blank : World :=
  {| currentUser := None; userFor2FA := None; userFor2FASetup := None;
     activePage := "Dashboard"; isSidebarOpen := false; isDarkMode := false;
     companyName := "MRR INFORMATICA"; isSsoEnabled := false;
     globalSettings := {| settingsCompanyName := None; settingsIsSsoEnabled := None;
                          require2fa := None |};
     savedUser := None; savedTheme := None; verified := None; darkClass := false |}.

(** A user with a second factor. *)
Definition alice : User :=
  {| role := OtherRole; is2FAEnabled := true; requires2FASetup := false; others := [] |}.

(** A user without a second factor. *)
Definition bob : User :=
  {| role := Admin; is2FAEnabled := false; requires2FASetup := false; others := [] |}.

End AppRun.

(* ===================================================================== *)
(** ** Reasoning about async functions *)
(* ===================================================================== *)

Section AsyncFacts.

Context {A B : Type}.

Lemma andThen_fulfilled (m : Async A) (k : A -> Async B) db a db1 ev1 :
  m db = (Fulfilled a, db1, ev1) ->
  andThen m k db = ((k a db1).1.1, (k a db1).1.2, ev1 ++ (k a db1).2).
Proof.
  intros Hm. unfold andThen. rewrite Hm.
  destruct (k a db1) as [[o db2] ev2]. reflexivity.
Qed.

Lemma andThen_rejected (m : Async A) (k : A -> Async B) db e db1 ev1 :
  m db = (Rejected e, db1, ev1) ->
  andThen m k db = (Rejected e, db1, ev1).
Proof. intros Hm. unfold andThen. rewrite Hm. reflexivity. Qed.

Lemma tryCatch_fulfilled (m : Async A) h db a db1 ev1 :
  m db = (Fulfilled a, db1, ev1) -> tryCatch m h db = (Fulfilled a, db1, ev1).
Proof. intros Hm. unfold tryCatch. rewrite Hm. reflexivity. Qed.

Lemma tryCatch_rejected (m : Async A) h db e db1 ev1 :
  m db = (Rejected e, db1, ev1) ->
  tryCatch m h db = ((h e db1).1.1, (h e db1).1.2, ev1 ++ (h e db1).2).
Proof.
  intros Hm. unfold tryCatch. rewrite Hm.
  destruct (h e db1) as [[o db2] ev2]. reflexivity.
Qed.

End AsyncFacts.

Section Maintains.

Variable R : DB -> DB -> Prop.
Hypothesis R_refl : forall db, R db db.
Hypothesis R_trans : forall a b c, R a b -> R b c -> R a c.

Lemma maintains_resolve {A} (a : A) : maintains R (resolve a).
Proof. intros db. apply R_refl. Qed.

Lemma maintains_emit e : maintains R (emit e).
Proof. intros db. apply R_refl. Qed.

Lemma maintains_andThen {A B} (m : Async A) (k : A -> Async B) :
  maintains R m -> (forall a, maintains R (k a)) -> maintains R (andThen m k).
Proof.
  intros Hm Hk db. unfold dbAfter, andThen.
  specialize (Hm db). unfold dbAfter in Hm.
  destruct (m db) as [[[a|e] db1] ev1]; simpl in *; [|exact Hm].
  specialize (Hk a db1). unfold dbAfter in Hk.
  destruct (k a db1) as [[o db2] ev2]; simpl in *. eauto.
Qed.

Lemma maintains_tryCatch {A} (m : Async A) h :
  maintains R m -> (forall e, maintains R (h e)) -> maintains R (tryCatch m h).
Proof.
  intros Hm Hh db. unfold dbAfter, tryCatch.
  specialize (Hm db). unfold dbAfter in Hm.
  destruct (m db) as [[[a|e] db1] ev1]; simpl in *; [exact Hm|].
  specialize (Hh e db1). unfold dbAfter in Hh.
  destruct (h e db1) as [[o db2] ev2]; simpl in *. eauto.
Qed.

Lemma maintains_forOf {A} (xs : list A) body :
  (forall x, x ∈ xs -> maintains R (body x)) -> maintains R (forOf xs body).
Proof.
  induction xs as [|x xs IH]; intros Hb; simpl.
  - apply maintains_resolve.
  - apply maintains_andThen.
    + apply Hb. left.
    + intros _. apply IH. intros y Hy. apply Hb. right. exact Hy.
Qed.

Lemma execQuery_maintains q :
  Forall (stmtMaintains R) q -> forall db, R db (execQuery q db).1.
Proof.
  induction q as [|s q IH]; intros Hq db; simpl.
  - apply R_refl.
  - inversion Hq as [|? ? Hs Hq']; subst.
    destruct (execStmt s db) as [e|[db' rs]] eqn:Es; simpl.
    + apply R_refl.
    + specialize (IH Hq' db').
      destruct (execQuery q db') as [db'' r]; simpl in *.
      eapply R_trans; [eapply Hs; exact Es | exact IH].
Qed.

Lemma maintains_query q : Forall (stmtMaintains R) q -> maintains R (query q).
Proof.
  intros Hq db. unfold dbAfter, query.
  pose proof (execQuery_maintains q Hq db) as H.
  destruct (execQuery q db) as [db' [e|rss]]; simpl in *; exact H.
Qed.

Lemma maintains_query1 s : stmtMaintains R s -> maintains R (query1 s).
Proof.
  intros Hs. unfold query1. apply maintains_andThen.
  - apply maintains_query. constructor; [exact Hs | constructor].
  - intros a. apply maintains_resolve.
Qed.

End Maintains.

(* ===================================================================== *)
(** ** What one repair and one loop iteration do *)
(* ===================================================================== *)

Lemma filter_matchesLike_None (cols : list Column) :
  filter (fun col => matchesLike None col = true) cols = cols.
Proof.
  induction cols as [|col cols IH]; [reflexivity|].
  rewrite filter_cons_True by reflexivity. f_equal. exact IH.
Qed.

Lemma includes_describe (cols : list Column) (c : string) :
  includes (map (row_get "Field") (map describe cols)) c
  = bool_decide (c ∈ map Field cols).
Proof.
  unfold includes. apply bool_decide_ext.
  rewrite map_map. simpl. split.
  - intros H. apply list_elem_of_fmap in H as [col [Heq Hin]].
    injection Heq as ->. apply list_elem_of_fmap. eauto.
  - intros H. apply list_elem_of_fmap in H as [col [-> Hin]].
    apply list_elem_of_fmap. eauto.
Qed.

(** The whole of [checkAndAddColumn], case by case. *)
Lemma checkAndAddColumn_run t c d db :
  checkAndAddColumn t c d db =
  if Nat.eqb (length (matchingTables t db)) 0 then
    (Fulfilled tt, db, [Sent [ShowTablesLike t] None])
  else
    match db !! t with
    | None =>
        (Fulfilled tt, db,
         [Sent [ShowTablesLike t] None;
          Sent [ShowColumnsFrom t None] (Some (ER_NO_SUCH_TABLE t));
          ConsoleError (ErrorCheckingColumn c t (ER_NO_SUCH_TABLE t))])
    | Some T =>
        if bool_decide (c ∈ fields T) then
          (Fulfilled tt, db,
           [Sent [ShowTablesLike t] None; Sent [ShowColumnsFrom t None] None])
        else
          (Fulfilled tt, <[t := addColumn c d T]> db,
           [Sent [ShowTablesLike t] None; Sent [ShowColumnsFrom t None] None;
            ConsoleLog (AutoRepairAdding c t);
            Sent [AlterTableAddColumn t c d] None])
    end.
Proof.
  unfold checkAndAddColumn, tryCatch, query1, andThen, query, resolve.
  cbn [execQuery execStmt hd]. rewrite List.length_map. fold (matchingTables t db).
  destruct (Nat.eqb (length (matchingTables t db)) 0); [reflexivity|].
  destruct (db !! t) as [T|] eqn:Et; [|reflexivity].
  cbn [hd]. rewrite filter_matchesLike_None, includes_describe.
  fold (fields T).
  destruct (bool_decide (c ∈ fields T)) eqn:Ec; cbn [negb].
  - reflexivity.
  - unfold console_log, emit. cbn [execQuery execStmt].
    rewrite Et, Ec. reflexivity.
Qed.

(** The whole of one "Fix" block. *)
Lemma modifyIfPresent_run t c d announce warning db :
  modifyIfPresent t c d announce warning db =
  match db !! t with
  | None =>
      (Fulfilled tt, db,
       [Sent [ShowColumnsFrom t (Some c)] (Some (ER_NO_SUCH_TABLE t));
        ConsoleError (warning (ER_NO_SUCH_TABLE t))])
  | Some T =>
      if Nat.ltb 0 (length (filter (fun col => like c (Field col) = true) (columns T)))
      then
        if bool_decide (c ∈ fields T) then
          (Fulfilled tt, <[t := modifyColumn c d T]> db,
           [Sent [ShowColumnsFrom t (Some c)] None; ConsoleLog announce;
            Sent [AlterTableModifyColumn t c d] None])
        else
          (Fulfilled tt, db,
           [Sent [ShowColumnsFrom t (Some c)] None; ConsoleLog announce;
            Sent [AlterTableModifyColumn t c d] (Some (ER_BAD_FIELD_ERROR c));
            ConsoleError (warning (ER_BAD_FIELD_ERROR c))])
      else (Fulfilled tt, db, [Sent [ShowColumnsFrom t (Some c)] None])
  end.
Proof.
  unfold modifyIfPresent, tryCatch, query1, andThen, query, resolve.
  cbn [execQuery execStmt].
  destruct (db !! t) as [T|] eqn:Et; [|reflexivity].
  cbn [hd matchesLike]. rewrite List.length_map.
  destruct (Nat.ltb 0 _); [|reflexivity].
  unfold console_log, emit. cbn [execQuery execStmt]. rewrite Et.
  destruct (bool_decide (c ∈ fields T)); reflexivity.
Qed.

(** The whole of one iteration of the migration loop. *)
Lemma applyMigration_run executed m db :
  applyMigration executed m db =
  if has executed (id m) then (Fulfilled tt, db, [])
  else
    match execQuery (sql m) db with
    | (db1, inl e) =>
        (Fulfilled tt, db1,
         [ConsoleLog (RunningMigration (id m)); Sent (sql m) (Some e);
          ConsoleError (MigrationFailed (id m) e)])
    | (db1, inr _) =>
        match execQuery (recordMigration (id m)) db1 with
        | (db2, inl e) =>
            (Fulfilled tt, db2,
             [ConsoleLog (RunningMigration (id m)); Sent (sql m) None;
              Sent (recordMigration (id m)) (Some e);
              ConsoleError (MigrationFailed (id m) e)])
        | (db2, inr _) =>
            (Fulfilled tt, db2,
             [ConsoleLog (RunningMigration (id m)); Sent (sql m) None;
              Sent (recordMigration (id m)) None;
              ConsoleLog (MigrationCompleted (id m))])
        end
    end.
Proof.
  unfold applyMigration.
  destruct (has executed (id m)); cbn [negb]; [reflexivity|].
  unfold tryCatch, andThen, query, console_log, console_error, emit.
  destruct (execQuery (sql m) db) as [db1 [e|r1]]; [reflexivity|].
  destruct (execQuery (recordMigration (id m)) db1) as [db2 [e|r2]]; reflexivity.
Qed.

(* ===================================================================== *)
(** ** Which table a statement writes *)
(* ===================================================================== *)

Lemma insertInto_frame ignore t' cols vals db db' rs t :
  t' ≠ t -> insertInto ignore t' cols vals db = inr (db', rs) -> db' !! t = db !! t.
Proof.
  intros Hne. unfold insertInto.
  destruct (db !! t') as [T|]; [|discriminate].
  destruct (negb _); [discriminate|].
  destruct (find _ cols); [discriminate|].
  destruct (buildRow _ _ _ _) as [e|row]; [discriminate|].
  destruct (find (conflicts T row) _).
  - destruct ignore; [|discriminate]. intros [= <- _]. reflexivity.
  - intros [= <- _]. apply lookup_insert_ne. exact Hne.
Qed.

Lemma execStmt_frame t s db db' rs :
  spares t s = true -> execStmt s db = inr (db', rs) -> sameTable t db db'.
Proof.
  unfold spares, sameTable. intros Hs%bool_decide_eq_true.
  destruct s as [t' cols refs|c t'|p|t' p|t' c d|t' c d|ig t' cols vals]; simpl in *.
  - assert (t' ≠ t) by congruence.
    destruct (hasTable db t'); [intros [= <- _]; reflexivity|].
    destruct (find _ refs); [discriminate|].
    intros [= <- _]. apply lookup_insert_ne. assumption.
  - destruct (db !! t'); [|discriminate].
    destruct (bool_decide _); [|discriminate]. intros [= <- _]. reflexivity.
  - intros [= <- _]. reflexivity.
  - destruct (db !! t'); [|discriminate]. intros [= <- _]. reflexivity.
  - assert (t' ≠ t) by congruence.
    destruct (db !! t'); [|discriminate].
    destruct (bool_decide _); [discriminate|].
    intros [= <- _]. apply lookup_insert_ne. assumption.
  - assert (t' ≠ t) by congruence.
    destruct (db !! t'); [|discriminate].
    destruct (bool_decide _); [|discriminate].
    intros [= <- _]. apply lookup_insert_ne. assumption.
  - assert (t' ≠ t) by congruence. eapply insertInto_frame; eassumption.
Qed.

Lemma sameTable_refl t db : sameTable t db db.
Proof. reflexivity. Qed.

Lemma sameTable_trans t a b c : sameTable t a b -> sameTable t b c -> sameTable t a c.
Proof. unfold sameTable. congruence. Qed.

Lemma execQuery_frame t q db :
  forallb (spares t) q = true -> sameTable t db (execQuery q db).1.
Proof.
  intros Hq. apply execQuery_maintains.
  - apply sameTable_refl.
  - apply sameTable_trans.
  - apply Forall_forall. intros s Hs db0 db1 rs Hex.
    eapply execStmt_frame; [|exact Hex].
    rewrite forallb_forall in Hq. apply Hq. apply list_elem_of_In. exact Hs.
Qed.

(** A failing single statement leaves the database as it was. *)
Lemma execQuery_single_error s db db' e :
  execQuery [s] db = (db', inl e) -> db' = db.
Proof.
  simpl. destruct (execStmt s db) as [e'|[db1 rs]]; intros [= <- _]; reflexivity.
Qed.

(** *** The bookkeeping table *)

Lemma buildRow_given_cell ignore T (i : Z) cols row :
  "id" ∈ map Field cols ->
  buildRow ignore T [("id", VInt i)] cols = inr row ->
  row_get "id" row = Some (VInt i).
Proof.
  revert row. induction cols as [|col cols IH]; intros row Hin Hb.
  - inversion Hin.
  - cbn [buildRow] in Hb.
    destruct (cellFor ignore T [("id", VInt i)] col) as [e|v] eqn:Ec; [discriminate|].
    destruct (buildRow ignore T [("id", VInt i)] cols) as [e|r] eqn:Er; [discriminate|].
    injection Hb as <-. cbn [row_get].
    destruct (String.eqb "id" (Field col)) eqn:Eid.
    + unfold cellFor in Ec. cbn [row_get] in Ec.
      apply String.eqb_eq in Eid. rewrite <- Eid in Ec.
      rewrite String.eqb_refl in Ec. injection Ec as <-. reflexivity.
    + apply IH; [|reflexivity].
      cbn [map] in Hin. apply elem_of_cons in Hin as [Heq|Hin]; [|exact Hin].
      apply String.eqb_neq in Eid. congruence.
Qed.

(** Recording an id either appends one row that carries it and keeps the
    columns, or fails and changes nothing. *)
Lemma recordMigration_run (i : Z) db :
  match execQuery (recordMigration i) db with
  | (db', inr _) =>
      exists T row, db !! "migrations" = Some T /\
        db' = <["migrations" := appendRow row T]> db /\
        row_get "id" row = Some (VInt i)
  | (db', inl _) => db' = db
  end.
Proof.
  unfold recordMigration. cbn [execQuery execStmt]. unfold insertInto.
  destruct (db !! "migrations") as [T|] eqn:ET; [|reflexivity].
  cbn [length Nat.eqb negb find].
  destruct (bool_decide ("id" ∈ fields T)) eqn:Eid; cbn [negb]; [|reflexivity].
  cbn [combine].
  destruct (buildRow false T [("id", VInt i)] (columns T)) as [e|row] eqn:Eb;
    [reflexivity|].
  destruct (find (conflicts T row) (columns T)); [reflexivity|].
  exists T, row. split; [reflexivity|]. split; [reflexivity|].
  eapply buildRow_given_cell; [|exact Eb].
  apply bool_decide_eq_true in Eid. exact Eid.
Qed.

(* ===================================================================== *)
(** ** Computations that always fulfil *)
(* ===================================================================== *)

Lemma fulfils_run m db :
  fulfils m -> m db = (Fulfilled tt, dbAfter m db, eventsOf m db).
Proof.
  intros H. specialize (H db). unfold outcomeOf, dbAfter, eventsOf in *.
  destruct (m db) as [[o d] ev]. simpl in *. subst. reflexivity.
Qed.

Lemma fulfils_resolve : fulfils (resolve tt).
Proof. intros db. reflexivity. Qed.

Lemma fulfils_emit e : fulfils (emit e).
Proof. intros db. reflexivity. Qed.

Lemma seq_run (m k : Async unit) db :
  fulfils m ->
  (m ;;; k) db =
  (outcomeOf k (dbAfter m db), dbAfter k (dbAfter m db),
   eventsOf m db ++ eventsOf k (dbAfter m db)).
Proof.
  intros Hm. unfold andThen. rewrite (fulfils_run m db Hm).
  unfold outcomeOf, dbAfter, eventsOf.
  destruct (k _) as [[o d] ev]. reflexivity.
Qed.

Lemma fulfils_seq (m k : Async unit) : fulfils m -> fulfils k -> fulfils (m ;;; k).
Proof.
  intros Hm Hk db. unfold outcomeOf. rewrite seq_run by exact Hm. apply Hk.
Qed.

Lemma dbAfter_seq (m k : Async unit) db :
  fulfils m -> dbAfter (m ;;; k) db = dbAfter k (dbAfter m db).
Proof. intros Hm. unfold dbAfter at 1. rewrite seq_run by exact Hm. reflexivity. Qed.

Lemma eventsOf_seq (m k : Async unit) db :
  fulfils m ->
  eventsOf (m ;;; k) db = eventsOf m db ++ eventsOf k (dbAfter m db).
Proof. intros Hm. unfold eventsOf at 1. rewrite seq_run by exact Hm. reflexivity. Qed.

Lemma outcomeOf_seq (m k : Async unit) db :
  fulfils m -> outcomeOf (m ;;; k) db = outcomeOf k (dbAfter m db).
Proof. intros Hm. unfold outcomeOf at 1. rewrite seq_run by exact Hm. reflexivity. Qed.

Lemma fulfils_forOf {A} (xs : list A) body :
  (forall x, fulfils (body x)) -> fulfils (forOf xs body).
Proof.
  intros Hb. induction xs as [|x xs IH]; simpl.
  - apply fulfils_resolve.
  - apply fulfils_seq; [apply Hb | exact IH].
Qed.

Lemma fulfils_checkAndAddColumn t c d : fulfils (checkAndAddColumn t c d).
Proof.
  intros db. unfold outcomeOf. rewrite checkAndAddColumn_run.
  destruct (Nat.eqb _ 0); [reflexivity|].
  destruct (db !! t); [|reflexivity].
  destruct (bool_decide _); reflexivity.
Qed.

Lemma fulfils_modifyIfPresent t c d a w : fulfils (modifyIfPresent t c d a w).
Proof.
  intros db. unfold outcomeOf. rewrite modifyIfPresent_run.
  destruct (db !! t); [|reflexivity].
  destruct (Nat.ltb 0 _); [|reflexivity].
  destruct (bool_decide _); reflexivity.
Qed.

Lemma fulfils_applyMigration ex m : fulfils (applyMigration ex m).
Proof.
  intros db. unfold outcomeOf. rewrite applyMigration_run.
  destruct (has ex (id m)); [reflexivity|].
  destruct (execQuery (sql m) db) as [db1 [e|r1]]; [reflexivity|].
  destruct (execQuery _ db1) as [db2 [e|r2]]; reflexivity.
Qed.

Lemma fulfils_repairColumns : fulfils repairColumns.
Proof. apply fulfils_forOf. intros [[t c] d]. apply fulfils_checkAndAddColumn. Qed.

Lemma fulfils_ensureCriticalSchema : fulfils ensureCriticalSchema.
Proof.
  unfold ensureCriticalSchema, console_log.
  repeat first
    [ apply fulfils_emit
    | apply fulfils_modifyIfPresent
    | apply fulfils_checkAndAddColumn
    | apply fulfils_seq ].
Qed.

Lemma fulfils_migrationLoop ex ms : fulfils (migrationLoop ex ms).
Proof. apply fulfils_forOf. apply fulfils_applyMigration. Qed.

Lemma migrationLoop_cons ex m ms db :
  dbAfter (migrationLoop ex (m :: ms)) db
  = dbAfter (migrationLoop ex ms) (dbAfter (applyMigration ex m) db)
  /\ eventsOf (migrationLoop ex (m :: ms)) db
     = eventsOf (applyMigration ex m) db
       ++ eventsOf (migrationLoop ex ms) (dbAfter (applyMigration ex m) db).
Proof.
  unfold migrationLoop. cbn [forOf]. split.
  - apply dbAfter_seq, fulfils_applyMigration.
  - apply eventsOf_seq, fulfils_applyMigration.
Qed.

(** *** The shape of a whole run *)

Lemma appliedIds_createBookkeeping db :
  appliedIds (createBookkeeping db) = appliedIds db.
Proof.
  unfold createBookkeeping, hasTable, appliedIds, rowsOf.
  destruct (db !! "migrations") eqn:E; [rewrite E; reflexivity|].
  rewrite lookup_insert_eq. reflexivity.
Qed.

Lemma row_get_project c r : row_get c (project c r) = row_get c r.
Proof.
  unfold project. destruct (row_get c r) eqn:E; [|reflexivity].
  cbn [row_get]. rewrite String.eqb_refl. reflexivity.
Qed.

Lemma query1_ok s db db' rs :
  execStmt s db = inr (db', rs) ->
  query1 s db = (Fulfilled rs, db', [Sent [s] None]).
Proof.
  intros H. unfold query1, andThen, query. cbn [execQuery]. rewrite H. reflexivity.
Qed.

Lemma query1_error s db e :
  execStmt s db = inl e ->
  query1 s db = (Rejected e, db, [Sent [s] (Some e)]).
Proof.
  intros H. unfold query1, andThen, query. cbn [execQuery]. rewrite H. reflexivity.
Qed.

Lemma execStmt_createMigrationsTable db :
  execStmt createMigrationsTable db = inr (createBookkeeping db, []).
Proof.
  unfold createMigrationsTable, createBookkeeping. cbn [execStmt find].
  destruct (hasTable db "migrations"); reflexivity.
Qed.

Lemma select_applied db0 rs db' :
  execStmt (SelectFrom "id" "migrations") db0 = inr (db', rs) ->
  db' = db0 /\ map (row_get "id") rs = appliedIds db0.
Proof.
  cbn [execStmt]. unfold appliedIds, rowsOf.
  destruct (db0 !! "migrations") as [T|]; [|discriminate].
  destruct (bool_decide _); [|discriminate].
  intros [= <- <-]. split; [reflexivity|].
  rewrite map_map. apply map_ext. intros r. apply row_get_project.
Qed.

(** The statements and events of [migrate], in order. *)
Lemma migrate_run ms db :
  let db0 := createBookkeeping db in
  let create := Sent [createMigrationsTable] None in
  let select := Sent [SelectFrom "id" "migrations"] in
  migrate ms db =
  match execStmt (SelectFrom "id" "migrations") db0 with
  | inl e => (Rejected e, db0, [create; select (Some e)])
  | inr _ =>
      let db1 := dbAfter ensureCriticalSchema db0 in
      let loop := migrationLoop (appliedIds db) ms in
      (Fulfilled tt, dbAfter loop db1,
       [create; select None] ++ eventsOf ensureCriticalSchema db0
       ++ eventsOf loop db1 ++ [ConsoleLog MigrationsCheckComplete])
  end.
Proof.
  cbv zeta. unfold migrate.
  rewrite (andThen_fulfilled _ _ _ _ _ _
             (query1_ok _ _ _ _ (execStmt_createMigrationsTable db))).
  destruct (execStmt (SelectFrom "id" "migrations") (createBookkeeping db))
    as [e|[db0 rs]] eqn:Es.
  - rewrite (andThen_rejected _ _ _ _ _ _ (query1_error _ _ _ Es)). reflexivity.
  - rewrite (andThen_fulfilled _ _ _ _ _ _ (query1_ok _ _ _ _ Es)).
    apply select_applied in Es as [-> ->].
    rewrite appliedIds_createBookkeeping.
    fold (migrationLoop (appliedIds db) ms). cbv beta zeta.
    rewrite (seq_run ensureCriticalSchema) by apply fulfils_ensureCriticalSchema.
    rewrite outcomeOf_seq, dbAfter_seq, eventsOf_seq by apply fulfils_migrationLoop.
    reflexivity.
Qed.

Lemma withConnection_run body db :
  withConnection true body db =
  match body db with
  | (Fulfilled _, db1, ev) =>
      (Fulfilled tt, db1,
       [ConsoleLog CheckingDatabaseMigrations; GetConnection] ++ ev ++ [Release])
  | (Rejected e, db1, ev) =>
      (Fulfilled tt, db1,
       [ConsoleLog CheckingDatabaseMigrations; GetConnection] ++ ev
       ++ [ConsoleError (MigrationFailedFatal e); Release])
  end.
Proof.
  unfold withConnection, tryCatchFinally, getConnection, andThen, tryCatch,
    console_log, console_error, emit.
  destruct (body db) as [[[[]|e] db1] ev]; cbn; rewrite <- ?app_assoc; reflexivity.
Qed.

Lemma withConnection_refused body db :
  withConnection false body db =
  (Fulfilled tt, db,
   [ConsoleLog CheckingDatabaseMigrations;
    ConsoleError (MigrationFailedFatal ECONNREFUSED)]).
Proof. reflexivity. Qed.

Lemma fulfils_withConnection c body : fulfils (withConnection c body).
Proof.
  intros db. unfold outcomeOf. destruct c.
  - rewrite withConnection_run. destruct (body db) as [[[[]|e] db1] ev]; reflexivity.
  - reflexivity.
Qed.

(* ===================================================================== *)
(** ** Properties of every emitted event *)
(* ===================================================================== *)

Section EmitsOnly.

Variable P : Event -> Prop.

Lemma emitsOnly_resolve {A} (a : A) : emitsOnly P (resolve a).
Proof. intros db. constructor. Qed.

Lemma emitsOnly_emit e : P e -> emitsOnly P (emit e).
Proof. intros He db. repeat constructor. exact He. Qed.

Lemma emitsOnly_andThen {A B} (m : Async A) (k : A -> Async B) :
  emitsOnly P m -> (forall a, emitsOnly P (k a)) -> emitsOnly P (andThen m k).
Proof.
  intros Hm Hk db. unfold eventsOf, andThen.
  specialize (Hm db). unfold eventsOf in Hm.
  destruct (m db) as [[[a|e] db1] ev1]; simpl in *; [|exact Hm].
  specialize (Hk a db1). unfold eventsOf in Hk.
  destruct (k a db1) as [[o db2] ev2]; simpl in *.
  apply Forall_app. split; assumption.
Qed.

Lemma emitsOnly_tryCatch {A} (m : Async A) h :
  emitsOnly P m -> (forall e, emitsOnly P (h e)) -> emitsOnly P (tryCatch m h).
Proof.
  intros Hm Hh db. unfold eventsOf, tryCatch.
  specialize (Hm db). unfold eventsOf in Hm.
  destruct (m db) as [[[a|e] db1] ev1]; simpl in *; [exact Hm|].
  specialize (Hh e db1). unfold eventsOf in Hh.
  destruct (h e db1) as [[o db2] ev2]; simpl in *.
  apply Forall_app. split; assumption.
Qed.

Lemma emitsOnly_forOf {A} (xs : list A) body :
  (forall x, x ∈ xs -> emitsOnly P (body x)) -> emitsOnly P (forOf xs body).
Proof.
  induction xs as [|x xs IH]; intros Hb; simpl.
  - apply emitsOnly_resolve.
  - apply emitsOnly_andThen.
    + apply Hb. left.
    + intros _. apply IH. intros y Hy. apply Hb. right. exact Hy.
Qed.

Lemma emitsOnly_query q : (forall r, P (Sent q r)) -> emitsOnly P (query q).
Proof.
  intros H db. unfold eventsOf, query.
  destruct (execQuery q db) as [db' [e|rss]]; repeat constructor; apply H.
Qed.

Lemma emitsOnly_query1 s : (forall r, P (Sent [s] r)) -> emitsOnly P (query1 s).
Proof.
  intros H. unfold query1. apply emitsOnly_andThen.
  - apply emitsOnly_query. exact H.
  - intros a. apply emitsOnly_resolve.
Qed.

End EmitsOnly.

Lemma checkAndAddColumn_traffic t c d :
  emitsOnly repairTraffic (checkAndAddColumn t c d).
Proof.
  intros db. unfold eventsOf. rewrite checkAndAddColumn_run.
  destruct (Nat.eqb _ 0); [repeat constructor|].
  destruct (db !! t); [|repeat constructor].
  destruct (bool_decide _); repeat constructor.
Qed.

Lemma modifyIfPresent_traffic t c d a w :
  repairTraffic (ConsoleLog a) -> (forall e, repairTraffic (ConsoleError (w e))) ->
  emitsOnly repairTraffic (modifyIfPresent t c d a w).
Proof.
  intros Ha Hw db. unfold eventsOf. rewrite modifyIfPresent_run.
  destruct (db !! t); [|repeat constructor; apply Hw].
  destruct (Nat.ltb 0 _); [|repeat constructor].
  destruct (bool_decide _); repeat constructor; auto.
Qed.

Lemma fulfils_repairs : fulfils repairs.
Proof.
  unfold repairs.
  repeat first
    [ apply fulfils_modifyIfPresent | apply fulfils_repairColumns | apply fulfils_seq ].
Qed.

Lemma repairs_traffic : emitsOnly repairTraffic repairs.
Proof.
  unfold repairs, repairColumns.
  repeat first
    [ apply modifyIfPresent_traffic; [exact I | intros; exact I]
    | apply emitsOnly_forOf; intros [[t c] d] _; apply checkAndAddColumn_traffic
    | apply emitsOnly_andThen; [|intros _] ].
Qed.

Ltac solve_fulfils :=
  unfold console_log, console_error;
  repeat first
    [ apply fulfils_emit
    | apply fulfils_resolve
    | apply fulfils_modifyIfPresent
    | apply fulfils_checkAndAddColumn
    | apply fulfils_repairColumns
    | apply fulfils_applyMigration
    | apply fulfils_migrationLoop
    | apply fulfils_seq ].

Lemma seq_ext (m k k' : Async unit) db :
  (forall db', k db' = k' db') -> (m ;;; k) db = (m ;;; k') db.
Proof.
  intros H. unfold andThen. destruct (m db) as [[[v|e] d] ev]; [|reflexivity].
  rewrite H. reflexivity.
Qed.

Lemma seq_assoc (a b c : Async unit) db :
  ((a ;;; b) ;;; c) db = (a ;;; (b ;;; c)) db.
Proof.
  unfold andThen. destruct (a db) as [[[v|e] d] ev]; [|reflexivity].
  destruct (b d) as [[[v'|e'] d'] ev']; [|reflexivity].
  destruct (c d') as [[o d''] ev'']. rewrite app_assoc. reflexivity.
Qed.

(** A loop followed by [k] is the chain of its calls ending in [k]. *)
Lemma forOf_seq {A} (xs : list A) body (k : Async unit) db :
  (forOf xs body ;;; k) db = foldr (fun x rest => body x ;;; rest) k xs db.
Proof.
  revert db. induction xs as [|x xs IH]; intros db; cbn [forOf foldr].
  - unfold andThen, resolve. destruct (k db) as [[o d] ev]. reflexivity.
  - rewrite seq_assoc. apply seq_ext. exact IH.
Qed.

(** The calls of [ensureCriticalSchema] are those of [repairs] between the
    two console lines. *)
Lemma ensureCriticalSchema_seq db :
  ensureCriticalSchema db =
  (console_log RunningCriticalSchemaCheck ;;; repairs ;;;
   console_log CriticalSchemaCheckComplete) db.
Proof.
  unfold ensureCriticalSchema. apply seq_ext. clear db. intros db.
  unfold repairs. rewrite seq_assoc. unfold repairColumns. rewrite forOf_seq.
  unfold columnRules. cbn [foldr].
  do 24 (apply seq_ext; clear db; intros db).
  rewrite seq_assoc. apply seq_ext. clear db. intros db.
  rewrite seq_assoc. reflexivity.
Qed.

Lemma ensureCriticalSchema_run db :
  ensureCriticalSchema db =
  (Fulfilled tt, dbAfter repairs db,
   [ConsoleLog RunningCriticalSchemaCheck] ++ eventsOf repairs db
   ++ [ConsoleLog CriticalSchemaCheckComplete]).
Proof.
  assert (Hr : fulfils repairs).
  { unfold repairs. solve_fulfils. }
  rewrite ensureCriticalSchema_seq.
  rewrite seq_run by apply fulfils_emit.
  rewrite outcomeOf_seq, dbAfter_seq, eventsOf_seq by exact Hr.
  reflexivity.
Qed.

(* ===================================================================== *)
(** ** The migration loop *)
(* ===================================================================== *)

Lemma attemptedIn_app a b : attemptedIn (a ++ b) = attemptedIn a ++ attemptedIn b.
Proof. apply omap_app. Qed.

Lemma completedIn_app a b : completedIn (a ++ b) = completedIn a ++ completedIn b.
Proof. apply omap_app. Qed.

(** The loop starts the SQL of exactly the migrations that are not
    recorded, in the order of the list. *)
Lemma migrationLoop_attempted ex ms db :
  attemptedIn (eventsOf (migrationLoop ex ms) db)
  = List.filter (pending ex) (map id ms).
Proof.
  revert db. induction ms as [|m ms IH]; intros db; [reflexivity|].
  destruct (migrationLoop_cons ex m ms db) as [_ ->].
  rewrite attemptedIn_app, IH. cbn [map List.filter]. unfold pending at 2.
  unfold eventsOf. rewrite applyMigration_run.
  destruct (has ex (id m)); [reflexivity|].
  destruct (execQuery (sql m) db) as [db1 [e|r1]]; [reflexivity|].
  destruct (execQuery _ db1) as [db2 [e|r2]]; reflexivity.
Qed.

Lemma migrationTraffic_weaken m ms e :
  migrationTraffic ms e -> migrationTraffic (m :: ms) e.
Proof.
  destruct e as [| |q r|[]|[]]; cbn; try tauto; try (intros; right; assumption).
  intros [H|[i [Hi ->]]]; [left; right; exact H|].
  right. exists i. split; [right; exact Hi | reflexivity].
Qed.

Lemma applyMigration_traffic ex m ms db :
  Forall (migrationTraffic (m :: ms)) (eventsOf (applyMigration ex m) db).
Proof.
  assert (id m ∈ map id (m :: ms)) as Hid by left.
  assert (sql m ∈ map sql (m :: ms)) as Hsql by left.
  unfold eventsOf. rewrite applyMigration_run.
  destruct (has ex (id m)); [constructor|].
  assert (forall r, migrationTraffic (m :: ms) (Sent (recordMigration (id m)) r))
    as Hrec by (intros r; right; eauto).
  destruct (execQuery (sql m) db) as [db1 [e|r1]];
    [|destruct (execQuery _ db1) as [db2 [e|r2]]];
    repeat apply List.Forall_cons; try apply List.Forall_nil;
    first [exact Hid | apply Hrec | left; exact Hsql].
Qed.

Lemma migrationLoop_traffic ex ms db :
  Forall (migrationTraffic ms) (eventsOf (migrationLoop ex ms) db).
Proof.
  revert db. induction ms as [|m ms IH]; intros db; [constructor|].
  destruct (migrationLoop_cons ex m ms db) as [_ ->].
  apply Forall_app. split; [apply applyMigration_traffic|].
  eapply Forall_impl; [apply IH|]. intros e. apply migrationTraffic_weaken.
Qed.

Lemma migrations_ids SALT_ROUNDS digest random :
  map id (migrations SALT_ROUNDS digest random) = fixedIds.
Proof. reflexivity. Qed.

(* ===================================================================== *)
(** ** A fresh installation *)
(* ===================================================================== *)

(** C1 on the code: one startup on the empty database records fourteen
    of the fifteen migrations.  Migration 1 creates [users] with the column
    [avatarUrl], so the ALTER of migration 11, which adds that column,
    is rejected as a duplicate; the failure is logged and 11 stays
    unrecorded.  The seeds are as the claim says: one administrative
    account, whose password is the hash built in this run, and among the
    configuration rows [companyName] and [isSsoEnabled]. *)
Theorem fresh_install_misses_migration_11 SALT_ROUNDS digest random :
  let run := runMigrations SALT_ROUNDS digest true random in
  let db := dbAfter run freshDatabase in
  appliedIds db
  = map (fun i => Some (VInt i)) [1; 2; 3; 4; 5; 6; 7; 8; 9; 10; 12; 13; 14; 15]
  /\ ~ recorded db 11
  /\ ConsoleError (MigrationFailed 11 (ER_DUP_FIELDNAME "avatarUrl"))
       ∈ eventsOf run freshDatabase
  /\ map (cells ["username"; "email"; "password"; "role"]) (rowsOf "users" db)
     = [[Some (VStr "admin"); Some (VStr "admin@example.com");
         Some (VStr (Bcrypt.hashSync digest "marceloadmin" SALT_ROUNDS random));
         Some (VStr "Admin")]]
  /\ map (cells ["config_key"; "config_value"]) (rowsOf "app_config" db)
     = [[Some (VStr "companyName"); Some (VStr "MRR INFORMATICA")];
        [Some (VStr "isSsoEnabled"); Some (VStr "false")];
        [Some (VStr "termo_entrega_template"); Some VNull];
        [Some (VStr "termo_devolucao_template"); Some VNull];
        [Some (VStr "is2faEnabled"); Some (VStr "false")]].
Proof.
  cbv zeta.
  assert (appliedIds (dbAfter (runMigrations SALT_ROUNDS digest true random) freshDatabase)
          = map (fun i => Some (VInt i)) [1; 2; 3; 4; 5; 6; 7; 8; 9; 10; 12; 13; 14; 15])
    as Hids by (vm_compute; reflexivity).
  split; [exact Hids|]. split; [|split; [|split]].
  - unfold recorded. rewrite Hids. intros H%list_elem_of_In.
    cbn in H. intuition discriminate.
  - apply list_elem_of_In. vm_compute. tauto.
  - vm_compute. reflexivity.
  - vm_compute. reflexivity.
Qed.

(* ===================================================================== *)
(** ** Recorded migrations *)
(* ===================================================================== *)

Lemma recorded_has db i : recorded db i <-> has (appliedIds db) i = true.
Proof. unfold recorded, has. symmetry. apply bool_decide_eq_true. Qed.

Lemma applyMigration_skip ex m db :
  has ex (id m) = true -> applyMigration ex m db = (Fulfilled tt, db, []).
Proof. intros H. rewrite applyMigration_run, H. reflexivity. Qed.

Lemma migrationLoop_run_cons ex m ms db :
  migrationLoop ex (m :: ms) db =
  (Fulfilled tt,
   dbAfter (migrationLoop ex ms) (dbAfter (applyMigration ex m) db),
   eventsOf (applyMigration ex m) db
   ++ eventsOf (migrationLoop ex ms) (dbAfter (applyMigration ex m) db)).
Proof.
  rewrite (fulfils_run _ _ (fulfils_migrationLoop ex (m :: ms))).
  destruct (migrationLoop_cons ex m ms db) as [-> ->]. reflexivity.
Qed.

(** Migrations that agree on the ids, and on the SQL wherever the id is
    not in the set that was read, run alike. *)
Lemma migrationLoop_edit ex ms ms' :
  Forall2 (fun m m' => id m = id m' /\ (has ex (id m) = true \/ sql m = sql m')) ms ms' ->
  forall db, migrationLoop ex ms db = migrationLoop ex ms' db.
Proof.
  induction 1 as [|m m' ms ms' [Hid Hm] _ IH]; intros db; [reflexivity|].
  rewrite !migrationLoop_run_cons.
  assert (applyMigration ex m db = applyMigration ex m' db) as Hstep.
  { destruct Hm as [Hrec|Hsql].
    - rewrite !applyMigration_skip by congruence. reflexivity.
    - rewrite !applyMigration_run, Hid, Hsql. reflexivity. }
  unfold dbAfter, eventsOf. rewrite Hstep, !IH. reflexivity.
Qed.

(** Leaving the recorded migrations out of the list changes nothing. *)
Lemma migrationLoop_filter ex ms db :
  migrationLoop ex ms db
  = migrationLoop ex (List.filter (fun m => pending ex (id m)) ms) db.
Proof.
  revert db. induction ms as [|m ms IH]; intros db; [reflexivity|].
  cbn [List.filter]. unfold pending at 1.
  destruct (has ex (id m)) eqn:Hm; cbn [negb].
  - rewrite migrationLoop_run_cons. unfold dbAfter, eventsOf.
    rewrite applyMigration_skip by exact Hm. cbn [fst snd app].
    rewrite <- IH. symmetry. apply fulfils_run, fulfils_migrationLoop.
  - rewrite !migrationLoop_run_cons. unfold dbAfter, eventsOf.
    rewrite <- !IH. reflexivity.
Qed.

Lemma migrate_same_loop ms ms' db :
  (forall db1, migrationLoop (appliedIds db) ms db1
               = migrationLoop (appliedIds db) ms' db1) ->
  migrate ms db = migrate ms' db.
Proof.
  intros H. rewrite !migrate_run. cbv zeta.
  destruct (execStmt _ _) as [e|[db0 rs]]; [reflexivity|].
  unfold dbAfter, eventsOf. rewrite !H. reflexivity.
Qed.

Lemma withConnection_same c body body' db :
  body db = body' db -> withConnection c body db = withConnection c body' db.
Proof.
  intros H. destruct c; [|reflexivity]. rewrite !withConnection_run, H. reflexivity.
Qed.

(** C2: for a migration whose id is recorded when the run starts, the
    loop iteration does nothing in any state (no statement, no console
    line); the run is the run over the list without the recorded
    migrations; and a list that differs from [ms] only in the SQL of
    recorded ids gives the same outcome, database and events. *)
Theorem recorded_migrations_are_skipped (connectable : bool) (db : DB)
    (ms ms' : list Migration) :
  Forall2 (fun m m' => id m = id m' /\ (recorded db (id m) \/ sql m = sql m')) ms ms' ->
  let run l := withConnection connectable (migrate l) db in
  (forall m db1, m ∈ ms -> recorded db (id m) ->
     applyMigration (appliedIds db) m db1 = (Fulfilled tt, db1, []))
  /\ run ms = run (List.filter (fun m => pending (appliedIds db) (id m)) ms)
  /\ run ms' = run ms.
Proof.
  intros Hedit. cbv zeta. split; [|split].
  - intros m db1 _ Hrec. apply applyMigration_skip, recorded_has, Hrec.
  - apply withConnection_same, migrate_same_loop. intros db1.
    apply migrationLoop_filter.
  - apply withConnection_same, migrate_same_loop. intros db1. symmetry.
    apply migrationLoop_edit.
    eapply Forall2_impl; [exact Hedit|].
    intros m m' [Hid [Hrec|Hsql]]; (split; [exact Hid|]).
    + left. apply recorded_has, Hrec.
    + right. exact Hsql.
Qed.

Lemma recorded_migrations_are_skipped_witness :
  let ms := migrations 10 exampleDigest saltB in
  let run l := withConnection true (migrate l) installed in
  Forall2 (fun m m' => id m = id m' /\ (recorded installed (id m) \/ sql m = sql m'))
    ms editedMigrations
  /\ run editedMigrations = run ms.
Proof.
  cbv zeta.
  assert (Forall2 (fun m m' => id m = id m' /\
                     (recorded installed (id m) \/ sql m = sql m'))
            (migrations 10 exampleDigest saltB) editedMigrations) as H.
  { repeat (apply List.Forall2_cons;
            [split; [reflexivity|];
             first [right; reflexivity
                   | left; apply list_elem_of_In; vm_compute; tauto] |]).
    apply List.Forall2_nil. }
  split; [exact H|].
  apply (recorded_migrations_are_skipped true installed _ _ H).
Defined.

(* ===================================================================== *)
(** ** The bookkeeping table across a run *)
(* ===================================================================== *)

Lemma fixed_list_spares_bookkeeping SALT_ROUNDS digest random :
  forallb (sqlSpares "migrations") (migrations SALT_ROUNDS digest random) = true.
Proof. reflexivity. Qed.

Lemma ledger_same db db' evs :
  sameTable "migrations" db db' -> completedIn evs = [] -> ledger db db' evs.
Proof.
  intros Hsame Hnone T HT. exists []. rewrite Hnone. split; [|reflexivity].
  rewrite Hsame, HT, app_nil_r. destruct T; reflexivity.
Qed.

Lemma ledger_trans a b c ev1 ev2 :
  ledger a b ev1 -> ledger b c ev2 -> ledger a c (ev1 ++ ev2).
Proof.
  intros H1 H2 T HT.
  destruct (H1 T HT) as (n1 & Hb & Hn1).
  destruct (H2 _ Hb) as (n2 & Hc & Hn2). cbn [columns rows] in Hc.
  exists (n1 ++ n2). rewrite app_assoc. split; [exact Hc|].
  rewrite completedIn_app, !map_app, Hn1, Hn2. reflexivity.
Qed.

Lemma applyMigration_ledger ex m db :
  sqlSpares "migrations" m = true ->
  ledger db (dbAfter (applyMigration ex m) db) (eventsOf (applyMigration ex m) db).
Proof.
  intros Hm. unfold dbAfter, eventsOf. rewrite applyMigration_run.
  destruct (has ex (id m)).
  { apply ledger_same; reflexivity. }
  pose proof (execQuery_frame "migrations" (sql m) db Hm) as Hframe.
  destruct (execQuery (sql m) db) as [db1 [e|r1]]; cbn [fst snd] in *.
  { apply ledger_same; [exact Hframe | reflexivity]. }
  pose proof (recordMigration_run (id m) db1) as Hrec.
  destruct (execQuery (recordMigration (id m)) db1) as [db2 [e|r2]]; cbn [fst snd].
  { subst db2. apply ledger_same; [exact Hframe | reflexivity]. }
  destruct Hrec as (T1 & row & HT1 & -> & Hrow).
  intros T HT. exists [row]. split.
  - rewrite lookup_insert_eq. unfold sameTable in Hframe.
    rewrite Hframe, HT in HT1. injection HT1 as <-. reflexivity.
  - cbn. rewrite Hrow. reflexivity.
Qed.

Lemma migrationLoop_ledger ex ms db :
  forallb (sqlSpares "migrations") ms = true ->
  ledger db (dbAfter (migrationLoop ex ms) db) (eventsOf (migrationLoop ex ms) db).
Proof.
  revert db. induction ms as [|m ms IH]; intros db Hms.
  - apply ledger_same; reflexivity.
  - cbn [forallb] in Hms. apply andb_prop in Hms as [Hm Hms].
    destruct (migrationLoop_cons ex m ms db) as [-> ->].
    eapply ledger_trans; [apply applyMigration_ledger; exact Hm | apply IH; exact Hms].
Qed.

(** *** The repairs leave the bookkeeping table alone *)

Lemma checkAndAddColumn_frame t0 t c d :
  t ≠ t0 -> maintains (sameTable t0) (checkAndAddColumn t c d).
Proof.
  intros Hne db. unfold dbAfter, sameTable. rewrite checkAndAddColumn_run.
  destruct (Nat.eqb _ 0); [reflexivity|].
  destruct (db !! t); [|reflexivity].
  destruct (bool_decide _); [reflexivity|].
  apply lookup_insert_ne. exact Hne.
Qed.

Lemma modifyIfPresent_frame t0 t c d a w :
  t ≠ t0 -> maintains (sameTable t0) (modifyIfPresent t c d a w).
Proof.
  intros Hne db. unfold dbAfter, sameTable. rewrite modifyIfPresent_run.
  destruct (db !! t); [|reflexivity].
  destruct (Nat.ltb 0 _); [|reflexivity].
  destruct (bool_decide _); [|reflexivity].
  apply lookup_insert_ne. exact Hne.
Qed.

Lemma columnRules_tables :
  Forall (fun '(t, _, _) => t ∈ repairedTables) columnRules.
Proof.
  repeat (apply List.Forall_cons;
          [apply list_elem_of_In; cbn; tauto|]).
  apply List.Forall_nil.
Qed.

Lemma repairs_frame t0 : t0 ∉ repairedTables -> maintains (sameTable t0) repairs.
Proof.
  intros Hout.
  assert (forall t, t ∈ repairedTables -> t ≠ t0) as Hne by (intros t Ht ->; auto).
  assert (forall t c d a w, t ∈ repairedTables ->
            maintains (sameTable t0) (modifyIfPresent t c d a w)) as Hmod
    by (intros; apply modifyIfPresent_frame; auto).
  unfold repairs, repairColumns.
  apply maintains_andThen; [apply sameTable_trans | | intros _].
  { apply maintains_forOf; [apply sameTable_refl | apply sameTable_trans |].
    intros [[t c] d] Hin. apply checkAndAddColumn_frame, Hne.
    pose proof columnRules_tables as H. rewrite List.Forall_forall in H.
    apply (H (t, c, d)). apply list_elem_of_In. exact Hin. }
  repeat (apply maintains_andThen; [apply sameTable_trans | | intros _]);
    apply Hmod; apply list_elem_of_In; cbn; tauto.
Qed.

Lemma repairTraffic_quiet evs :
  Forall repairTraffic evs -> attemptedIn evs = [] /\ completedIn evs = [].
Proof.
  induction 1 as [|e evs He _ [IHa IHc]]; [split; reflexivity|].
  destruct e as [| |q r|[]|[]]; cbn in He; try contradiction;
    split; first [exact IHa | exact IHc].
Qed.

Lemma dbAfter_ensureCriticalSchema db :
  dbAfter ensureCriticalSchema db = dbAfter repairs db.
Proof. unfold dbAfter at 1. rewrite ensureCriticalSchema_run. reflexivity. Qed.

Lemma eventsOf_ensureCriticalSchema db :
  eventsOf ensureCriticalSchema db
  = [ConsoleLog RunningCriticalSchemaCheck] ++ eventsOf repairs db
    ++ [ConsoleLog CriticalSchemaCheckComplete].
Proof. unfold eventsOf at 1. rewrite ensureCriticalSchema_run. reflexivity. Qed.

(** *** The three ways a startup goes *)

Lemma run_view c ms db : RunView c ms db (withConnection c (migrate ms) db).
Proof.
  destruct c.
  2:{ rewrite withConnection_refused. apply Refused. reflexivity. }
  rewrite withConnection_run, migrate_run. cbv zeta.
  destruct (execStmt (SelectFrom "id" "migrations") (createBookkeeping db))
    as [e|[db0 rs]] eqn:Es.
  - apply Aborted; [reflexivity | exact Es].
  - pose proof (select_applied _ _ _ Es) as [-> _].
    rewrite !dbAfter_ensureCriticalSchema, eventsOf_ensureCriticalSchema.
    cbn [app]. rewrite <- !app_assoc.
    eapply (Migrated true ms db rs); [reflexivity | exact Es].
Qed.

Lemma createBookkeeping_lookup db :
  exists T0, createBookkeeping db !! "migrations" = Some T0
             /\ rows T0 = rowsOf "migrations" db
             /\ (forall T, db !! "migrations" = Some T -> T0 = T).
Proof.
  unfold createBookkeeping, hasTable, rowsOf.
  destruct (db !! "migrations") as [T|] eqn:ET.
  - exists T. rewrite ET. repeat split. intros T' [= ->]. reflexivity.
  - eexists. rewrite lookup_insert_eq. repeat split. intros T' [=].
Qed.

(** What a run does to the bookkeeping table: the rows that were there
    stay as they are, one row is appended per completion, carrying the
    completed id, and the columns of an existing table are kept. *)
Lemma run_ledger c ms db :
  forallb (sqlSpares "migrations") ms = true ->
  let run := withConnection c (migrate ms) in
  exists newRows,
    rowsOf "migrations" (dbAfter run db) = rowsOf "migrations" db ++ newRows
    /\ map (row_get "id") newRows
       = map (fun i => Some (VInt i)) (completedIn (eventsOf run db))
    /\ (forall T, db !! "migrations" = Some T ->
          exists T', dbAfter run db !! "migrations" = Some T'
                     /\ columns T' = columns T).
Proof.
  intros Hms. cbv zeta. unfold dbAfter, eventsOf.
  destruct (createBookkeeping_lookup db) as (T0 & HT0 & Hrows & Hsame).
  destruct (run_view c ms db) as [_|e _ _|rs _ _]; cbn [fst snd].
  - exists []. rewrite app_nil_r. repeat split. eauto.
  - exists []. rewrite app_nil_r. unfold rowsOf at 1. rewrite HT0.
    repeat split; [exact Hrows|].
    intros T HT. exists T0. split; [reflexivity|]. rewrite (Hsame T HT). reflexivity.
  - pose proof (repairs_frame "migrations") as Hrep.
    specialize (Hrep ltac:(intros H%list_elem_of_In; cbn in H; intuition discriminate)
                     (createBookkeeping db)).
    unfold sameTable in Hrep. rewrite HT0 in Hrep.
    destruct (migrationLoop_ledger (appliedIds db) ms _ Hms T0 Hrep)
      as (newRows & Hafter & Hids).
    exists newRows. unfold rowsOf at 1. rewrite Hafter. cbn [rows].
    rewrite Hrows. split; [reflexivity|]. split.
    + rewrite Hids. rewrite !completedIn_app.
      rewrite (proj2 (repairTraffic_quiet _ (repairs_traffic _))).
      change (completedIn [ConsoleLog CriticalSchemaCheckComplete]) with (@nil Z).
      change (completedIn [ConsoleLog MigrationsCheckComplete; Release]) with (@nil Z).
      cbn [app]. rewrite app_nil_r. reflexivity.
    + intros T HT. eexists. split; [reflexivity|].
      cbn [columns]. rewrite (Hsame T HT). reflexivity.
Qed.

(** C10: a startup keeps every bookkeeping row as it is and in place, only
    appending rows: the ids read from the table after the run are the ids
    read before it followed by the ids of the migrations that completed in
    the run, so every recorded id stays recorded. *)
Theorem applied_ids_only_grow SALT_ROUNDS digest (connectable : bool) random db :
  let run := runMigrations SALT_ROUNDS digest connectable random in
  let db' := dbAfter run db in
  rowsOf "migrations" db `prefix_of` rowsOf "migrations" db'
  /\ appliedIds db'
     = appliedIds db ++ map (fun i => Some (VInt i)) (completedIn (eventsOf run db))
  /\ (forall i, recorded db i -> recorded db' i).
Proof.
  cbv zeta. unfold runMigrations.
  destruct (run_ledger connectable _ db
              (fixed_list_spares_bookkeeping SALT_ROUNDS digest random))
    as (newRows & Hrows & Hids & _).
  assert (appliedIds (dbAfter (withConnection connectable
                                 (migrate (migrations SALT_ROUNDS digest random))) db)
          = appliedIds db ++ map (fun i => Some (VInt i))
              (completedIn (eventsOf (withConnection connectable
                 (migrate (migrations SALT_ROUNDS digest random))) db))) as Happ.
  { unfold appliedIds. rewrite Hrows, map_app, Hids. reflexivity. }
  split; [|split].
  - rewrite Hrows. exists newRows. reflexivity.
  - exact Happ.
  - intros i Hi. unfold recorded in *. rewrite Happ.
    apply elem_of_app. left. exact Hi.
Qed.

(* ===================================================================== *)
(** ** Locating a migration in the events of a run *)
(* ===================================================================== *)

Lemma peel_event x l before i rest :
  ~ isRunning x ->
  x :: l = before ++ ConsoleLog (RunningMigration i) :: rest ->
  exists before', before = x :: before'
                  /\ l = before' ++ ConsoleLog (RunningMigration i) :: rest.
Proof.
  intros Hx H. destruct before as [|y before']; cbn in H.
  - injection H as -> _. exfalso. apply Hx. eexists. reflexivity.
  - injection H as -> ->. eauto.
Qed.

Lemma peel_events pre l before i rest :
  Forall (fun x => ~ isRunning x) pre ->
  pre ++ l = before ++ ConsoleLog (RunningMigration i) :: rest ->
  exists before', before = pre ++ before'
                  /\ l = before' ++ ConsoleLog (RunningMigration i) :: rest.
Proof.
  intros Hpre. revert before.
  induction Hpre as [|x pre Hx _ IH]; intros before H; cbn in *.
  - eauto.
  - apply peel_event in H as (b1 & -> & H); [|exact Hx].
    apply IH in H as (b2 & -> & H). eauto.
Qed.

Lemma no_running_in pre before i rest :
  Forall (fun x => ~ isRunning x) pre ->
  pre <> before ++ ConsoleLog (RunningMigration i) :: rest.
Proof.
  intros Hpre H. rewrite <- (app_nil_r pre) in H.
  apply peel_events in H as (b & _ & H); [|exact Hpre].
  destruct b; discriminate.
Qed.

Lemma repairTraffic_not_running evs :
  Forall repairTraffic evs -> Forall (fun x => ~ isRunning x) evs.
Proof.
  intros H. eapply Forall_impl; [exact H|]. intros e He [i ->]. exact He.
Qed.

Ltac not_running :=
  repeat apply List.Forall_cons; try apply List.Forall_nil;
  intros [? [=]].


(** A migration of the list whose id is not in the set read is started,
    and its SQL is sent next. *)
Lemma migrationLoop_attempts ex ms m : forall db,
  m ∈ ms -> has ex (id m) = false ->
  exists b r a,
    eventsOf (migrationLoop ex ms) db
    = b ++ ConsoleLog (RunningMigration (id m)) :: Sent (sql m) r :: a.
Proof.
  induction ms as [|m0 ms IH]; intros db Hin Hpend; [inversion Hin|].
  destruct (migrationLoop_cons ex m0 ms db) as [_ ->].
  apply elem_of_cons in Hin as [<-|Hin].
  - unfold eventsOf at 1. rewrite applyMigration_run, Hpend.
    destruct (execQuery (sql m) db) as [db1 [e1|r1]].
    + exists [], (Some e1). eexists. reflexivity.
    + destruct (execQuery _ db1) as [db2 [e2|r2]];
        exists [], None; eexists; reflexivity.
  - destruct (IH (dbAfter (applyMigration ex m0) db) Hin Hpend) as (b & r & a & ->).
    exists (eventsOf (applyMigration ex m0) db ++ b), r, a.
    rewrite <- app_assoc. reflexivity.
Qed.

Lemma migrationLoop_completed_ids ex ms db i :
  i ∈ completedIn (eventsOf (migrationLoop ex ms) db) -> i ∈ map id ms.
Proof.
  intros Hi. unfold completedIn in Hi.
  apply list_elem_of_omap in Hi as (ev & Hev & Hsome).
  pose proof (migrationLoop_traffic ex ms db) as Htr.
  rewrite List.Forall_forall in Htr.
  apply list_elem_of_In, Htr in Hev.
  destruct ev as [| |? ?|[]|[]]; try discriminate.
  injection Hsome as ->. exact Hev.
Qed.

Lemma fixedIds_NoDup : NoDup fixedIds.
Proof. apply NoDup_ListNoDup. repeat constructor; cbn; intuition discriminate. Qed.

(** After the applied ids were read, the repairs and the loop keep the
    bookkeeping table in place, with its columns. *)
Lemma migrated_table ex ms db0 T0 :
  forallb (sqlSpares "migrations") ms = true ->
  db0 !! "migrations" = Some T0 ->
  exists T', dbAfter (migrationLoop ex ms) (dbAfter repairs db0) !! "migrations" = Some T'
             /\ columns T' = columns T0.
Proof.
  intros Hms HT0.
  pose proof (repairs_frame "migrations") as Hrep.
  specialize (Hrep ltac:(intros H%list_elem_of_In; cbn in H; intuition discriminate) db0).
  unfold sameTable in Hrep. rewrite HT0 in Hrep.
  destruct (migrationLoop_ledger ex ms _ Hms T0 Hrep) as (newRows & Hafter & _).
  eexists. split; [exact Hafter | reflexivity].
Qed.

Lemma select_succeeds db0 T0 :
  db0 !! "migrations" = Some T0 -> "id" ∈ fields T0 ->
  exists rs, execStmt (SelectFrom "id" "migrations") db0 = inr (db0, rs).
Proof.
  intros HT0 Hid. cbn [execStmt]. rewrite HT0.
  rewrite bool_decide_eq_true_2 by exact Hid. eauto.
Qed.



Lemma preamble_not_running db : Forall (fun x => ~ isRunning x) (preamble db).
Proof.
  unfold preamble. apply Forall_app. split; [not_running|].
  apply Forall_app. split; [|not_running].
  apply repairTraffic_not_running, repairs_traffic.
Qed.

Lemma preamble_quiet db :
  attemptedIn (preamble db) = [] /\ completedIn (preamble db) = [].
Proof.
  unfold preamble. rewrite !attemptedIn_app, !completedIn_app.
  destruct (repairTraffic_quiet _ (repairs_traffic (createBookkeeping db))) as [-> ->].
  split; reflexivity.
Qed.

(** A startup in which some migration was started went all the way. *)
Lemma started_run_view c ms db before i rest :
  eventsOf (withConnection c (migrate ms)) db
  = before ++ ConsoleLog (RunningMigration i) :: rest ->
  let loop := migrationLoop (appliedIds db) ms in
  let db1 := dbAfter repairs (createBookkeeping db) in
  (exists rs, execStmt (SelectFrom "id" "migrations") (createBookkeeping db)
              = inr (createBookkeeping db, rs))
  /\ dbAfter (withConnection c (migrate ms)) db = dbAfter loop db1
  /\ eventsOf (withConnection c (migrate ms)) db
     = preamble db ++ eventsOf loop db1 ++ [ConsoleLog MigrationsCheckComplete; Release]
  /\ exists before',
       before = preamble db ++ before'
       /\ eventsOf loop db1 ++ [ConsoleLog MigrationsCheckComplete; Release]
          = before' ++ ConsoleLog (RunningMigration i) :: rest.
Proof.
  cbv zeta. unfold eventsOf at 1 2, dbAfter at 1.
  destruct (run_view c ms db) as [_|e _ _|rs _ Es]; cbn [fst snd]; intros H.
  - exfalso. revert H. apply no_running_in. not_running.
  - exfalso. revert H. apply no_running_in. not_running.
  - split; [eauto|]. split; [reflexivity|].
    assert (forall tl : list Event,
              [ConsoleLog CheckingDatabaseMigrations; GetConnection;
               Sent [createMigrationsTable] None;
               Sent [SelectFrom "id" "migrations"] None;
               ConsoleLog RunningCriticalSchemaCheck]
              ++ eventsOf repairs (createBookkeeping db)
              ++ [ConsoleLog CriticalSchemaCheckComplete] ++ tl
              = preamble db ++ tl) as Hpre.
    { intros tl. unfold preamble. rewrite <- !app_assoc. reflexivity. }
    rewrite Hpre in H |- *. split; [reflexivity|].
    apply peel_events in H; [exact H | apply preamble_not_running].
Qed.

Lemma run_appliedIds c ms db :
  forallb (sqlSpares "migrations") ms = true ->
  appliedIds (dbAfter (withConnection c (migrate ms)) db)
  = appliedIds db
    ++ map (fun i => Some (VInt i))
         (completedIn (eventsOf (withConnection c (migrate ms)) db)).
Proof.
  intros Hms. destruct (run_ledger c ms db Hms) as (newRows & Hrows & Hids & _).
  unfold appliedIds. rewrite Hrows, map_app, Hids. reflexivity.
Qed.

Lemma recorded_after_run c ms db i :
  forallb (sqlSpares "migrations") ms = true ->
  recorded (dbAfter (withConnection c (migrate ms)) db) i
  <-> recorded db i \/ i ∈ completedIn (eventsOf (withConnection c (migrate ms)) db).
Proof.
  intros Hms. unfold recorded. rewrite run_appliedIds by exact Hms.
  rewrite elem_of_app. apply or_iff_compat_l. split.
  - intros H. apply list_elem_of_fmap in H as (j & [= ->] & Hj). exact Hj.
  - intros H. apply list_elem_of_fmap. eauto.
Qed.

Lemma run_migrated ms db rs :
  execStmt (SelectFrom "id" "migrations") (createBookkeeping db)
  = inr (createBookkeeping db, rs) ->
  withConnection true (migrate ms) db
  = (Fulfilled tt,
     dbAfter (migrationLoop (appliedIds db) ms) (dbAfter repairs (createBookkeeping db)),
     preamble db
     ++ eventsOf (migrationLoop (appliedIds db) ms)
          (dbAfter repairs (createBookkeeping db))
     ++ [ConsoleLog MigrationsCheckComplete; Release]).
Proof.
  intros Es. destruct (run_view true ms db) as [Hc|e _ Ee|rs' _ _].
  - discriminate.
  - congruence.
  - unfold preamble. rewrite <- !app_assoc. reflexivity.
Qed.

Lemma wrap_adjacent (pre b : list Event) x y a post :
  pre ++ (b ++ x :: y :: a) ++ post = (pre ++ b) ++ x :: y :: (a ++ post).
Proof. rewrite <- !app_assoc. reflexivity. Qed.


(* ===================================================================== *)
(** ** The order of a startup *)
(* ===================================================================== *)

Lemma lookup_positionsFrom n e evs (i : nat) :
  evs !! i = Some e -> (n + i)%nat ∈ positionsFrom n e evs.
Proof.
  revert n i. induction evs as [|x xs IH]; intros n i H; [discriminate|].
  cbn [positionsFrom]. destruct i as [|i]; cbn in H.
  - injection H as ->. rewrite decide_True by reflexivity.
    rewrite Nat.add_0_r. left.
  - apply elem_of_app. right. replace (n + S i)%nat with (S n + i)%nat by lia.
    apply IH. exact H.
Qed.

(** The loop goes through the migrations that are not in the set read. *)
Lemma migrationLoop_iterates ex ms : forall db,
  Iterates (List.filter (fun m => pending ex (id m)) ms) db
    (eventsOf (migrationLoop ex ms) db) (dbAfter (migrationLoop ex ms) db).
Proof.
  induction ms as [|m ms IH]; intros db; [constructor|].
  destruct (migrationLoop_cons ex m ms db) as [-> ->].
  pose proof (fulfils_run _ db (fulfils_applyMigration ex m)) as Hrun.
  remember (dbAfter (applyMigration ex m) db) as d1 eqn:Hd1.
  remember (eventsOf (applyMigration ex m) db) as e1 eqn:He1.
  clear Hd1 He1. rewrite applyMigration_run in Hrun.
  cbn [List.filter]. unfold pending at 1.
  destruct (has ex (id m)); cbn [negb].
  { injection Hrun as <- <-. apply IH. }
  destruct (execQuery (sql m) db) as [db1 [err|r1]] eqn:E1.
  { injection Hrun as <- <-.
    eapply Iterates_sql_rejected; [exact E1 | apply IH]. }
  destruct (execQuery (recordMigration (id m)) db1) as [db2 [err|r2]] eqn:E2;
    injection Hrun as <- <-.
  - eapply Iterates_record_rejected; [exact E1 | exact E2 | apply IH].
  - eapply Iterates_recorded; [exact E1 | exact E2 | apply IH].
Qed.

Lemma omap_forOf {A B} (f : Event -> option B) (g : A -> list B) (xs : list A) body :
  (forall x, fulfils (body x)) ->
  (forall x db, omap f (eventsOf (body x) db) = g x) ->
  forall db, omap f (eventsOf (forOf xs body) db) = concat (map g xs).
Proof.
  intros Hf Hb. induction xs as [|x xs IH]; intros db; [reflexivity|].
  cbn [forOf map concat]. rewrite eventsOf_seq by apply Hf.
  rewrite omap_app, Hb, IH. reflexivity.
Qed.

Lemma checkAndAddColumn_probes t c d db :
  omap tableProbe (eventsOf (checkAndAddColumn t c d) db) = [t]
  /\ omap columnProbe (eventsOf (checkAndAddColumn t c d) db) = [].
Proof.
  unfold eventsOf. rewrite checkAndAddColumn_run.
  destruct (Nat.eqb _ 0); [split; reflexivity|].
  destruct (db !! t); [|split; reflexivity].
  destruct (bool_decide _); split; reflexivity.
Qed.

Lemma modifyIfPresent_probes t c d a w db :
  omap tableProbe (eventsOf (modifyIfPresent t c d a w) db) = []
  /\ omap columnProbe (eventsOf (modifyIfPresent t c d a w) db) = [(t, c)].
Proof.
  unfold eventsOf. rewrite modifyIfPresent_run.
  destruct (db !! t); [|split; reflexivity].
  destruct (Nat.ltb 0 _); [|split; reflexivity].
  destruct (bool_decide _); split; reflexivity.
Qed.

(** The repairs send the 24 table probes of the [checkAndAddColumn] calls
    and then the three column probes of the blocks "Fix", whatever the
    database holds. *)
Lemma repairs_probes db :
  omap tableProbe (eventsOf repairs db) = map (fun rule => rule.1.1) columnRules
  /\ omap columnProbe (eventsOf repairs db) = map (fun rule => (rule.1.1, rule.1.2)) legacyRules.
Proof.
  unfold repairs.
  rewrite eventsOf_seq by apply fulfils_repairColumns.
  rewrite !eventsOf_seq by apply fulfils_modifyIfPresent.
  rewrite !omap_app. unfold repairColumns.
  rewrite (omap_forOf tableProbe (fun rule : string * string * ColumnDef => [rule.1.1]));
    [|intros [[t c] d]; apply fulfils_checkAndAddColumn
     |intros [[t c] d] db0; apply checkAndAddColumn_probes].
  rewrite (omap_forOf columnProbe (fun _ : string * string * ColumnDef => []));
    [|intros [[t c] d]; apply fulfils_checkAndAddColumn
     |intros [[t c] d] db0; apply checkAndAddColumn_probes].
  repeat match goal with
         | |- context [omap tableProbe (eventsOf (modifyIfPresent ?t ?c ?d ?a ?w) ?x)] =>
             rewrite (proj1 (modifyIfPresent_probes t c d a w x))
         | |- context [omap columnProbe (eventsOf (modifyIfPresent ?t ?c ?d ?a ?w) ?x)] =>
             rewrite (proj2 (modifyIfPresent_probes t c d a w x))
         end.
  split; reflexivity.
Qed.

Lemma checkAndAddColumn_sends t c d :
  emitsOnly (fun e => forall q r, e = Sent q r -> q ∈ ruleStatements true (t, c, d))
    (checkAndAddColumn t c d).
Proof.
  intros db. unfold eventsOf. rewrite checkAndAddColumn_run.
  assert (forall s : Stmt, s ∈ [ShowTablesLike t; ShowColumnsFrom t None;
                                AlterTableAddColumn t c d] ->
          forall (res : option SqlError) q r, Sent [s] res = Sent q r ->
            q ∈ ruleStatements true (t, c, d)) as Hs.
  { intros s Hin res q r [= <- _]. cbn [ruleStatements].
    apply list_elem_of_In in Hin. apply list_elem_of_In. cbn in Hin |- *.
    intuition congruence. }
  assert (forall m q r, ConsoleLog m = Sent q r -> q ∈ ruleStatements true (t, c, d))
    as Hl by (intros; discriminate).
  assert (forall m q r, ConsoleError m = Sent q r -> q ∈ ruleStatements true (t, c, d))
    as He by (intros; discriminate).
  destruct (Nat.eqb _ 0);
    [|destruct (db !! t); [destruct (bool_decide _)|]];
    repeat apply List.Forall_cons; try apply List.Forall_nil;
    first [apply Hl | apply He | apply Hs; apply list_elem_of_In; cbn; tauto].
Qed.

Lemma modifyIfPresent_sends t c d a w :
  emitsOnly (fun e => forall q r, e = Sent q r -> q ∈ ruleStatements false (t, c, d))
    (modifyIfPresent t c d a w).
Proof.
  intros db. unfold eventsOf. rewrite modifyIfPresent_run.
  assert (forall s : Stmt, s ∈ [ShowColumnsFrom t (Some c); AlterTableModifyColumn t c d] ->
          forall (res : option SqlError) q r, Sent [s] res = Sent q r ->
            q ∈ ruleStatements false (t, c, d)) as Hs.
  { intros s Hin res q r [= <- _]. cbn [ruleStatements].
    apply list_elem_of_In in Hin. apply list_elem_of_In. cbn in Hin |- *.
    intuition congruence. }
  assert (forall m q r, ConsoleLog m = Sent q r -> q ∈ ruleStatements false (t, c, d))
    as Hl by (intros; discriminate).
  assert (forall m q r, ConsoleError m = Sent q r -> q ∈ ruleStatements false (t, c, d))
    as He by (intros; discriminate).
  destruct (db !! t); [destruct (Nat.ltb 0 _); [destruct (bool_decide _)|]|];
    repeat apply List.Forall_cons; try apply List.Forall_nil;
    first [apply Hl | apply He | apply Hs; apply list_elem_of_In; cbn; tauto].
Qed.

(** Every statement that the repairs send is a probe or the ALTER of one
    of their rules. *)
Lemma repairs_sendsOnlyRules db : sendsOnlyRules (eventsOf repairs db).
Proof.
  set (P := fun e : Event => forall q r, e = Sent q r ->
              (exists rule, rule ∈ columnRules /\ q ∈ ruleStatements true rule)
              \/ (exists rule, rule ∈ legacyRules /\ q ∈ ruleStatements false rule)).
  assert (emitsOnly P repairs) as H.
  { assert (forall t c d a w, (t, c, d) ∈ legacyRules ->
              emitsOnly P (modifyIfPresent t c d a w)) as Hmod.
    { intros t c d a w Hin db0.
      eapply Forall_impl; [apply modifyIfPresent_sends|].
      intros e He q r Heq. right. exists (t, c, d). split; [exact Hin | eapply He, Heq]. }
    unfold repairs, repairColumns.
    apply emitsOnly_andThen; [|intros _].
    { apply emitsOnly_forOf. intros [[t c] d] Hin db0.
      eapply Forall_impl; [apply checkAndAddColumn_sends|].
      intros e He q r Heq. left. exists (t, c, d). split; [exact Hin | eapply He, Heq]. }
    repeat (apply emitsOnly_andThen; [|intros _]);
      apply Hmod; apply list_elem_of_In; cbn; tauto. }
  intros q r Hin. specialize (H db). rewrite List.Forall_forall in H.
  apply list_elem_of_In in Hin. exact (H (Sent q r) Hin q r eq_refl).
Qed.

(** C5, as the code has it: the applied ids are read before the repairs.
    A startup that cannot get a connection logs the failure and releases
    nothing.  Otherwise it logs, takes one connection, creates the
    bookkeeping table if it is missing and reads the applied ids; if that
    read fails the failure is logged and the connection released; if it
    succeeds, the run continues with the critical-schema repairs between
    their two console lines, then the loop, and last the closing console
    line and the release.  The repairs are those of
    [ensureCriticalSchema] on the database with its bookkeeping table:
    they send the table probe of each of the 24 column rules and the
    column probe of each of the three blocks "Fix", in the order of the
    source, and besides these only the column listings and the ALTER
    statements of those rules.  The loop goes through the migrations
    that are not recorded, in the fixed ascending order, starting from
    the database that the repairs left: it executes the SQL of each and,
    when that is accepted, the insert of its id, logging the completion
    or the failure before it goes on.  The ids in the bookkeeping table
    afterwards are those read, followed by the ids that completed. *)
Theorem startup_order SALT_ROUNDS digest random db :
  let run c := eventsOf (runMigrations SALT_ROUNDS digest c random) db in
  let create := Sent [createMigrationsTable] None in
  let read := Sent [SelectFrom "id" "migrations"] in
  run false = [ConsoleLog CheckingDatabaseMigrations;
               ConsoleError (MigrationFailedFatal ECONNREFUSED)]
  /\ match execStmt (SelectFrom "id" "migrations") (createBookkeeping db) with
     | inl e =>
         run true = [ConsoleLog CheckingDatabaseMigrations; GetConnection;
                     create; read (Some e);
                     ConsoleError (MigrationFailedFatal e); Release]
     | inr _ =>
         exists repairing migrating,
           run true = [ConsoleLog CheckingDatabaseMigrations; GetConnection;
                       create; read None;
                       ConsoleLog RunningCriticalSchemaCheck]
                      ++ repairing
                      ++ [ConsoleLog CriticalSchemaCheckComplete]
                      ++ migrating
                      ++ [ConsoleLog MigrationsCheckComplete; Release]
           /\ Forall repairTraffic repairing
           /\ Forall (migrationTraffic (migrations SALT_ROUNDS digest random)) migrating
           /\ attemptedIn migrating = List.filter (pending (appliedIds db)) fixedIds
           /\ eventsOf ensureCriticalSchema (createBookkeeping db)
              = [ConsoleLog RunningCriticalSchemaCheck] ++ repairing
                ++ [ConsoleLog CriticalSchemaCheckComplete]
           /\ omap tableProbe repairing = map (fun rule => rule.1.1) columnRules
           /\ omap columnProbe repairing
              = map (fun rule => (rule.1.1, rule.1.2)) legacyRules
           /\ sendsOnlyRules repairing
           /\ Iterates
                (List.filter (fun m => pending (appliedIds db) (id m))
                   (migrations SALT_ROUNDS digest random))
                (dbAfter ensureCriticalSchema (createBookkeeping db))
                migrating
                (dbAfter (runMigrations SALT_ROUNDS digest true random) db)
           /\ appliedIds (dbAfter (runMigrations SALT_ROUNDS digest true random) db)
              = appliedIds db ++ map (fun i => Some (VInt i)) (completedIn migrating)
     end.
Proof.
  cbv zeta. split.
  { unfold runMigrations, eventsOf. rewrite withConnection_refused. reflexivity. }
  pose proof (run_appliedIds true (migrations SALT_ROUNDS digest random) db
                (fixed_list_spares_bookkeeping SALT_ROUNDS digest random)) as Hids.
  revert Hids.
  unfold runMigrations, eventsOf at 1 2 3, dbAfter at 1 3 4.
  rewrite withConnection_run, migrate_run. cbv zeta.
  destruct (execStmt (SelectFrom "id" "migrations") (createBookkeeping db))
    as [e|[db0 rs]]; [reflexivity|].
  cbn [fst snd]. intros Hids.
  exists (eventsOf repairs (createBookkeeping db)).
  exists (eventsOf (migrationLoop (appliedIds db) (migrations SALT_ROUNDS digest random))
            (dbAfter ensureCriticalSchema (createBookkeeping db))).
  split; [|split; [|split; [|split; [|split; [|split; [|split; [|split; [|split]]]]]]]].
  - unfold eventsOf at 1. rewrite ensureCriticalSchema_run. cbn [snd].
    cbn [app]. rewrite <- !app_assoc. reflexivity.
  - apply repairs_traffic.
  - apply migrationLoop_traffic.
  - rewrite migrationLoop_attempted, migrations_ids. reflexivity.
  - apply eventsOf_ensureCriticalSchema.
  - apply repairs_probes.
  - apply repairs_probes.
  - apply repairs_sendsOnlyRules.
  - apply migrationLoop_iterates.
  - rewrite Hids. f_equal. f_equal.
    rewrite eventsOf_ensureCriticalSchema, !completedIn_app.
    rewrite (proj2 (repairTraffic_quiet _ (repairs_traffic _))).
    change (completedIn [ConsoleLog CheckingDatabaseMigrations; GetConnection])
      with (@nil Z).
    change (completedIn [Sent [createMigrationsTable] None;
                         Sent [SelectFrom "id" "migrations"] None]) with (@nil Z).
    change (completedIn [ConsoleLog RunningCriticalSchemaCheck]) with (@nil Z).
    change (completedIn [ConsoleLog CriticalSchemaCheckComplete]) with (@nil Z).
    change (completedIn [ConsoleLog MigrationsCheckComplete]) with (@nil Z).
    change (completedIn [Release]) with (@nil Z).
    cbn [app]. rewrite !app_nil_r. reflexivity.
Qed.

(** C5 as the claim orders the steps fails on a fresh installation: the
    applied ids are read fourth, the repair pass opens fifth, and its
    closing line never comes before the read.  Nor is the id of every
    migration that the loop executes recorded: the SQL of migration 11 is
    sent and rejected, and 11 is not in the bookkeeping table
    afterwards. *)
Lemma applied_ids_read_before_repairs :
  let evs := eventsOf (startup saltA) freshDatabase in
  evs !! 3%nat = Some (Sent [SelectFrom "id" "migrations"] None)
  /\ evs !! 4%nat = Some (ConsoleLog RunningCriticalSchemaCheck)
  /\ ~ (exists i j : nat,
          evs !! i = Some (ConsoleLog CriticalSchemaCheckComplete)
          /\ evs !! j = Some (Sent [SelectFrom "id" "migrations"] None)
          /\ (i < j)%nat)
  /\ Sent avatarSql (Some (ER_DUP_FIELDNAME "avatarUrl")) ∈ evs
  /\ ~ recorded installed 11.
Proof.
  cbv zeta. split; [vm_compute; reflexivity|]. split; [vm_compute; reflexivity|].
  split; [|split].
  - intros (i & j & Hi & Hj & Hlt).
    apply (lookup_positionsFrom 0) in Hi, Hj.
    vm_compute in Hi, Hj.
    apply (proj1 (list_elem_of_In _ _)) in Hi, Hj.
    cbn [In] in Hi, Hj. lia.
  - apply list_elem_of_In. vm_compute. tauto.
  - intros H%list_elem_of_In. vm_compute in H. intuition discriminate.
Qed.

(* ===================================================================== *)
(** ** Completions *)
(* ===================================================================== *)

Lemma peel_target (x0 : Event) pre l before rest :
  Forall (fun x => x <> x0) pre ->
  pre ++ l = before ++ x0 :: rest ->
  exists before', before = pre ++ before' /\ l = before' ++ x0 :: rest.
Proof.
  intros Hpre. revert before.
  induction Hpre as [|x pre Hx _ IH]; intros before H; cbn in *.
  - eauto.
  - destruct before as [|y before]; cbn in H.
    + injection H as -> _. contradiction.
    + injection H as -> H. apply IH in H as (b & -> & H). eauto.
Qed.

Ltac not_target := repeat apply List.Forall_cons; try apply List.Forall_nil; discriminate.

(** A completion line is the last event of an iteration that sent the SQL
    of the migration, saw it succeed, and then inserted the id. *)
Lemma migrationLoop_completion_inv ex ms : forall db tail before i after,
  Forall (fun x => x <> ConsoleLog (MigrationCompleted i)) tail ->
  eventsOf (migrationLoop ex ms) db ++ tail
  = before ++ ConsoleLog (MigrationCompleted i) :: after ->
  exists m before',
    m ∈ ms /\ id m = i
    /\ before = before' ++ [ConsoleLog (RunningMigration i); Sent (sql m) None;
                            Sent (recordMigration i) None].
Proof.
  induction ms as [|m ms IH]; intros db tail before i after Htail H.
  { exfalso. cbn in H. rewrite <- (app_nil_r tail) in H.
    apply peel_target in H as (b & _ & H); [|exact Htail]. destruct b; discriminate. }
  destruct (migrationLoop_cons ex m ms db) as [_ Hev]. rewrite Hev in H. clear Hev.
  rewrite <- app_assoc in H.
  assert (forall block before',
            before = block ++ before' ->
            eventsOf (migrationLoop ex ms) (dbAfter (applyMigration ex m) db) ++ tail
            = before' ++ ConsoleLog (MigrationCompleted i) :: after ->
            exists m0 before'',
              m0 ∈ m :: ms /\ id m0 = i
              /\ before = before'' ++ [ConsoleLog (RunningMigration i);
                                       Sent (sql m0) None;
                                       Sent (recordMigration i) None]) as Hlater.
  { intros block before' -> H'.
    destruct (IH _ _ _ _ _ Htail H') as (m0 & b0 & Hin & Hi & ->).
    exists m0, (block ++ b0). split; [right; exact Hin|]. split; [exact Hi|].
    rewrite <- app_assoc. reflexivity. }
  revert H. unfold eventsOf at 1.
  pose proof (applyMigration_run ex m db) as Hrun.
  destruct (has ex (id m)) eqn:Hhas.
  { rewrite Hrun. cbn [fst snd app]. intros H. apply (Hlater [] before); auto. }
  destruct (execQuery (sql m) db) as [db1 [e1|r1]].
  - rewrite Hrun. cbn [fst snd]. intros H.
    apply peel_target in H as (b & -> & H); [|not_target].
    eapply Hlater; [reflexivity | exact H].
  - destruct (execQuery (recordMigration (id m)) db1) as [db2 [e2|r2]];
      rewrite Hrun; cbn [fst snd]; intros H.
    + apply peel_target in H as (b & -> & H); [|not_target].
      eapply Hlater; [reflexivity | exact H].
    + change [ConsoleLog (RunningMigration (id m)); Sent (sql m) None;
              Sent (recordMigration (id m)) None;
              ConsoleLog (MigrationCompleted (id m))]
        with ([ConsoleLog (RunningMigration (id m)); Sent (sql m) None;
               Sent (recordMigration (id m)) None]
              ++ [ConsoleLog (MigrationCompleted (id m))]) in H.
      rewrite <- app_assoc in H.
      apply peel_target in H as (b & -> & H); [|not_target].
      destruct b as [|y b]; cbn [app] in H.
      * injection H as Hi _. exists m, []. split; [left|]. split; [exact Hi|].
        rewrite <- Hi. reflexivity.
      * injection H as Hy H. subst y.
        destruct (IH _ _ _ _ _ Htail H) as (m0 & b0 & Hin & Hi & ->).
        exists m0, ([ConsoleLog (RunningMigration (id m)); Sent (sql m) None;
                     Sent (recordMigration (id m)) None;
                     ConsoleLog (MigrationCompleted (id m))] ++ b0).
        split; [right; exact Hin|]. split; [exact Hi|]. reflexivity.
Qed.

(** Every completion of the loop is one of its starts. *)
Lemma migrationLoop_completed_sublist ex ms : forall db,
  completedIn (eventsOf (migrationLoop ex ms) db)
  `sublist_of` attemptedIn (eventsOf (migrationLoop ex ms) db).
Proof.
  induction ms as [|m ms IH]; intros db; [constructor|].
  destruct (migrationLoop_cons ex m ms db) as [_ ->].
  rewrite completedIn_app, attemptedIn_app. apply sublist_app; [|apply IH].
  unfold eventsOf. rewrite applyMigration_run.
  destruct (has ex (id m)); [constructor|].
  destruct (execQuery (sql m) db) as [db1 [e1|r1]]; [repeat constructor|].
  destruct (execQuery _ db1) as [db2 [e2|r2]]; repeat constructor.
Qed.

Lemma filter_sublist {A} (f : A -> bool) (l : list A) : List.filter f l `sublist_of` l.
Proof.
  induction l as [|x l IH]; [constructor|]. cbn.
  destruct (f x); [apply sublist_skip | apply sublist_cons]; exact IH.
Qed.

Lemma quiet_lists evs :
  Forall quiet evs ->
  attemptedIn evs = [] /\ completedIn evs = []
  /\ forall i, Forall (fun x => x <> ConsoleLog (MigrationCompleted i)) evs.
Proof.
  induction 1 as [|e evs He _ (IHa & IHc & IHn)].
  - repeat split. intros i. constructor.
  - destruct e as [| |? ?|[]|[]]; cbn in He; try contradiction;
      (split; [exact IHa|]); (split; [exact IHc|]);
      intros i; (constructor; [discriminate | apply IHn]).
Qed.

Lemma repairTraffic_quiet_events evs : Forall repairTraffic evs -> Forall quiet evs.
Proof.
  intros H. eapply Forall_impl; [exact H|].
  intros e He. destruct e as [| |? ?|[]|[]]; cbn in *; tauto.
Qed.

Lemma preamble_all_quiet db : Forall quiet (preamble db).
Proof.
  unfold preamble. apply Forall_app. split; [repeat constructor|].
  apply Forall_app. split; [|repeat constructor].
  apply repairTraffic_quiet_events, repairs_traffic.
Qed.

(** A startup either never reaches the loop, and then shows no migration
    event, or it read the applied ids and went through the loop. *)
Lemma run_cases c ms db :
  Forall quiet (eventsOf (withConnection c (migrate ms)) db)
  \/ (c = true /\
      exists rs, execStmt (SelectFrom "id" "migrations") (createBookkeeping db)
                 = inr (createBookkeeping db, rs)).
Proof.
  unfold eventsOf.
  destruct (run_view c ms db) as [_|e _ _|rs Hc Es]; cbn [snd].
  - left. repeat constructor.
  - left. repeat constructor.
  - right. eauto.
Qed.

(** What one startup shows about the migrations of a list [ms] with
    distinct ids. *)
Lemma run_facts c ms db :
  NoDup (map id ms) ->
  let E := eventsOf (withConnection c (migrate ms)) db in
  (forall i, recorded db i -> i ∉ attemptedIn E)
  /\ NoDup (attemptedIn E)
  /\ completedIn E `sublist_of` attemptedIn E
  /\ (forall i before after,
        E = before ++ ConsoleLog (MigrationCompleted i) :: after ->
        exists m before',
          m ∈ ms /\ id m = i
          /\ before = before' ++ [ConsoleLog (RunningMigration i); Sent (sql m) None;
                                  Sent (recordMigration i) None]).
Proof.
  intros Hnd. cbv zeta.
  destruct (run_cases c ms db) as [Hq|[-> [rs Es]]].
  - destruct (quiet_lists _ Hq) as (-> & -> & Hn).
    split; [intros i _ Hin; inversion Hin|]. split; [constructor|].
    split; [constructor|].
    intros i before after H. exfalso.
    rewrite <- (app_nil_r (eventsOf _ _)) in H.
    apply peel_target in H as (b & _ & H); [|apply Hn]. destruct b; discriminate.
  - unfold eventsOf. rewrite (run_migrated ms db rs Es). cbn [snd].
    destruct (quiet_lists _ (preamble_all_quiet db)) as (Ha & Hc & Hn).
    assert (forall l : list Event,
              attemptedIn (preamble db ++ l ++ [ConsoleLog MigrationsCheckComplete; Release])
              = attemptedIn l) as Hatt.
    { intros l. rewrite !attemptedIn_app, Ha. cbn [app]. apply app_nil_r. }
    assert (forall l : list Event,
              completedIn (preamble db ++ l ++ [ConsoleLog MigrationsCheckComplete; Release])
              = completedIn l) as Hcom.
    { intros l. rewrite !completedIn_app, Hc. cbn [app]. apply app_nil_r. }
    rewrite Hatt, Hcom, migrationLoop_attempted.
    split; [|split; [|split]].
    + intros i Hrec Hin. apply list_elem_of_In, filter_In in Hin as [_ Hp].
      apply recorded_has in Hrec. unfold pending in Hp. rewrite Hrec in Hp.
      discriminate.
    + eapply sublist_NoDup; [exact Hnd | apply filter_sublist].
    + rewrite <- (migrationLoop_attempted (appliedIds db) ms
                    (dbAfter repairs (createBookkeeping db))).
      apply migrationLoop_completed_sublist.
    + intros i before after H.
      apply peel_target in H as (b & -> & H); [|apply Hn].
      apply migrationLoop_completion_inv in H as (m & b' & Hin & Hi & ->);
        [|not_target].
      exists m, (preamble db ++ b'). rewrite <- app_assoc. auto.
Qed.

(* ===================================================================== *)
(** ** Sequences of startups *)
(* ===================================================================== *)

Lemma fixed_list_NoDup SALT_ROUNDS digest random :
  NoDup (map id (migrations SALT_ROUNDS digest random)).
Proof. rewrite migrations_ids. apply fixedIds_NoDup. Qed.

Lemma startups_recorded SALT_ROUNDS digest runs : forall db i,
  recorded db i ->
  Forall (fun E => i ∉ attemptedIn E) (startups SALT_ROUNDS digest runs db).
Proof.
  induction runs as [|[c random] runs IH]; intros db i Hrec; cbn [startups].
  - constructor.
  - unfold runMigrations at 1 2.
    destruct (run_facts c _ db (fixed_list_NoDup SALT_ROUNDS digest random))
      as (Hskip & _).
    constructor; [apply Hskip; exact Hrec|].
    apply IH. unfold runMigrations.
    apply recorded_after_run; [apply fixed_list_spares_bookkeeping|]. left. exact Hrec.
Qed.

Lemma startups_completed_sublist SALT_ROUNDS digest runs : forall db,
  Forall (fun E => completedIn E `sublist_of` attemptedIn E)
    (startups SALT_ROUNDS digest runs db).
Proof.
  induction runs as [|[c random] runs IH]; intros db; cbn [startups];
    constructor; [|apply IH].
  unfold runMigrations.
  apply (run_facts c _ db (fixed_list_NoDup SALT_ROUNDS digest random)).
Qed.

(** An iteration is silent for a recorded id; otherwise it opens with its
    "Running" line and shows no other. *)
Lemma applyMigration_block ex m db :
  (has ex (id m) = true /\ applyMigration ex m db = (Fulfilled tt, db, []))
  \/ (has ex (id m) = false
      /\ exists blk,
           eventsOf (applyMigration ex m) db = ConsoleLog (RunningMigration (id m)) :: blk
           /\ Forall (fun x => ~ isRunning x) blk).
Proof.
  unfold eventsOf. rewrite applyMigration_run.
  destruct (has ex (id m)); [left; split; reflexivity|]. right. split; [reflexivity|].
  destruct (execQuery (sql m) db) as [db1 [e1|r1]];
    [|destruct (execQuery _ db1) as [db2 [e2|r2]]];
    eexists; (split; [reflexivity | not_running]).
Qed.

(** Where the loop shows the start of migration [i], the list splits at
    the migration with that id, which was not in the set read: the
    events before are those of the migrations before it, and the start
    opens the events of its own iteration, which the rest of the list
    follows. *)
Lemma migrationLoop_started_inv ex ms : forall db tail before i rest,
  Forall (fun x => ~ isRunning x) tail ->
  eventsOf (migrationLoop ex ms) db ++ tail
  = before ++ ConsoleLog (RunningMigration i) :: rest ->
  exists ms1 m ms2,
    ms = ms1 ++ m :: ms2 /\ id m = i /\ has ex i = false
    /\ before = eventsOf (migrationLoop ex ms1) db
    /\ let db0 := dbAfter (migrationLoop ex ms1) db in
       ConsoleLog (RunningMigration i) :: rest
       = eventsOf (applyMigration ex m) db0
         ++ eventsOf (migrationLoop ex ms2) (dbAfter (applyMigration ex m) db0) ++ tail.
Proof.
  induction ms as [|m ms IH]; intros db tail before i rest Htail H.
  { exfalso. cbn in H. eapply no_running_in; eassumption. }
  destruct (migrationLoop_cons ex m ms db) as [_ Hev]. rewrite Hev in H.
  rewrite <- app_assoc in H.
  assert (forall before',
            before = eventsOf (applyMigration ex m) db ++ before' ->
            eventsOf (migrationLoop ex ms) (dbAfter (applyMigration ex m) db) ++ tail
            = before' ++ ConsoleLog (RunningMigration i) :: rest ->
            exists ms1 m0 ms2,
              m :: ms = ms1 ++ m0 :: ms2 /\ id m0 = i /\ has ex i = false
              /\ before = eventsOf (migrationLoop ex ms1) db
              /\ let db0 := dbAfter (migrationLoop ex ms1) db in
                 ConsoleLog (RunningMigration i) :: rest
                 = eventsOf (applyMigration ex m0) db0
                   ++ eventsOf (migrationLoop ex ms2) (dbAfter (applyMigration ex m0) db0)
                   ++ tail) as Hlater.
  { intros before' -> H'.
    destruct (IH _ _ _ _ _ Htail H') as (ms1 & m0 & ms2 & -> & Hi & Hex & -> & Hrest).
    exists (m :: ms1), m0, ms2.
    destruct (migrationLoop_cons ex m ms1 db) as [-> ->].
    repeat split; try assumption. }
  destruct (applyMigration_block ex m db) as [[Hhas Hrun]|(Hhas & blk & Hblk & Hquiet)].
  - assert (eventsOf (applyMigration ex m) db = []) as He
      by (unfold eventsOf; rewrite Hrun; reflexivity).
    apply (Hlater before); [rewrite He; reflexivity|].
    rewrite He in H. exact H.
  - rewrite Hblk in H. destruct before as [|x before]; cbn [app] in H.
    + injection H as Hi Hrest. exists [], m, ms.
      split; [reflexivity|]. split; [exact Hi|]. split; [rewrite <- Hi; exact Hhas|].
      split; [reflexivity|]. cbv zeta.
      change (dbAfter (migrationLoop ex []) db) with db.
      rewrite Hblk, <- Hi, <- Hrest. reflexivity.
    + injection H as Hx H. subst x.
      apply peel_events in H as (b & -> & H); [|exact Hquiet].
      apply (Hlater b); [rewrite Hblk; reflexivity | exact H].
Qed.

(** *** The insert of an id into the table as created *)

Lemma no_conflict (i : Z) (rws : list Row) :
  Some (VInt i) ∉ map (row_get "id") rws ->
  existsb (fun r => bool_decide (row_get "id" r = Some (VInt i))) rws = false.
Proof.
  induction rws as [|r rws IH]; intros H; [reflexivity|].
  cbn [existsb map] in *. apply not_elem_of_cons in H as [Hr H].
  rewrite (IH H), orb_false_r. apply bool_decide_eq_false. congruence.
Qed.

(** On a bookkeeping table with the single column [id], the insert of an
    id that no row carries is accepted. *)
Lemma record_accepted (i : Z) db T :
  db !! "migrations" = Some T ->
  columns T = [column "id" INT [PRIMARY_KEY]] ->
  Some (VInt i) ∉ map (row_get "id") (rows T) ->
  exists rs,
    execQuery (recordMigration i) db
    = (<["migrations" := appendRow [("id", VInt i)] T]> db, inr rs).
Proof.
  intros HT Hc Hnew. unfold recordMigration. cbn [execQuery execStmt].
  unfold insertInto. rewrite HT. unfold fields. rewrite Hc.
  cbn -[bool_decide]. rewrite bool_decide_eq_true_2 by left. cbn -[bool_decide].
  unfold conflicts. cbn -[bool_decide existsb].
  rewrite (no_conflict i _ Hnew). eauto.
Qed.

Lemma spared_sql_is_no_record m (j : Z) :
  sqlSpares "migrations" m = true -> sql m <> recordMigration j.
Proof. intros H Heq. unfold sqlSpares in H. rewrite Heq in H. discriminate. Qed.

(** On such a table the loop sees no insert of an id rejected. *)
Lemma migrationLoop_records ex ms : forall db T,
  NoDup (map id ms) ->
  forallb (sqlSpares "migrations") ms = true ->
  db !! "migrations" = Some T ->
  columns T = [column "id" INT [PRIMARY_KEY]] ->
  (forall m, m ∈ ms -> has ex (id m) = false ->
     Some (VInt (id m)) ∉ map (row_get "id") (rows T)) ->
  Forall (fun e => forall j err, e <> Sent (recordMigration j) (Some err))
    (eventsOf (migrationLoop ex ms) db).
Proof.
  induction ms as [|m ms IH]; intros db T Hnd Hms HT Hc Hnew; [constructor|].
  destruct (migrationLoop_cons ex m ms db) as [_ ->].
  cbn [map] in Hnd. apply NoDup_cons in Hnd as [Hm_new Hnd].
  cbn [forallb] in Hms. apply andb_prop in Hms as [Hm Hms].
  assert (forall m', m' ∈ ms -> has ex (id m') = false ->
            Some (VInt (id m')) ∉ map (row_get "id") (rows T)) as Hnew'
    by (intros m' Hin; apply Hnew; right; exact Hin).
  pose proof (fulfils_run _ db (fulfils_applyMigration ex m)) as Hrun.
  remember (dbAfter (applyMigration ex m) db) as d1 eqn:Hd1.
  remember (eventsOf (applyMigration ex m) db) as e1 eqn:He1.
  clear Hd1 He1. rewrite applyMigration_run in Hrun.
  destruct (has ex (id m)) eqn:Hhas.
  { injection Hrun as <- <-. cbn [app]. eapply IH; eassumption. }
  pose proof (execQuery_frame "migrations" (sql m) db Hm) as Hframe.
  unfold sameTable in Hframe. rewrite HT in Hframe.
  destruct (execQuery (sql m) db) as [db1 [err|r1]] eqn:E1; cbn [fst] in Hframe.
  { injection Hrun as <- <-. apply Forall_app. split.
    - repeat apply List.Forall_cons; try apply List.Forall_nil;
        intros j err'; try discriminate.
      intros [= Heq _]. exact (spared_sql_is_no_record m j Hm Heq).
    - eapply IH; eassumption. }
  destruct (record_accepted (id m) db1 T Hframe Hc) as [rs Hacc].
  { apply Hnew; [left | exact Hhas]. }
  rewrite Hacc in Hrun. injection Hrun as <- <-. apply Forall_app. split.
  - repeat apply List.Forall_cons; try apply List.Forall_nil;
      intros j err'; discriminate.
  - eapply (IH _ (appendRow [("id", VInt (id m))] T)); try eassumption.
    + apply lookup_insert_eq.
    + intros m' Hin Hp. cbn [appendRow rows]. rewrite map_app.
      intros Hin'. apply elem_of_app in Hin' as [Hin'|Hin'].
      * exact (Hnew' m' Hin Hp Hin').
      * cbn in Hin'. apply list_elem_of_singleton in Hin'. injection Hin' as Heq.
        apply Hm_new. rewrite <- Heq. apply list_elem_of_fmap_2. exact Hin.
Qed.

Lemma createBookkeeping_asCreated db :
  bookkeepingAsCreated db ->
  exists T0, createBookkeeping db !! "migrations" = Some T0
             /\ columns T0 = [column "id" INT [PRIMARY_KEY]]
             /\ rows T0 = rowsOf "migrations" db.
Proof.
  intros Hb. unfold createBookkeeping, hasTable, rowsOf.
  destruct (db !! "migrations") as [T|] eqn:ET.
  - exists T. rewrite ET. split; [reflexivity|]. split; [apply Hb; exact ET | reflexivity].
  - eexists. rewrite lookup_insert_eq. split; [reflexivity|]. split; reflexivity.
Qed.

Lemma closing_line_view c ms db :
  ConsoleLog MigrationsCheckComplete ∈ eventsOf (withConnection c (migrate ms)) db ->
  c = true
  /\ exists rs, execStmt (SelectFrom "id" "migrations") (createBookkeeping db)
                = inr (createBookkeeping db, rs).
Proof.
  unfold eventsOf. destruct (run_view c ms db) as [_|e _ _|rs Hc Es]; cbn [snd]; intros H.
  - exfalso. apply list_elem_of_In in H. cbn in H. intuition discriminate.
  - exfalso. apply list_elem_of_In in H. cbn in H. intuition discriminate.
  - eauto.
Qed.

Lemma preamble_sends_no_record db (j : Z) r : Sent (recordMigration j) r ∉ preamble db.
Proof.
  unfold preamble. intros H.
  apply elem_of_app in H as [H|H].
  { apply list_elem_of_In in H. cbn in H. intuition discriminate. }
  apply elem_of_app in H as [H|H].
  - pose proof (repairs_traffic (createBookkeeping db)) as Htr.
    rewrite List.Forall_forall in Htr. apply list_elem_of_In, Htr in H. exact H.
  - apply list_elem_of_In in H. cbn in H. intuition discriminate.
Qed.

(** What one startup does about migration [i]. *)
Lemma run_progress c ms db (i : Z) :
  NoDup (map id ms) ->
  forallb (sqlSpares "migrations") ms = true ->
  let E := eventsOf (withConnection c (migrate ms)) db in
  let db' := dbAfter (withConnection c (migrate ms)) db in
  (~ recorded db i -> i ∈ map id ms -> ConsoleLog MigrationsCheckComplete ∈ E ->
   exists m before r after,
     m ∈ ms /\ id m = i
     /\ E = before ++ ConsoleLog (RunningMigration i) :: Sent (sql m) r :: after)
  /\ (forall before q after,
        E = before ++ ConsoleLog (RunningMigration i) :: Sent q None :: after ->
        exists r rest,
          after = Sent (recordMigration i) r :: rest
          /\ match r with
             | None =>
                 (exists rest', rest = ConsoleLog (MigrationCompleted i) :: rest')
                 /\ recorded db' i
             | Some err =>
                 (exists rest', rest = ConsoleError (MigrationFailed i err) :: rest')
                 /\ ~ recorded db' i
             end)
  /\ (bookkeepingAsCreated db ->
      bookkeepingAsCreated db'
      /\ (c = true -> ConsoleLog MigrationsCheckComplete ∈ E)
      /\ forall j err, Sent (recordMigration j) (Some err) ∉ E).
Proof.
  intros Hnd Hms. cbv zeta. split; [|split].
  - intros Hnr Hin Hclose.
    apply closing_line_view in Hclose as [-> [rs Es]].
    apply list_elem_of_fmap in Hin as (m & Hi & Hm).
    exists m. unfold eventsOf. rewrite (run_migrated ms db rs Es). cbn [snd].
    destruct (migrationLoop_attempts (appliedIds db) ms m
                (dbAfter repairs (createBookkeeping db)) Hm) as (b & r & a & ->).
    { rewrite <- Hi. destruct (has (appliedIds db) i) eqn:Hh; [|reflexivity].
      exfalso. apply Hnr. apply recorded_has. exact Hh. }
    exists (preamble db ++ b), r, (a ++ [ConsoleLog MigrationsCheckComplete; Release]).
    split; [exact Hm|]. split; [symmetry; exact Hi|].
    rewrite <- Hi. apply wrap_adjacent.
  - intros before q after H.
    destruct (started_run_view c ms db before i _ H) as (_ & Hdb & Hev & b' & -> & Hloop).
    apply migrationLoop_started_inv in Hloop
      as (ms1 & m & ms2 & Hsplit & Hi & Hpend & -> & Hrest); [|not_running].
    cbv zeta in Hrest.
    assert (NoDup (map id ms1 ++ i :: map id ms2)) as Hnodup.
    { rewrite <- Hi. change (id m :: map id ms2) with (map id (m :: ms2)).
      rewrite <- map_app, <- Hsplit. exact Hnd. }
    apply NoDup_app in Hnodup as (_ & Hdisj & Hnd2).
    apply NoDup_cons in Hnd2 as [Hnot2 _].
    set (db0 := dbAfter (migrationLoop (appliedIds db) ms1)
                  (dbAfter repairs (createBookkeeping db))) in *.
    pose proof (fulfils_run _ db0 (fulfils_applyMigration (appliedIds db) m)) as Hrun.
    remember (dbAfter (applyMigration (appliedIds db) m) db0) as d1 eqn:Hd1.
    remember (eventsOf (applyMigration (appliedIds db) m) db0) as e1 eqn:He1.
    clear Hd1 He1. rewrite applyMigration_run, Hi, Hpend in Hrun.
    destruct (execQuery (sql m) db0) as [db1 [err|r1]].
    { injection Hrun as <- <-. discriminate. }
    destruct (execQuery (recordMigration i) db1) as [db2 [err|r2]];
      injection Hrun as <- <-; injection Hrest as _ Hafter; subst after.
    + exists (Some err). eexists. split; [reflexivity|]. split; [eauto|].
      rewrite recorded_after_run by exact Hms. intros [Hrec|Hin].
      { apply recorded_has in Hrec. congruence. }
      rewrite H, <- app_assoc, !completedIn_app in Hin.
      rewrite (proj2 (preamble_quiet db)) in Hin. cbn [app] in Hin.
      apply elem_of_app in Hin as [Hin|Hin].
      * apply migrationLoop_completed_ids in Hin. apply (Hdisj i Hin). left.
      * change (ConsoleLog (RunningMigration i) :: Sent q None
                :: Sent (recordMigration i) (Some err)
                :: ConsoleError (MigrationFailed i err)
                :: eventsOf (migrationLoop (appliedIds db) ms2) db2
                   ++ [ConsoleLog MigrationsCheckComplete; Release])
          with ([ConsoleLog (RunningMigration i); Sent q None;
                 Sent (recordMigration i) (Some err);
                 ConsoleError (MigrationFailed i err)]
                ++ eventsOf (migrationLoop (appliedIds db) ms2) db2
                ++ [ConsoleLog MigrationsCheckComplete; Release]) in Hin.
        rewrite !completedIn_app in Hin.
        change (completedIn [ConsoleLog (RunningMigration i); Sent q None;
                             Sent (recordMigration i) (Some err);
                             ConsoleError (MigrationFailed i err)]) with (@nil Z) in Hin.
        change (completedIn [ConsoleLog MigrationsCheckComplete; Release])
          with (@nil Z) in Hin.
        cbn [app] in Hin. rewrite app_nil_r in Hin.
        apply migrationLoop_completed_ids in Hin. exact (Hnot2 Hin).
    + exists None. eexists. split; [reflexivity|]. split; [eauto|].
      rewrite recorded_after_run by exact Hms. right. rewrite H.
      unfold completedIn. apply list_elem_of_omap.
      exists (ConsoleLog (MigrationCompleted i)). split; [|reflexivity].
      apply elem_of_app. right. do 3 right. left.
  - intros Hb.
    destruct (createBookkeeping_asCreated db Hb) as (T0 & HT0 & Hc0 & Hr0).
    unfold eventsOf, dbAfter.
    destruct (run_view c ms db) as [Hc|e _ Ee|rs Hc Es]; cbn [fst snd].
    + split; [exact Hb|]. split; [congruence|].
      intros j err H. apply list_elem_of_In in H. cbn in H. intuition discriminate.
    + exfalso.
      destruct (select_succeeds (createBookkeeping db) T0 HT0) as [rs Es].
      { unfold fields. rewrite Hc0. left. }
      congruence.
    + destruct (migrated_table (appliedIds db) ms _ T0 Hms HT0) as (T' & HT' & Hcols).
      split; [|split].
      * intros T HT. rewrite HT' in HT. injection HT as <-. rewrite Hcols. exact Hc0.
      * intros _. apply elem_of_app. right. apply elem_of_app. right.
        apply elem_of_app. right. apply elem_of_app. right. left.
      * intros j err H.
        assert (forall tl : list Event,
                  [ConsoleLog CheckingDatabaseMigrations; GetConnection;
                   Sent [createMigrationsTable] None;
                   Sent [SelectFrom "id" "migrations"] None;
                   ConsoleLog RunningCriticalSchemaCheck]
                  ++ eventsOf repairs (createBookkeeping db)
                  ++ [ConsoleLog CriticalSchemaCheckComplete] ++ tl
                  = preamble db ++ tl) as Hpre.
        { intros tl. unfold preamble. rewrite <- !app_assoc. reflexivity. }
        rewrite Hpre in H. apply elem_of_app in H as [H|H].
        { exact (preamble_sends_no_record db j _ H). }
        apply elem_of_app in H as [H|H].
        2:{ apply list_elem_of_In in H. cbn in H. intuition discriminate. }
        pose proof (repairs_frame "migrations") as Hrep.
        specialize (Hrep ltac:(intros H'%list_elem_of_In; cbn in H'; intuition discriminate)
                         (createBookkeeping db)).
        unfold sameTable in Hrep. rewrite HT0 in Hrep.
        pose proof (migrationLoop_records (appliedIds db) ms _ T0 Hnd Hms Hrep Hc0) as Hall.
        rewrite List.Forall_forall in Hall.
        apply list_elem_of_In in H. eapply Hall; [|exact H|reflexivity].
        intros m _ Hp. rewrite Hr0. intros Hin.
        unfold has in Hp. apply bool_decide_eq_false in Hp. exact (Hp Hin).
Qed.

(** On a bookkeeping table as created, a migration whose SQL was accepted
    is recorded and completes in the same iteration. *)
Lemma accepted_sql_completes c ms db (i : Z) before q after :
  NoDup (map id ms) ->
  forallb (sqlSpares "migrations") ms = true ->
  bookkeepingAsCreated db ->
  eventsOf (withConnection c (migrate ms)) db
  = before ++ ConsoleLog (RunningMigration i) :: Sent q None :: after ->
  exists rest,
    after = Sent (recordMigration i) None :: ConsoleLog (MigrationCompleted i) :: rest.
Proof.
  intros Hnd Hms Hb H.
  destruct (run_progress c ms db i Hnd Hms) as (_ & Hnext & Hcreated).
  destruct (Hcreated Hb) as (_ & _ & Hnone).
  destruct (Hnext before q after H) as (r & rest & -> & Hr).
  destruct r as [err|].
  - exfalso. apply (Hnone i err). rewrite H.
    apply elem_of_app. right. do 2 right. left.
  - destruct Hr as [[rest' ->] _]. eauto.
Qed.

Lemma completion_in_events (i : Z) (before rest : list Event) q s :
  i ∈ completedIn (before ++ ConsoleLog (RunningMigration i) :: Sent q None
                   :: s :: ConsoleLog (MigrationCompleted i) :: rest).
Proof.
  unfold completedIn. apply list_elem_of_omap.
  exists (ConsoleLog (MigrationCompleted i)). split; [|reflexivity].
  apply elem_of_app. right. do 3 right. left.
Qed.

(** C4, as the code has it.  Over any sequence of startups from any
    database: once a run shows the completion of migration [i], no later
    run starts [i] again; in every run each migration is started at most
    once, and a completion line comes right after the migration's SQL
    succeeded and the statement recording its id succeeded; no id
    completes twice over the whole sequence; and the ids in the
    bookkeeping table at the end are those at the beginning followed by
    the completions, in order.

    Every single startup, from whatever database it starts: it does not
    start a migration that is recorded; if it reaches the loop, it starts
    every migration of the list that is not recorded and sends its SQL
    next; whenever the SQL of [i] was accepted the insert of [i] is sent
    next, and [i] is recorded after the run exactly if that insert was
    accepted, the completion line following in the one case and the
    failure line in the other.

    Where the bookkeeping table is as [createMigrationsTable] creates
    it, it stays so, every startup with a connection reaches the loop,
    and the insert that follows an accepted SQL is accepted: over a
    sequence of startups from such a database, a migration whose SQL was
    accepted in one run completes in that run and is started in no later
    one. *)
Theorem migration_completes_at_most_once SALT_ROUNDS digest runs db (i : Z) :
  let h := startups SALT_ROUNDS digest runs db in
  (forall earlier E later,
     h = earlier ++ E :: later -> i ∈ completedIn E ->
     Forall (fun E' => i ∉ attemptedIn E') later)
  /\ Forall (fun E =>
       NoDup (attemptedIn E)
       /\ forall before after,
            E = before ++ ConsoleLog (MigrationCompleted i) :: after ->
            exists random m before',
              m ∈ migrations SALT_ROUNDS digest random /\ id m = i
              /\ before = before' ++ [ConsoleLog (RunningMigration i);
                                      Sent (sql m) None;
                                      Sent (recordMigration i) None]) h
  /\ NoDup (concat (map completedIn h))
  /\ appliedIds (dbAfterStartups SALT_ROUNDS digest runs db)
     = appliedIds db ++ map (fun j => Some (VInt j)) (concat (map completedIn h))
  /\ (forall c random d,
        let run := runMigrations SALT_ROUNDS digest c random in
        let E := eventsOf run d in
        let d' := dbAfter run d in
        (recorded d i -> i ∉ attemptedIn E)
        /\ (~ recorded d i -> i ∈ fixedIds -> ConsoleLog MigrationsCheckComplete ∈ E ->
            exists m before r after,
              m ∈ migrations SALT_ROUNDS digest random /\ id m = i
              /\ E = before ++ ConsoleLog (RunningMigration i) :: Sent (sql m) r :: after)
        /\ (forall before q after,
              E = before ++ ConsoleLog (RunningMigration i) :: Sent q None :: after ->
              exists r rest,
                after = Sent (recordMigration i) r :: rest
                /\ match r with
                   | None =>
                       (exists rest', rest = ConsoleLog (MigrationCompleted i) :: rest')
                       /\ recorded d' i
                   | Some err =>
                       (exists rest', rest = ConsoleError (MigrationFailed i err) :: rest')
                       /\ ~ recorded d' i
                   end)
        /\ (bookkeepingAsCreated d ->
            bookkeepingAsCreated d'
            /\ (c = true -> ConsoleLog MigrationsCheckComplete ∈ E)
            /\ forall before q after,
                 E = before ++ ConsoleLog (RunningMigration i) :: Sent q None :: after ->
                 exists rest,
                   after = Sent (recordMigration i) None
                           :: ConsoleLog (MigrationCompleted i) :: rest))
  /\ (bookkeepingAsCreated db ->
      forall earlier E later,
        h = earlier ++ E :: later ->
        (exists before q after,
           E = before ++ ConsoleLog (RunningMigration i) :: Sent q None :: after) ->
        i ∈ completedIn E /\ Forall (fun E' => i ∉ attemptedIn E') later).
Proof.
  cbv zeta.
  assert (forall c random d,
            (recorded d i ->
             i ∉ attemptedIn (eventsOf (runMigrations SALT_ROUNDS digest c random) d))
            /\ (~ recorded d i -> i ∈ fixedIds ->
                ConsoleLog MigrationsCheckComplete
                  ∈ eventsOf (runMigrations SALT_ROUNDS digest c random) d ->
                exists m before r after,
                  m ∈ migrations SALT_ROUNDS digest random /\ id m = i
                  /\ eventsOf (runMigrations SALT_ROUNDS digest c random) d
                     = before ++ ConsoleLog (RunningMigration i) :: Sent (sql m) r :: after)
            /\ (forall before q after,
                  eventsOf (runMigrations SALT_ROUNDS digest c random) d
                  = before ++ ConsoleLog (RunningMigration i) :: Sent q None :: after ->
                  exists r rest,
                    after = Sent (recordMigration i) r :: rest
                    /\ match r with
                       | None =>
                           (exists rest', rest = ConsoleLog (MigrationCompleted i) :: rest')
                           /\ recorded (dbAfter (runMigrations SALT_ROUNDS digest c random) d) i
                       | Some err =>
                           (exists rest',
                              rest = ConsoleError (MigrationFailed i err) :: rest')
                           /\ ~ recorded
                                  (dbAfter (runMigrations SALT_ROUNDS digest c random) d) i
                       end)
            /\ (bookkeepingAsCreated d ->
                bookkeepingAsCreated (dbAfter (runMigrations SALT_ROUNDS digest c random) d)
                /\ (c = true ->
                    ConsoleLog MigrationsCheckComplete
                      ∈ eventsOf (runMigrations SALT_ROUNDS digest c random) d)
                /\ forall before q after,
                     eventsOf (runMigrations SALT_ROUNDS digest c random) d
                     = before ++ ConsoleLog (RunningMigration i) :: Sent q None :: after ->
                     exists rest,
                       after = Sent (recordMigration i) None
                               :: ConsoleLog (MigrationCompleted i) :: rest)) as Hrun.
  { intros c random d. unfold runMigrations.
    set (ms := migrations SALT_ROUNDS digest random).
    assert (forallb (sqlSpares "migrations") ms = true) as Hms by reflexivity.
    pose proof (fixed_list_NoDup SALT_ROUNDS digest random) as Hnd. fold ms in Hnd.
    destruct (run_facts c ms d Hnd) as (Hskip & _).
    destruct (run_progress c ms d i Hnd Hms) as (Hsent & Hnext & Hcreated).
    split; [apply Hskip|]. split; [|split; [exact Hnext|]].
    - intros Hnr Hin. apply Hsent; [exact Hnr|].
      unfold ms. rewrite migrations_ids. exact Hin.
    - intros Hb. destruct (Hcreated Hb) as (Hb' & Hreach & _).
      split; [exact Hb'|]. split; [exact Hreach|].
      intros before q after H.
      exact (accepted_sql_completes c ms d i before q after Hnd Hms Hb H). }
  revert db.
  induction runs as [|[c random] runs IH]; intros db.
  { cbn. split; [|split; [|split; [|split; [|split]]]].
    - intros earlier E later Heq. destruct earlier; discriminate.
    - constructor.
    - constructor.
    - rewrite app_nil_r. reflexivity.
    - exact Hrun.
    - intros _ earlier E later Heq. destruct earlier; discriminate. }
  cbn [startups dbAfterStartups map concat].
  set (ms := migrations SALT_ROUNDS digest random).
  assert (forallb (sqlSpares "migrations") ms = true) as Hms by reflexivity.
  pose proof (fixed_list_NoDup SALT_ROUNDS digest random) as Hnd. fold ms in Hnd.
  destruct (Hrun c random db) as (_ & _ & _ & Hcreated).
  revert Hcreated.
  unfold runMigrations at 1 2 3 4 5 6 7 8 9 10. fold ms.
  set (E1 := eventsOf (withConnection c (migrate ms)) db).
  set (db1 := dbAfter (withConnection c (migrate ms)) db).
  intros Hcreated.
  destruct (run_facts c ms db Hnd) as (_ & Hnd1 & Hsub & Hcompl). fold E1 in Hnd1, Hsub, Hcompl.
  destruct (IH db1) as (IHa & IHb & IHc & IHd & _ & IHf).
  assert (forall j, j ∈ completedIn E1 ->
            Forall (fun E' => j ∉ attemptedIn E') (startups SALT_ROUNDS digest runs db1))
    as Hlater.
  { intros j Hj. apply startups_recorded.
    apply recorded_after_run; [exact Hms|]. right. exact Hj. }
  split; [|split; [|split; [|split; [|split]]]].
  - intros [|E0 earlier] E later Heq Hin.
    + injection Heq as <- <-. apply Hlater. exact Hin.
    + injection Heq as _ Heq. eapply IHa; eassumption.
  - constructor; [|exact IHb]. split; [exact Hnd1|].
    intros before after H. destruct (Hcompl i before after H) as (m & b' & Hin & Hi & Hb).
    exists random, m, b'. auto.
  - apply NoDup_app. split; [|split].
    + exact (sublist_NoDup _ _ Hnd1 Hsub).
    + intros j Hj Hin. apply list_elem_of_In, in_concat in Hin as (l & Hl & Hjl).
      apply in_map_iff in Hl as (E' & <- & HE').
      specialize (Hlater j Hj). rewrite List.Forall_forall in Hlater.
      apply (Hlater E' HE').
      pose proof (startups_completed_sublist SALT_ROUNDS digest runs db1) as Hall.
      rewrite List.Forall_forall in Hall.
      eapply elem_of_sublist; [apply list_elem_of_In; exact Hjl | apply (Hall E' HE')].
    + exact IHc.
  - rewrite IHd. unfold db1. rewrite run_appliedIds by exact Hms. fold E1.
    rewrite <- app_assoc, map_app. reflexivity.
  - exact Hrun.
  - intros Hb. destruct (Hcreated Hb) as (Hb1 & _ & Hdone).
    unfold runMigrations at 1 2. fold ms. fold E1. fold db1.
    intros [|E0 earlier] E later Heq (before & q & after & HE).
    + injection Heq as <- <-.
      destruct (Hdone before q after HE) as [rest ->].
      assert (i ∈ completedIn E1) as Hin by (rewrite HE; apply completion_in_events).
      split; [exact Hin | apply Hlater; exact Hin].
    + injection Heq as _ Heq. eapply (IHf Hb1); [exact Heq | eauto].
Qed.

(** C4 as stated fails in two ways.  On a fresh installation started
    twice, the SQL of migration 11 is sent in the first run and again in
    the second, it is rejected both times, and no bookkeeping row for 11
    is ever created.  And on a database whose bookkeeping table has a
    second column that must be given, started twice, the SQL of
    migration 1 is accepted in the first run and again in the second:
    the insert of its id is rejected both times, so its row is never
    created. *)
Lemma a_migration_can_be_executed_on_every_startup :
  let runs := [(true, saltA); (true, saltB)] in
  let h := startups 10 exampleDigest runs freshDatabase in
  let h' := startups 10 exampleDigest runs annotatedBookkeeping in
  let usersSql := [CreateTableIfNotExists "users" usersColumns []] in
  (map (fun E => count_occ Z.eq_dec (attemptedIn E) 11) h = [1%nat; 1%nat]
   /\ map (fun E => count_occ Event_eq_dec E
                      (Sent avatarSql (Some (ER_DUP_FIELDNAME "avatarUrl")))) h
      = [1%nat; 1%nat]
   /\ map (fun E => count_occ Z.eq_dec (completedIn E) 11) h = [0%nat; 0%nat]
   /\ ~ recorded (dbAfterStartups 10 exampleDigest runs freshDatabase) 11)
  /\ (map (fun E => count_occ Event_eq_dec E (Sent usersSql None)) h' = [1%nat; 1%nat]
      /\ map (fun E => count_occ Event_eq_dec E
                         (Sent (recordMigration 1)
                            (Some (ER_NO_DEFAULT_FOR_FIELD "note")))) h'
         = [1%nat; 1%nat]
      /\ map (fun E => count_occ Z.eq_dec (completedIn E) 1) h' = [0%nat; 0%nat]
      /\ ~ recorded (dbAfterStartups 10 exampleDigest runs annotatedBookkeeping) 1).
Proof.
  cbv zeta. split.
  - split; [vm_compute; reflexivity|]. split; [vm_compute; reflexivity|].
    split; [vm_compute; reflexivity|].
    intros H%list_elem_of_In. vm_compute in H. intuition discriminate.
  - split; [vm_compute; reflexivity|]. split; [vm_compute; reflexivity|].
    split; [vm_compute; reflexivity|].
    intros H%list_elem_of_In. vm_compute in H. intuition discriminate.
Qed.

(* ===================================================================== *)
(** ** The repair pass on the schema *)
(* ===================================================================== *)

Lemma dbAfter_checkAndAddColumn t c d db :
  dbAfter (checkAndAddColumn t c d) db = applyRepair (AddIfMissing t c d) db.
Proof.
  unfold dbAfter. rewrite checkAndAddColumn_run. cbn [applyRepair].
  destruct (Nat.eqb _ 0); [reflexivity|].
  destruct (db !! t); [|reflexivity].
  destruct (bool_decide _); reflexivity.
Qed.

Lemma dbAfter_modifyIfPresent t c d a w db :
  dbAfter (modifyIfPresent t c d a w) db = applyRepair (ModifyIfPresent t c d) db.
Proof.
  unfold dbAfter. rewrite modifyIfPresent_run. cbn [applyRepair].
  destruct (db !! t); [|reflexivity].
  destruct (Nat.ltb 0 _); [|reflexivity].
  destruct (bool_decide _); reflexivity.
Qed.

Lemma dbAfter_columnRules rules db :
  dbAfter (forOf rules (fun '(t, c, d) => checkAndAddColumn t c d)) db
  = applyRepairs (map (fun '(t, c, d) => AddIfMissing t c d) rules) db.
Proof.
  revert db. induction rules as [|[[t c] d] rules IH]; intros db; [reflexivity|].
  cbn [forOf map]. rewrite dbAfter_seq by apply fulfils_checkAndAddColumn.
  rewrite IH, dbAfter_checkAndAddColumn. reflexivity.
Qed.

(** The database after [ensureCriticalSchema] is the list of repairs
    applied in order. *)
Lemma dbAfter_repairs db : dbAfter repairs db = applyRepairs repairList db.
Proof.
  unfold repairs, repairColumns, repairList, applyRepairs.
  rewrite fold_left_app.
  rewrite !dbAfter_seq by solve_fulfils.
  rewrite !dbAfter_modifyIfPresent, dbAfter_columnRules. reflexivity.
Qed.

Lemma tableNames_spec db n : n ∈ tableNames db <-> is_Some (db !! n).
Proof.
  unfold tableNames. split.
  - intros H. apply list_elem_of_fmap in H as ([k T] & -> & H).
    apply elem_of_map_to_list in H. cbn. eauto.
  - intros [T H]. apply list_elem_of_fmap. exists (n, T).
    split; [reflexivity|]. apply elem_of_map_to_list. exact H.
Qed.

Lemma matchingTables_nonempty t db :
  Nat.eqb (length (matchingTables t db)) 0 = false <-> hasMatch t db.
Proof.
  unfold matchingTables, hasMatch. split.
  - intros H. destruct (filter _ (tableNames db)) as [|n l] eqn:E; [discriminate|].
    assert (n ∈ filter (fun n => like t n = true) (tableNames db)) as Hin
      by (rewrite E; left).
    apply list_elem_of_filter in Hin as [Hlike Hin].
    exists n. split; [apply tableNames_spec; exact Hin | exact Hlike].
  - intros (n & Hn & Hlike).
    assert (n ∈ filter (fun n => like t n = true) (tableNames db)) as Hin.
    { apply list_elem_of_filter. split; [exact Hlike | apply tableNames_spec; exact Hn]. }
    destruct (filter _ (tableNames db)); [inversion Hin | reflexivity].
Qed.

Lemma fields_addColumn c d T : fields (addColumn c d T) = fields T ++ [c].
Proof. unfold fields, addColumn. cbn [columns]. rewrite map_app. reflexivity. Qed.

Lemma fields_modifyColumn c d T : fields (modifyColumn c d T) = fields T.
Proof.
  unfold fields, modifyColumn. cbn [columns]. rewrite map_map.
  apply map_ext. intros col. destruct (String.eqb (Field col) c); reflexivity.
Qed.

Lemma addColumn_changes c d T : addColumn c d T <> T.
Proof.
  intros H. apply (f_equal (fun T => length (columns T))) in H.
  cbn [addColumn columns] in H. rewrite length_app in H. cbn in H. lia.
Qed.

(** A repair keeps the tables that exist, creates none, and drops no
    column. *)
Lemma applyRepair_grows r db n :
  match db !! n with
  | None => applyRepair r db !! n = None
  | Some T => exists T', applyRepair r db !! n = Some T'
                         /\ forall c, c ∈ fields T -> c ∈ fields T'
  end.
Proof.
  assert (match db !! n with
          | None => db !! n = None
          | Some T => exists T', db !! n = Some T' /\ forall c, c ∈ fields T -> c ∈ fields T'
          end) as Hsame by (destruct (db !! n); eauto).
  assert (forall t T T0, db !! t = Some T ->
            (forall c, c ∈ fields T -> c ∈ fields T0) ->
            match db !! n with
            | None => <[t := T0]> db !! n = None
            | Some T1 => exists T', <[t := T0]> db !! n = Some T'
                                    /\ forall c, c ∈ fields T1 -> c ∈ fields T'
            end) as Hins.
  { intros t T T0 Ht Hsub. destruct (decide (t = n)) as [->|Hne].
    - rewrite Ht. rewrite lookup_insert_eq. eauto.
    - rewrite lookup_insert_ne by exact Hne. destruct (db !! n); eauto. }
  destruct r as [t c d|t c d]; cbn [applyRepair].
  - destruct (Nat.eqb _ 0); [exact Hsame|].
    destruct (db !! t) as [T|] eqn:Et; [|exact Hsame].
    destruct (bool_decide _); [exact Hsame|].
    apply (Hins t T); [exact Et|]. intros c0 Hc0.
    rewrite fields_addColumn. apply elem_of_app. left. exact Hc0.
  - destruct (db !! t) as [T|] eqn:Et; [|exact Hsame].
    destruct (Nat.ltb 0 _); [|exact Hsame].
    destruct (bool_decide _); [|exact Hsame].
    apply (Hins t T); [exact Et|]. intros c0 Hc0.
    rewrite fields_modifyColumn. exact Hc0.
Qed.

Lemma applyRepair_hasMatch r t db : hasMatch t (applyRepair r db) -> hasMatch t db.
Proof.
  intros (n & [T' Hn] & Hlike). exists n. split; [|exact Hlike].
  pose proof (applyRepair_grows r db n) as H.
  destruct (db !! n); [eauto|]. congruence.
Qed.

(** A repair that has just run has nothing left to do. *)
Lemma applyRepair_settles r db : settled r (applyRepair r db).
Proof.
  unfold settled. destruct r as [t c d|t c d]; cbn [applyRepair].
  - destruct (Nat.eqb (length (matchingTables t db)) 0) eqn:Em.
    { rewrite Em. reflexivity. }
    destruct (db !! t) as [T|] eqn:Et.
    2:{ rewrite Em, Et. reflexivity. }
    destruct (bool_decide (c ∈ fields T)) eqn:Ec.
    { rewrite Em, Et, Ec. reflexivity. }
    rewrite lookup_insert_eq.
    destruct (Nat.eqb (length (matchingTables t (<[t:=addColumn c d T]> db))) 0);
      [reflexivity|].
    rewrite bool_decide_eq_true_2; [reflexivity|].
    rewrite fields_addColumn. apply elem_of_app. right. left.
  - destruct (db !! t) as [T|] eqn:Et.
    2:{ rewrite Et. reflexivity. }
    destruct (Nat.ltb 0 _) eqn:El.
    2:{ rewrite Et, El. reflexivity. }
    destruct (bool_decide (c ∈ fields T)) eqn:Ec.
    2:{ rewrite Et, El, Ec. reflexivity. }
    rewrite lookup_insert_eq. clear El Ec.
    destruct (Nat.ltb 0 (length (filter _ (columns (modifyColumn c d T)))));
      [|reflexivity].
    destruct (bool_decide (c ∈ fields (modifyColumn c d T))); [|reflexivity].
    rewrite insert_insert_eq. f_equal.
    unfold modifyColumn. cbn [columns rows]. f_equal.
    rewrite map_map. apply map_ext. intros col.
    destruct (String.eqb (Field col) c) eqn:E; cbn [Field]; rewrite E; reflexivity.
Qed.

(** No later repair gives a settled [AddIfMissing] anything to do. *)
Lemma settled_add_kept t c d r' db :
  settled (AddIfMissing t c d) db -> settled (AddIfMissing t c d) (applyRepair r' db).
Proof.
  unfold settled. intros Hs. cbn [applyRepair] in *.
  set (db' := applyRepair r' db) in *.
  destruct (Nat.eqb (length (matchingTables t db')) 0) eqn:Em'; [reflexivity|].
  destruct (db' !! t) as [T'|] eqn:Et'; [|reflexivity].
  destruct (bool_decide (c ∈ fields T')) eqn:Ec'; [reflexivity|].
  exfalso.
  apply matchingTables_nonempty, applyRepair_hasMatch, matchingTables_nonempty in Em'.
  rewrite Em' in Hs.
  pose proof (applyRepair_grows r' db t) as Hg. fold db' in Hg.
  destruct (db !! t) as [T|] eqn:Et; [|congruence].
  destruct Hg as (T1 & HT1 & Hsub). rewrite Et' in HT1. injection HT1 as <-.
  destruct (bool_decide (c ∈ fields T)) eqn:Ec.
  - apply bool_decide_eq_true in Ec. apply Hsub in Ec.
    apply bool_decide_eq_false in Ec'. contradiction.
  - apply (f_equal (fun m => m !! t)) in Hs. rewrite lookup_insert_eq, Et in Hs.
    injection Hs as Hs. exact (addColumn_changes _ _ _ Hs).
Qed.

Lemma modifyColumn_matches c c' d' T :
  length (filter (fun col => like c (Field col) = true) (columns (modifyColumn c' d' T)))
  = length (filter (fun col => like c (Field col) = true) (columns T)).
Proof.
  unfold modifyColumn. cbn [columns].
  induction (columns T) as [|col cols IH]; [reflexivity|].
  cbn [map]. rewrite !filter_cons.
  assert (Field (if String.eqb (Field col) c'
                 then {| Field := Field col; definition := d' |} else col)
          = Field col) as -> by (destruct (String.eqb (Field col) c'); reflexivity).
  destruct (decide (like c (Field col) = true)); cbn [length]; rewrite IH; reflexivity.
Qed.

Lemma modifyColumn_commute c d c' d' T :
  c <> c' ->
  modifyColumn c d (modifyColumn c' d' T) = modifyColumn c' d' (modifyColumn c d T).
Proof.
  intros Hne. unfold modifyColumn. cbn [columns rows]. f_equal.
  rewrite !map_map. apply map_ext. intros col.
  destruct (String.eqb (Field col) c') eqn:E'; destruct (String.eqb (Field col) c) eqn:E;
    cbn [Field]; rewrite ?E, ?E'; try reflexivity.
  apply String.eqb_eq in E, E'. congruence.
Qed.

(** A settled [ModifyIfPresent] stays settled under a modification of
    another column. *)
Lemma settled_modify_kept t c d t' c' d' db :
  t <> t' \/ c <> c' ->
  settled (ModifyIfPresent t c d) db ->
  settled (ModifyIfPresent t c d) (applyRepair (ModifyIfPresent t' c' d') db).
Proof.
  unfold settled. intros Hne Hs.
  cbn [applyRepair] in Hs.
  change (applyRepair (ModifyIfPresent t' c' d') db)
    with (match db !! t' with
          | None => db
          | Some T =>
              if Nat.ltb 0 (length (filter (fun col => like c' (Field col) = true) (columns T)))
              then if bool_decide (c' ∈ fields T) then <[t' := modifyColumn c' d' T]> db else db
              else db
          end).
  destruct (db !! t') as [T'|] eqn:Et'; [|exact Hs].
  destruct (Nat.ltb 0 (length (filter (fun col => like c' (Field col) = true) (columns T'))));
    [|exact Hs].
  destruct (bool_decide (c' ∈ fields T')); [|exact Hs].
  cbn [applyRepair].
  destruct (decide (t = t')) as [->|Htt].
  - destruct Hne as [Hne|Hne]; [contradiction|].
    rewrite Et' in Hs. rewrite lookup_insert_eq.
    rewrite modifyColumn_matches, fields_modifyColumn.
    destruct (Nat.ltb 0 _); [|reflexivity].
    destruct (bool_decide (c ∈ fields T')); [|reflexivity].
    apply (f_equal (fun m => m !! t')) in Hs. rewrite lookup_insert_eq, Et' in Hs.
    injection Hs as Hs.
    rewrite insert_insert_eq, modifyColumn_commute, Hs by exact Hne. reflexivity.
  - rewrite lookup_insert_ne by congruence.
    destruct (db !! t) as [T|] eqn:Et; [|reflexivity].
    destruct (Nat.ltb 0 _); [|reflexivity].
    destruct (bool_decide (c ∈ fields T)); [|reflexivity].
    apply (f_equal (fun m => m !! t)) in Hs. rewrite lookup_insert_eq, Et in Hs.
    injection Hs as Hs. rewrite Hs. apply insert_id.
    rewrite lookup_insert_ne by congruence. exact Et.
Qed.

Lemma settled_kept r r' db :
  keeps r r' = true -> settled r db -> settled r (applyRepair r' db).
Proof.
  destruct r as [t c d|t c d].
  - intros _. apply settled_add_kept.
  - destruct r' as [t' c' d'|t' c' d']; cbn [keeps]; [discriminate|].
    intros Hk. apply settled_modify_kept.
    apply negb_true_iff, andb_false_iff in Hk as [Hk|Hk];
      apply String.eqb_neq in Hk; auto.
Qed.

Lemma settled_through r rs : forall db,
  forallb (keeps r) rs = true -> settled r db -> settled r (applyRepairs rs db).
Proof.
  induction rs as [|r' rs IH]; intros db Hk Hs; [exact Hs|].
  cbn [forallb] in Hk. apply andb_prop in Hk as [Hk Hks].
  cbn [applyRepairs fold_left]. apply IH; [exact Hks|].
  apply settled_kept; assumption.
Qed.

Lemma applyRepairs_settles rs : forall db r,
  ordered rs = true -> r ∈ rs -> settled r (applyRepairs rs db).
Proof.
  induction rs as [|r0 rs IH]; intros db r Ho Hin; [inversion Hin|].
  cbn [ordered] in Ho. apply andb_prop in Ho as [Hk Ho].
  cbn [applyRepairs fold_left]. apply elem_of_cons in Hin as [->|Hin].
  - apply settled_through; [exact Hk | apply applyRepair_settles].
  - apply IH; assumption.
Qed.

Lemma applyRepairs_settled rs db :
  (forall r, r ∈ rs -> settled r db) -> applyRepairs rs db = db.
Proof.
  induction rs as [|r rs IH]; intros Hs; [reflexivity|].
  cbn [applyRepairs fold_left]. rewrite (Hs r) by left.
  apply IH. intros r' Hr'. apply Hs. right. exact Hr'.
Qed.

Lemma repairList_ordered : ordered repairList = true.
Proof. vm_compute. reflexivity. Qed.

Lemma dbAfter_ensureCriticalSchema_twice db :
  dbAfter ensureCriticalSchema (dbAfter ensureCriticalSchema db)
  = dbAfter ensureCriticalSchema db.
Proof.
  rewrite !dbAfter_ensureCriticalSchema, !dbAfter_repairs.
  apply applyRepairs_settled. intros r Hr.
  apply applyRepairs_settles; [apply repairList_ordered | exact Hr].
Qed.

(** C9: after one repair pass a second pass, and any number of further
    passes, leave the whole database (schema and rows) as the first pass
    left it; and each single repair, for any table, column and
    definition, changes nothing when it is run again. *)
Theorem repair_pass_is_idempotent (db : DB) :
  let pass := dbAfter ensureCriticalSchema in
  pass (pass db) = pass db
  /\ (forall n : nat, Nat.iter n pass (pass db) = pass db)
  /\ (forall t c d,
        dbAfter (checkAndAddColumn t c d) (dbAfter (checkAndAddColumn t c d) db)
        = dbAfter (checkAndAddColumn t c d) db)
  /\ (forall t c d a w,
        dbAfter (modifyIfPresent t c d a w) (dbAfter (modifyIfPresent t c d a w) db)
        = dbAfter (modifyIfPresent t c d a w) db).
Proof.
  cbv zeta. split; [apply dbAfter_ensureCriticalSchema_twice|]. split; [|split].
  - induction n as [|n IH]; [reflexivity|].
    rewrite Nat.iter_succ, IH. apply dbAfter_ensureCriticalSchema_twice.
  - intros t c d. rewrite !dbAfter_checkAndAddColumn. apply applyRepair_settles.
  - intros t c d a w. rewrite !dbAfter_modifyIfPresent. apply applyRepair_settles.
Qed.

(* ===================================================================== *)
(** ** One repair rule *)
(* ===================================================================== *)

Lemma like_chars_plain p : forall s,
  Forall plainChar p -> like_chars p s = true -> s = p.
Proof.
  induction p as [|ch p IH]; intros s Hp H.
  - destruct s; [reflexivity | discriminate].
  - inversion Hp as [|? ? (H1 & H2 & H3) Hp']; subst.
    cbn [like_chars] in H.
    apply Ascii.eqb_neq in H1, H2, H3. rewrite H1, H2, H3 in H.
    destruct s as [|x s]; [discriminate|].
    apply andb_prop in H as [Hx Hs]. apply Ascii.eqb_eq in Hx. subst x.
    f_equal. apply IH; assumption.
Qed.

Lemma like_plain t n : plain t -> like t n = true -> n = t.
Proof.
  unfold like, plain. intros Hp H.
  apply like_chars_plain in H; [|exact Hp].
  rewrite <- (string_of_list_ascii_of_string n), H.
  apply string_of_list_ascii_of_string.
Qed.

(** For a plain table name that is not in the database the rule is
    skipped: one probe, no console line, no change. *)
Lemma checkAndAddColumn_absent t c d db :
  plain t -> db !! t = None ->
  checkAndAddColumn t c d db = (Fulfilled tt, db, [Sent [ShowTablesLike t] None]).
Proof.
  intros Hp Hnone. rewrite checkAndAddColumn_run.
  destruct (Nat.eqb (length (matchingTables t db)) 0) eqn:E; [reflexivity|].
  exfalso. apply matchingTables_nonempty in E as (n & [T Hn] & Hlike).
  apply like_plain in Hlike; [|exact Hp]. congruence.
Qed.

(** Where the table is found and has the column, the rule is skipped
    after its two probes, without a console line. *)
Lemma checkAndAddColumn_present t c d db T :
  hasMatch t db -> db !! t = Some T -> c ∈ fields T ->
  checkAndAddColumn t c d db
  = (Fulfilled tt, db,
     [Sent [ShowTablesLike t] None; Sent [ShowColumnsFrom t None] None]).
Proof.
  intros Hm HT Hc. rewrite checkAndAddColumn_run.
  apply matchingTables_nonempty in Hm. rewrite Hm, HT.
  rewrite bool_decide_eq_true_2 by exact Hc. reflexivity.
Qed.

(** Where the table is found and lacks the column, the repair is
    announced and the ALTER adds the column with its definition. *)
Lemma checkAndAddColumn_missing t c d db T :
  hasMatch t db -> db !! t = Some T -> c ∉ fields T ->
  checkAndAddColumn t c d db
  = (Fulfilled tt, <[t := addColumn c d T]> db,
     [Sent [ShowTablesLike t] None; Sent [ShowColumnsFrom t None] None;
      ConsoleLog (AutoRepairAdding c t);
      Sent [AlterTableAddColumn t c d] None]).
Proof.
  intros Hm HT Hc. rewrite checkAndAddColumn_run.
  apply matchingTables_nonempty in Hm. rewrite Hm, HT.
  rewrite bool_decide_eq_false_2 by exact Hc. reflexivity.
Qed.

(** C6 on the code: the rule for [equipment_history] is not skipped
    silently on [strayDatabase], although the table does not exist.
    SHOW TABLES LIKE finds the other table, SHOW COLUMNS is then rejected,
    and the rejection is caught and written to the console as an error.
    No table is created and the function fulfils, so the next rules run. *)
Theorem underscore_in_table_name_defeats_the_existence_probe :
  strayDatabase !! "equipment_history" = None
  /\ checkAndAddColumn "equipment_history" "equipment_id" (def INT []) strayDatabase
     = (Fulfilled tt, strayDatabase,
        [Sent [ShowTablesLike "equipment_history"] None;
         Sent [ShowColumnsFrom "equipment_history" None]
           (Some (ER_NO_SUCH_TABLE "equipment_history"));
         ConsoleError (ErrorCheckingColumn "equipment_id" "equipment_history"
                         (ER_NO_SUCH_TABLE "equipment_history"))]).
Proof. split; vm_compute; reflexivity. Qed.

(* ===================================================================== *)
(** ** The seeded administrative account *)
(* ===================================================================== *)

Lemma string_app_cons x (a b : string) :
  (String x a ++ b)%string = String x (a ++ b)%string.
Proof. reflexivity. Qed.

Lemma string_app_inv_length (a b c d : string) :
  String.length a = String.length b -> (a ++ c)%string = (b ++ d)%string -> a = b.
Proof.
  revert b. induction a as [|x a IH]; intros [|y b] Hlen H; try discriminate.
  - reflexivity.
  - rewrite !string_app_cons in H. cbn in Hlen. injection H as -> H.
    f_equal. apply IH; [lia | exact H].
Qed.

Lemma string_app_inv_head (p a b : string) :
  (p ++ a)%string = (p ++ b)%string -> a = b.
Proof. apply String.app_inj. Qed.

Lemma string_app_assoc (a b c : string) :
  ((a ++ b) ++ c)%string = (a ++ (b ++ c))%string.
Proof.
  induction a as [|x a IH]; [reflexivity|].
  rewrite !string_app_cons. f_equal. exact IH.
Qed.

(** The hash starts with the salt it was built with: two hashes for the
    same cost that agree were built with the same salt. *)
Lemma hashSync_salt digest s s' rounds random random' :
  String.length random = String.length random' ->
  Bcrypt.hashSync digest s rounds random = Bcrypt.hashSync digest s' rounds random' ->
  random = random'.
Proof.
  unfold Bcrypt.hashSync, Bcrypt.genSaltSync. intros Hlen H.
  set (r := Bcrypt.clampRounds rounds) in *.
  rewrite !string_app_assoc in H.
  apply string_app_inv_head in H. apply string_app_inv_head in H.
  apply string_app_inv_head in H. apply string_app_inv_head in H.
  eapply string_app_inv_length; eassumption.
Qed.

(** C7, as the code has it: the SQL of migration 7 in the built list is
    the seed statement with the hash as a literal value, the hash being
    computed by [hashSync] from the plaintext, SALT_ROUNDS and the salt
    drawn at that build; and two builds, whose salts have the same
    length, produce the same hash exactly when they drew the same salt. *)
Theorem admin_hash_is_fixed_by_the_salt_of_the_build
    SALT_ROUNDS digest (random random' : string) :
  String.length random = String.length random' ->
  let hash r := Bcrypt.hashSync digest "marceloadmin" SALT_ROUNDS r in
  {| id := 7; sql := [seedAdmin (hash random)] |} ∈ migrations SALT_ROUNDS digest random
  /\ (hash random = hash random' <-> random = random')
  /\ (migrations SALT_ROUNDS digest random = migrations SALT_ROUNDS digest random'
      <-> random = random').
Proof.
  intros Hlen. cbv zeta. split; [|split].
  - apply list_elem_of_In. cbn. tauto.
  - split; [apply hashSync_salt; exact Hlen | intros ->; reflexivity].
  - split; [|intros ->; reflexivity].
    intros H.
    assert (Bcrypt.hashSync digest "marceloadmin" SALT_ROUNDS random
            = Bcrypt.hashSync digest "marceloadmin" SALT_ROUNDS random') as Hv
      by exact (f_equal (fun ms => match nth 6 ms {| id := 0; sql := [] |} with
                                   | {| sql := [InsertInto _ _ _ [_; _; _; VStr h; _]] |} => h
                                   | _ => ""%string
                                   end) H).
    eapply hashSync_salt; [exact Hlen | exact Hv].
Qed.

Lemma admin_hash_witness :
  String.length saltA = String.length saltB
  /\ (Bcrypt.hashSync exampleDigest "marceloadmin" 10 saltA
      = Bcrypt.hashSync exampleDigest "marceloadmin" 10 saltB
      <-> saltA = saltB).
Proof.
  assert (String.length saltA = String.length saltB) as H by reflexivity.
  split; [exact H|].
  exact (proj1 (proj2 (admin_hash_is_fixed_by_the_salt_of_the_build
                         10 exampleDigest saltA saltB H))).
Defined.

(** C7 as stated fails: the hash is not a function of the plaintext and
    the salt rounds alone.  Two builds that draw different salts give
    different hashes, and so different seed statements. *)
Lemma two_builds_give_two_hashes :
  ~ (forall (digest : string -> nat -> string -> string) (random random' : string),
       Bcrypt.hashSync digest "marceloadmin" 10 random
       = Bcrypt.hashSync digest "marceloadmin" 10 random')
  /\ migrations 10 exampleDigest saltA <> migrations 10 exampleDigest saltB.
Proof.
  split.
  - intros H. specialize (H exampleDigest saltA saltB). vm_compute in H. discriminate.
  - intros H. vm_compute in H. discriminate.
Qed.

Lemma intCell_le_max c rs r :
  r ∈ rs -> intCell c r <= fold_right Z.max 0 (map (intCell c) rs).
Proof.
  induction rs as [|r0 rs IH]; intros Hin; [inversion Hin|].
  cbn [map fold_right]. apply elem_of_cons in Hin as [->|Hin]; [lia|].
  specialize (IH Hin). lia.
Qed.

Lemma nextAutoIncrement_fresh c T :
  existsb (holds c (VInt (nextAutoIncrement c T))) (rows T) = false.
Proof.
  apply not_true_is_false. intros H.
  apply existsb_exists in H as (r & Hin & Hr).
  apply bool_decide_eq_true in Hr.
  pose proof (intCell_le_max c (rows T) r (proj2 (list_elem_of_In _ _) Hin)) as Hle.
  unfold intCell in Hle at 1. rewrite Hr in Hle.
  unfold nextAutoIncrement in Hle. lia.
Qed.








(* ===================================================================== *)
(** ** What the critical-schema check guarantees *)
(* ===================================================================== *)

Lemma extendsTable_refl T : extendsTable T T.
Proof.
  split; [reflexivity|]. induction (rows T); constructor; [reflexivity|assumption].
Qed.

Lemma extendsTable_trans T1 T2 T3 :
  extendsTable T1 T2 -> extendsTable T2 T3 -> extendsTable T1 T3.
Proof.
  intros [Hf Hr] [Hf' Hr']. split; [etrans; eassumption|].
  revert Hr'. generalize (rows T3). induction Hr as [|r r2 l l2 Hp _ IH]; intros l3 H3.
  - inversion H3; subst. constructor.
  - inversion H3 as [|? r3 ? l3' Hp' Hl' ]; subst. constructor.
    + etrans; eassumption.
    + apply IH. exact Hl'.
Qed.

Lemma extendsDB_refl db : extendsDB db db.
Proof.
  intros n. destruct (db !! n) as [T|]; [|reflexivity].
  exists T. split; [reflexivity | apply extendsTable_refl].
Qed.

Lemma extendsDB_trans a b c : extendsDB a b -> extendsDB b c -> extendsDB a c.
Proof.
  intros Hab Hbc n. specialize (Hab n). specialize (Hbc n).
  destruct (a !! n) as [T|].
  - destruct Hab as (T' & Hb & HT). rewrite Hb in Hbc.
    destruct Hbc as (T'' & Hc & HT'). exists T''. split; [exact Hc|].
    eapply extendsTable_trans; eassumption.
  - rewrite Hab in Hbc. exact Hbc.
Qed.

Lemma extendsDB_insert db t T T0 :
  db !! t = Some T -> extendsTable T T0 -> extendsDB db (<[t := T0]> db).
Proof.
  intros Ht HT n. destruct (decide (t = n)) as [->|Hne].
  - rewrite Ht, lookup_insert_eq. eauto.
  - rewrite lookup_insert_ne by exact Hne.
    destruct (db !! n) as [T1|]; [|reflexivity].
    exists T1. split; [reflexivity | apply extendsTable_refl].
Qed.

Lemma extendsTable_addColumn c d T : extendsTable T (addColumn c d T).
Proof.
  split.
  - rewrite fields_addColumn. apply prefix_app_r. reflexivity.
  - unfold addColumn. cbn [rows]. induction (rows T) as [|r l IH]; constructor.
    + apply prefix_app_r. reflexivity.
    + exact IH.
Qed.

Lemma extendsTable_modifyColumn c d T : extendsTable T (modifyColumn c d T).
Proof.
  split.
  - rewrite fields_modifyColumn. reflexivity.
  - unfold modifyColumn. cbn [rows]. induction (rows T); constructor;
      [reflexivity | assumption].
Qed.

Lemma applyRepair_extends r db : extendsDB db (applyRepair r db).
Proof.
  destruct r as [t c d|t c d]; cbn [applyRepair].
  - destruct (Nat.eqb _ 0); [apply extendsDB_refl|].
    destruct (db !! t) as [T|] eqn:Et; [|apply extendsDB_refl].
    destruct (bool_decide _); [apply extendsDB_refl|].
    eapply extendsDB_insert; [exact Et | apply extendsTable_addColumn].
  - destruct (db !! t) as [T|] eqn:Et; [|apply extendsDB_refl].
    destruct (Nat.ltb 0 _); [|apply extendsDB_refl].
    destruct (bool_decide _); [|apply extendsDB_refl].
    eapply extendsDB_insert; [exact Et | apply extendsTable_modifyColumn].
Qed.

Lemma applyRepairs_extends rs : forall db, extendsDB db (applyRepairs rs db).
Proof.
  induction rs as [|r rs IH]; intros db; cbn [applyRepairs fold_left].
  - apply extendsDB_refl.
  - eapply extendsDB_trans; [apply applyRepair_extends | apply IH].
Qed.

(** X1: the critical-schema check creates and drops no table and leaves
    the tables outside its list exactly as they were.  Every table keeps
    its column names, in order, may gain columns after them, and keeps
    the number of its rows.  In the tables that only receive ADD COLUMN
    ([licenses], [equipment], [users]) every row keeps its cells and may
    gain cells after them.  Nothing is said of the cells of the two
    tables that receive MODIFY COLUMN, which the server may convert. *)
Theorem schema_check_only_extends (db : DB) :
  let db' := dbAfter ensureCriticalSchema db in
  (forall t, is_Some (db' !! t) <-> is_Some (db !! t))
  /\ (forall t, t ∉ repairedTables -> db' !! t = db !! t)
  /\ (forall t T, db !! t = Some T ->
        exists T', db' !! t = Some T'
                   /\ fields T `prefix_of` fields T'
                   /\ length (rows T') = length (rows T))
  /\ (forall t T, t ∈ grownTables -> db !! t = Some T ->
        exists T', db' !! t = Some T' /\ extendsTable T T').
Proof.
  cbv zeta. rewrite dbAfter_ensureCriticalSchema.
  assert (extendsDB db (dbAfter repairs db)) as Hext
    by (rewrite dbAfter_repairs; apply applyRepairs_extends).
  split; [|split; [|split]].
  - intros t. specialize (Hext t). destruct (db !! t) as [T|].
    + destruct Hext as (T' & -> & _). split; eauto.
    + rewrite Hext. reflexivity.
  - intros t Ht. apply (repairs_frame t Ht db).
  - intros t T Ht. specialize (Hext t). rewrite Ht in Hext.
    destruct Hext as (T' & HT' & Hf & Hr). exists T'.
    split; [exact HT'|]. split; [exact Hf|].
    symmetry. exact (Forall2_length _ _ _ Hr).
  - intros t T _ Ht. specialize (Hext t). rewrite Ht in Hext. exact Hext.
Qed.

Lemma rule_tables_match_themselves :
  Forall (fun '(t, _, _) => like t t = true) columnRules.
Proof. repeat apply List.Forall_cons; try apply List.Forall_nil; reflexivity. Qed.

(** X2: for every [checkAndAddColumn] call whose table existed before
    the check, the table is still there afterwards, the columns it had
    come first in their order, and either the column of the call is among
    its columns or the check wrote the call's "Error checking column"
    line to the error console (a server that refuses the ALTER, as MySQL
    does for a name that differs from an existing one in case only, ends
    in the second case). *)
Theorem schema_check_adds_every_listed_column (db : DB) t c d T :
  (t, c, d) ∈ columnRules -> db !! t = Some T ->
  exists T', dbAfter ensureCriticalSchema db !! t = Some T'
             /\ fields T `prefix_of` fields T'
             /\ (c ∈ fields T'
                 \/ exists err, ConsoleError (ErrorCheckingColumn c t err)
                                  ∈ eventsOf ensureCriticalSchema db).
Proof.
  intros Hrule Ht. rewrite dbAfter_ensureCriticalSchema, dbAfter_repairs.
  pose proof (applyRepairs_extends repairList db t) as Hext. rewrite Ht in Hext.
  destruct Hext as (T' & Ht' & Hf & _). exists T'. split; [exact Ht'|]. split; [exact Hf|].
  left.
  assert (AddIfMissing t c d ∈ repairList) as Hin.
  { unfold repairList. apply elem_of_app. left.
    apply (list_elem_of_fmap_2 (fun '(t, c, d) => AddIfMissing t c d) _ (t, c, d)).
    exact Hrule. }
  pose proof (applyRepairs_settles repairList db _ repairList_ordered Hin) as Hs.
  unfold settled in Hs. cbn [applyRepair] in Hs.
  assert (like t t = true) as Hlike.
  { pose proof rule_tables_match_themselves as Hall.
    rewrite List.Forall_forall in Hall.
    apply (Hall (t, c, d)). apply list_elem_of_In. exact Hrule. }
  assert (Nat.eqb (length (matchingTables t (applyRepairs repairList db))) 0 = false) as Hm.
  { apply matchingTables_nonempty. exists t. split; [eauto | exact Hlike]. }
  rewrite Hm, Ht' in Hs.
  destruct (bool_decide (c ∈ fields T')) eqn:Ec.
  - apply bool_decide_eq_true in Ec. exact Ec.
  - exfalso. apply (f_equal (fun m : DB => m !! t)) in Hs.
    rewrite lookup_insert_eq, Ht' in Hs. injection Hs as Hs.
    exact (addColumn_changes _ _ _ Hs).
Qed.

Lemma schema_check_adds_every_listed_column_witness :
  exists T T',
    installed !! "equipment" = Some T
    /\ dbAfter ensureCriticalSchema installed !! "equipment" = Some T'
    /\ fields T `prefix_of` fields T'
    /\ ("brand" ∈ fields T'
        \/ exists err, ConsoleError (ErrorCheckingColumn "brand" "equipment" err)
                         ∈ eventsOf ensureCriticalSchema installed).
Proof.
  assert (exists T, installed !! "equipment" = Some T) as [T HT]
    by (eexists; vm_compute; reflexivity).
  assert (("equipment", "brand", def (VARCHAR 100) []) ∈ columnRules) as Hrule.
  { apply list_elem_of_In. vm_compute. repeat (first [left; reflexivity | right]). }
  destruct (schema_check_adds_every_listed_column installed _ _ _ T Hrule HT)
    as (T' & HT' & Hp & Hc).
  exists T, T'. auto.
Defined.

Lemma legacy_columns_match_themselves :
  Forall (fun '(_, c, _) => like c c = true) legacyRules.
Proof. repeat apply List.Forall_cons; try apply List.Forall_nil; reflexivity. Qed.

Lemma modifyColumn_fixed c d T col :
  modifyColumn c d T = T -> col ∈ columns T -> Field col = c -> definition col = d.
Proof.
  intros H Hin Hf. apply (f_equal columns) in H. unfold modifyColumn in H. cbn [columns] in H.
  induction (columns T) as [|x l IH]; [inversion Hin|].
  cbn [map] in H. injection H as Hx Hl.
  apply elem_of_cons in Hin as [->|Hin]; [|exact (IH Hl Hin)].
  rewrite Hf, String.eqb_refl in Hx. rewrite <- Hx. reflexivity.
Qed.

(** X3: after the critical-schema check, a column [equipmentId] of
    [equipment_history] has type INT, no default and accepts NULL, and a
    column [timestamp] of [equipment_history] or of [audit_log] has type
    DATETIME and the default CURRENT_TIMESTAMP, whatever they were
    before; or else the check wrote the "Auto-repair warning" line of
    that column to the error console (a server that refuses the MODIFY,
    as MySQL does for NULL on a column of the primary key, ends in the
    second case).  Nothing is said of the key of the column, which
    MODIFY leaves to the indexes of the table. *)
Theorem schema_check_relaxes_legacy_columns (db : DB) t c d T' col :
  (t, c, d) ∈ legacyRules ->
  dbAfter ensureCriticalSchema db !! t = Some T' ->
  col ∈ columns T' -> Field col = c ->
  (sqlType (definition col) = sqlType d
   /\ dflt (definition col) = dflt d
   /\ (c = "equipmentId" -> notNull (definition col) = false))
  \/ exists err, ConsoleError (legacyWarning t c err) ∈ eventsOf ensureCriticalSchema db.
Proof.
  intros Hrule. rewrite dbAfter_ensureCriticalSchema, dbAfter_repairs.
  intros Ht' Hcol Hf. left.
  assert (ModifyIfPresent t c d ∈ repairList) as Hin.
  { unfold repairList. apply elem_of_app. right.
    apply (list_elem_of_fmap_2 (fun '(t, c, d) => ModifyIfPresent t c d) _ (t, c, d)) in Hrule.
    exact Hrule. }
  pose proof (applyRepairs_settles repairList db _ repairList_ordered Hin) as Hs.
  unfold settled in Hs. cbn [applyRepair] in Hs. rewrite Ht' in Hs.
  assert (like c c = true) as Hlike.
  { pose proof legacy_columns_match_themselves as Hall.
    rewrite List.Forall_forall in Hall.
    apply (Hall (t, c, d)). apply list_elem_of_In. exact Hrule. }
  assert (c ∈ fields T') as Hc.
  { unfold fields. rewrite <- Hf. apply list_elem_of_fmap_2. exact Hcol. }
  assert (Nat.ltb 0 (length (filter (fun col => like c (Field col) = true) (columns T')))
          = true) as Hn.
  { apply Nat.ltb_lt.
    assert (col ∈ filter (fun col => like c (Field col) = true) (columns T')) as Hm.
    { apply list_elem_of_filter. split; [rewrite Hf; exact Hlike | exact Hcol]. }
    destruct (filter _ (columns T')); [inversion Hm | cbn; lia]. }
  rewrite Hn in Hs. rewrite (bool_decide_eq_true_2 _ Hc) in Hs.
  apply (f_equal (fun m : DB => m !! t)) in Hs.
  rewrite lookup_insert_eq, Ht' in Hs. injection Hs as Hs.
  rewrite (modifyColumn_fixed _ _ _ _ Hs Hcol Hf).
  split; [reflexivity|]. split; [reflexivity|].
  intros ->. apply list_elem_of_In in Hrule. cbn in Hrule.
  destruct Hrule as [H|[H|[H|[]]]]; inversion H; reflexivity.
Qed.

Lemma schema_check_relaxes_legacy_columns_witness :
  exists T' col,
    dbAfter ensureCriticalSchema legacyDatabase !! "equipment_history" = Some T'
    /\ col ∈ columns T'
    /\ Field col = "equipmentId"
    /\ ((sqlType (definition col) = INT
         /\ dflt (definition col) = NoDefault
         /\ notNull (definition col) = false)
        \/ exists err, ConsoleError (legacyWarning "equipment_history" "equipmentId" err)
                         ∈ eventsOf ensureCriticalSchema legacyDatabase).
Proof.
  assert (exists T' col,
            dbAfter ensureCriticalSchema legacyDatabase !! "equipment_history" = Some T'
            /\ col ∈ columns T' /\ Field col = "equipmentId") as (T' & col & HT' & Hcol & Hf).
  { eexists _, _. split; [vm_compute; reflexivity|].
    split; [apply list_elem_of_In; right; left; reflexivity | reflexivity]. }
  exists T', col. split; [exact HT'|]. split; [exact Hcol|]. split; [exact Hf|].
  assert (("equipment_history", "equipmentId", def INT [NULL]) ∈ legacyRules) as Hrule
    by (apply list_elem_of_In; cbn; left; reflexivity).
  destruct (schema_check_relaxes_legacy_columns legacyDatabase "equipment_history"
              "equipmentId" (def INT [NULL]) T' col Hrule HT' Hcol Hf)
    as [(Hty & Hd & Hn)|Hw].
  - left. split; [exact Hty|]. split; [exact Hd|]. apply Hn. reflexivity.
  - right. exact Hw.
Defined.

(* ===================================================================== *)
(** ** The connection and the outcome of a run *)
(* ===================================================================== *)

(** X4: [runMigrations] never rejects.  Whatever the pool, the database
    and the statements do, the promise that it returns fulfils, so the
    caller is never stopped by a failed startup pass. *)
Theorem runMigrations_never_rejects SALT_ROUNDS digest (connectable : bool) random db :
  outcomeOf (runMigrations SALT_ROUNDS digest connectable random) db = Fulfilled tt.
Proof. apply fulfils_withConnection. Qed.

Lemma count_occ_Forall_0 {A} (dec : forall x y : A, {x = y} + {x <> y}) (P : A -> Prop) l x :
  Forall P l -> ~ P x -> count_occ dec l x = 0%nat.
Proof.
  intros Hl Hx. induction Hl as [|y l Hy _ IH]; [reflexivity|].
  cbn [count_occ]. destruct (dec y x) as [->|_]; [contradiction | exact IH].
Qed.

Lemma repairs_connection db e :
  e = GetConnection \/ e = Release ->
  count_occ Event_eq_dec (eventsOf repairs db) e = 0%nat.
Proof.
  intros He. apply (count_occ_Forall_0 _ repairTraffic); [apply repairs_traffic|].
  destruct He as [-> | ->]; exact (fun H => H).
Qed.

Lemma migrationLoop_connection ex ms db e :
  e = GetConnection \/ e = Release ->
  count_occ Event_eq_dec (eventsOf (migrationLoop ex ms) db) e = 0%nat.
Proof.
  intros He. apply (count_occ_Forall_0 _ (migrationTraffic ms));
    [apply migrationLoop_traffic|].
  destruct He as [-> | ->]; exact (fun H => H).
Qed.


(** X5: a run takes a connection at most once and releases it exactly
    when it took one.  With a pool that hands out a connection, taking
    it is the second event and releasing it the last, whatever fails in
    between.  With a pool that hands out none, nothing is released, no
    statement is sent and the database is left as it was. *)
Theorem connection_is_released_exactly_when_obtained
    SALT_ROUNDS digest (connectable : bool) random db :
  let run := runMigrations SALT_ROUNDS digest connectable random in
  let E := eventsOf run db in
  let once := if connectable then 1%nat else 0%nat in
  count_occ Event_eq_dec E GetConnection = once
  /\ count_occ Event_eq_dec E Release = once
  /\ (connectable = true ->
      E !! 1%nat = Some GetConnection /\ last E = Some Release)
  /\ (connectable = false ->
      dbAfter run db = db /\ List.filter isSent E = []).
Proof.
  cbv zeta. unfold runMigrations, eventsOf at 1 2 3 4 5, dbAfter.
  destruct (run_view connectable (migrations SALT_ROUNDS digest random) db)
    as [Hc | e Hc He | rs Hc Hs]; subst connectable; cbn [fst snd].
  - repeat split; try reflexivity; discriminate.
  - repeat split; try reflexivity; try discriminate.
  - rewrite !count_occ_app.
    rewrite !(repairs_connection _ GetConnection), !(repairs_connection _ Release),
      !(migrationLoop_connection _ _ _ GetConnection),
      !(migrationLoop_connection _ _ _ Release) by auto.
    repeat split; try reflexivity; try discriminate.
    rewrite !last_app. reflexivity.
Qed.

(** The loop accounts for every migration of its list: skipped because
    recorded, completed, or reported as failed. *)
Lemma migrationLoop_accounts ex ms : forall db m,
  m ∈ ms ->
  has ex (id m) = true
  \/ id m ∈ completedIn (eventsOf (migrationLoop ex ms) db)
  \/ exists e, ConsoleError (MigrationFailed (id m) e) ∈ eventsOf (migrationLoop ex ms) db.
Proof.
  induction ms as [|m0 ms IH]; intros db m Hin; [inversion Hin|].
  destruct (migrationLoop_cons ex m0 ms db) as [_ ->].
  rewrite completedIn_app.
  apply elem_of_cons in Hin as [->|Hin].
  - unfold eventsOf at 1 3. rewrite applyMigration_run.
    destruct (has ex (id m0)) eqn:Eh; [left; reflexivity|]. right.
    destruct (execQuery (sql m0) db) as [db1 [e|r1]].
    + right. exists e. apply elem_of_app. left. cbn [snd].
      apply list_elem_of_In. cbn. auto.
    + destruct (execQuery (recordMigration (id m0)) db1) as [db2 [e|r2]].
      * right. exists e. apply elem_of_app. left. cbn [snd].
        apply list_elem_of_In. cbn. auto.
      * left. apply elem_of_app. left. cbn. left.
  - destruct (IH (dbAfter (applyMigration ex m0) db) m Hin) as [H|[H|[e H]]].
    + left. exact H.
    + right. left. apply elem_of_app. right. exact H.
    + right. right. exists e. apply elem_of_app. right. exact H.
Qed.

(** X6: a run that reaches its closing console line accounts for every
    migration of the fixed list: afterwards the id is recorded in the
    bookkeeping table, or the run wrote the failure of that migration to
    the console. *)
Theorem every_migration_is_recorded_or_reported
    SALT_ROUNDS digest (connectable : bool) random db (i : Z) :
  let run := runMigrations SALT_ROUNDS digest connectable random in
  ConsoleLog MigrationsCheckComplete ∈ eventsOf run db ->
  i ∈ fixedIds ->
  recorded (dbAfter run db) i
  \/ exists e, ConsoleError (MigrationFailed i e) ∈ eventsOf run db.
Proof.
  cbv zeta. intros Hdone Hi. unfold runMigrations in *.
  set (ms := migrations SALT_ROUNDS digest random) in *.
  assert (forallb (sqlSpares "migrations") ms = true) as Hsp
    by apply fixed_list_spares_bookkeeping.
  rewrite (recorded_after_run _ _ _ _ Hsp).
  assert (exists m, m ∈ ms /\ id m = i) as (m & Hm & <-).
  { rewrite <- (migrations_ids SALT_ROUNDS digest random) in Hi.
    apply list_elem_of_fmap in Hi as (m & -> & Hm). exists m. split; [exact Hm|reflexivity]. }
  unfold eventsOf in *.
  destruct (run_view connectable ms db) as [Hc | e Hc He | rs Hc Hs]; cbn [snd] in *.
  - apply list_elem_of_In in Hdone. cbn in Hdone.
    destruct Hdone as [H|[H|[]]]; discriminate.
  - apply list_elem_of_In in Hdone. cbn in Hdone.
    repeat (destruct Hdone as [Hdone|Hdone]; [discriminate|]). destruct Hdone.
  - destruct (migrationLoop_accounts (appliedIds db) ms
                (dbAfter repairs (createBookkeeping db)) m Hm) as [H|[H|[e H]]].
    + left. left. apply recorded_has. exact H.
    + left. right. rewrite !completedIn_app.
      apply elem_of_app. right. apply elem_of_app. right.
      apply elem_of_app. right. apply elem_of_app. left. exact H.
    + right. exists e.
      apply elem_of_app. right. apply elem_of_app. right.
      apply elem_of_app. right. apply elem_of_app. left. exact H.
Qed.

Lemma every_migration_is_recorded_or_reported_witness :
  recorded installed 11
  \/ exists e, ConsoleError (MigrationFailed 11 e) ∈ eventsOf (startup saltA) freshDatabase.
Proof.
  apply (every_migration_is_recorded_or_reported 10 exampleDigest true saltA freshDatabase 11).
  - apply list_elem_of_In. vm_compute. repeat (first [left; reflexivity | right]).
  - apply list_elem_of_In. vm_compute. repeat (first [left; reflexivity | right]).
Defined.

(* ===================================================================== *)
(** ** The login route *)
(* ===================================================================== *)

Import Sql Server Api ApiFacts.
Local Open Scope list_scope.

Lemma row_get_omit names k (r : Row) : k ∈ names -> row_get k (omit names r) = None.
Proof.
  intros Hk. unfold omit. induction r as [|[k' v] r IH]; [reflexivity|].
  cbn [List.filter fst]. destruct (bool_decide (k' ∈ names)) eqn:E; cbn [negb].
  - exact IH.
  - cbn [row_get]. destruct (String.eqb k k') eqn:Ek; [|exact IH].
    apply String.eqb_eq in Ek. subst k'.
    apply bool_decide_eq_false in E. contradiction.
Qed.

Section RouteFacts.

Variable sqlEq : Value -> Value -> bool.
Variable compareSync : string -> string -> option bool.

Lemma poolQuery_select cols t c param db :
  poolQuery sqlEq (SelectWhere cols t c param) db
  = match db !! t with
    | None => (inl (QueryError (ER_NO_SUCH_TABLE t)), db)
    | Some T =>
        match unknownColumn T (default [] cols ++ [c]) with
        | Some x => (inl (QueryError (ER_BAD_FIELD_ERROR x)), db)
        | None => (inr (map (pick cols) (List.filter (matches sqlEq c param) (rows T))), db)
        end
    end.
Proof.
  unfold poolQuery, execDml. destruct (db !! t) as [T|]; [|reflexivity].
  destruct (unknownColumn T _); reflexivity.
Qed.

Lemma select_accounts username db users :
  poolQuery sqlEq (SelectWhere None "users" "username" (VStr username)) db = (inr users, db) ->
  users = accounts sqlEq username db.
Proof.
  rewrite poolQuery_select. unfold accounts, rowsOf.
  destruct (db !! "users") as [T|]; [|discriminate].
  destruct (unknownColumn T _); [discriminate|].
  intros [= <-]. cbn [pick]. apply map_id.
Qed.

Lemma login_view username password db :
  LoginView sqlEq compareSync username password db
    (login sqlEq compareSync username password db).
Proof.
  unfold login, handler, bind.
  destruct (poolQuery sqlEq (SelectWhere None "users" "username" (VStr username)) db)
    as [[e|users] db1] eqn:Eq.
  { rewrite poolQuery_select in Eq.
    destruct (db !! "users") as [T|]; [|injection Eq as <- <-; constructor].
    destruct (unknownColumn T _); [injection Eq as <- <-; constructor | discriminate]. }
  assert (db1 = db) as ->.
  { rewrite poolQuery_select in Eq. destruct (db !! "users") as [T|]; [|congruence].
    destruct (unknownColumn T _); congruence. }
  apply select_accounts in Eq.
  destruct users as [|user rest]; [apply NotFound; congruence|]. symmetry in Eq.
  destruct (jsTruthy (row_get "ssoProvider" user)) eqn:Esso;
    [eapply SsoAccount; eassumption|].
  destruct (comparePassword compareSync password (row_get "password" user) db)
    as [[e|valid] db2] eqn:Ec.
  { unfold comparePassword in Ec.
    assert (e = BcryptError /\ db2 = db) as [-> ->].
    { destruct (row_get "password" user) as [[| |hash]|]; try (injection Ec; auto; fail).
      destruct (compareSync password hash); [discriminate | injection Ec; auto]. }
    eapply NoHash; eassumption. }
  unfold comparePassword in Ec.
  destruct (row_get "password" user) as [[| |hash]|] eqn:Eh; try discriminate.
  destruct (compareSync password hash) as [b|] eqn:Eb; [|discriminate].
  injection Ec as <- <-.
  destruct b; cbn [negb]; [|eapply WrongPassword; eassumption].
  eapply Accepted; try eassumption.
  rewrite poolQuery_select.
  destruct (db !! "app_config") as [C|]; [|apply SettingsFailed].
  destruct (unknownColumn C _); [apply SettingsFailed|].
  unfold poolQuery at 1. cbn [execDml].
  destruct (db !! "users") as [U|] eqn:EU; [|apply StampFailed].
  destruct (unknownColumn U _); [apply StampFailed|].
  fold (stamped sqlEq (bound (row_get "id" user)) U).
  unfold poolQuery, auditLogin. cbn [execDml].
  destruct (insertInto false "audit_log" _ _ _) as [e|[db' rs]] eqn:Ei.
  - eapply AuditFailed; [exact EU | exact Ei].
  - assert (rs = []) as ->.
    { unfold insertInto in Ei. destruct (_ !! "audit_log"); [|discriminate].
      destruct (negb _); [discriminate|]. destruct (find _ _); [discriminate|].
      destruct (buildRow _ _ _ _); [discriminate|].
      destruct (find _ _); [discriminate|]. injection Ei as _ <-. reflexivity. }
    eapply LoggedIn; [exact EU | exact Ei].
Qed.

End RouteFacts.

Lemma insertInto_plain_appends t cols vals db db' rs :
  insertInto false t cols vals db = inr (db', rs) ->
  exists T row,
    db !! t = Some T
    /\ db' = <[t := appendRow row T]> db
    /\ buildRow false T (combine cols vals) (columns T) = inr row
    /\ forall c, c ∈ cols -> c ∈ fields T.
Proof.
  unfold insertInto. destruct (db !! t) as [T|]; [|discriminate].
  destruct (negb _); [discriminate|].
  destruct (find _ cols) eqn:Ef; [discriminate|].
  destruct (buildRow false T (combine cols vals) (columns T)) as [e|row] eqn:Eb;
    [discriminate|].
  destruct (find (conflicts T row) (columns T)); [discriminate|].
  intros [= <- _]. exists T, row.
  split; [reflexivity|]. split; [reflexivity|]. split; [exact Eb|].
  intros c Hc. apply list_elem_of_In in Hc.
  pose proof (find_none _ _ Ef c Hc) as Hn. cbn in Hn.
  apply negb_false_iff, bool_decide_eq_true in Hn. exact Hn.
Qed.

(** A cell that the statement lists, and that is not NULL, is stored as
    it was given. *)
Lemma buildRow_given ignore T given cols row c v :
  buildRow ignore T given cols = inr row ->
  c ∈ map Field cols -> row_get c given = Some v -> v <> VNull ->
  row_get c row = Some v.
Proof.
  revert row. induction cols as [|col cols IH]; intros row Hb Hin Hg Hv.
  - inversion Hin.
  - cbn [buildRow] in Hb.
    destruct (cellFor ignore T given col) as [e|x] eqn:Ec; [discriminate|].
    destruct (buildRow ignore T given cols) as [e|r] eqn:Er; [discriminate|].
    injection Hb as <-. cbn [row_get].
    destruct (String.eqb c (Field col)) eqn:Ef.
    + apply String.eqb_eq in Ef. subst c. unfold cellFor in Ec. rewrite Hg in Ec.
      destruct v; [contradiction| |]; injection Ec as <-; reflexivity.
    + apply IH; try assumption; [reflexivity|].
      cbn [map] in Hin. apply elem_of_cons in Hin as [->|Hin]; [|exact Hin].
      rewrite String.eqb_refl in Ef. discriminate.
Qed.

Section LoginFacts.

Variable sqlEq : Value -> Value -> bool.
Variable compareSync : string -> string -> option bool.

(** X7: whatever the request and the database, a response of the login
    route that carries a user carries neither the [password] nor the
    [twoFASecret] property of the account. *)
Theorem login_never_discloses_the_password_hash (username password : string) (db : DB) :
  match body (login sqlEq compareSync username password db).1 with
  | UserJson user _ =>
      row_get "password" user = None /\ row_get "twoFASecret" user = None
  | MessageJson _ | ErrorJson _ => True
  end.
Proof.
  destruct (login_view sqlEq compareSync username password db)
    as [ | | | | |user rest hash result _ _ _ _ Hafter]; cbn; try exact I.
  destruct Hafter; cbn; try exact I.
  split; apply row_get_omit; set_solver.
Qed.

(** X8: a login answered with status 401 (unknown user, SSO account or
    wrong password) has written nothing: the database is the one before
    the request, and the password check did not pass. *)
Theorem refused_login_writes_nothing (username password : string) (db : DB) :
  status (login sqlEq compareSync username password db).1 = 401%nat ->
  (login sqlEq compareSync username password db).2 = db
  /\ ~ accepted sqlEq compareSync username password db.
Proof.
  destruct (login_view sqlEq compareSync username password db)
    as [e|Hn|user rest Ha Hs|user rest Ha Hs Hc|user rest hash Ha Hs Hp Hc
        |user rest hash result _ _ _ _ Hafter]; cbn; try discriminate.
  - intros _. split; [reflexivity|]. intros (u & r & h & Hacc & _). congruence.
  - intros _. split; [reflexivity|]. intros (u & r & h & Hacc & Hs' & _).
    rewrite Ha in Hacc. injection Hacc as <- _. congruence.
  - intros _. split; [reflexivity|]. intros (u & r & h & Hacc & _ & Hp' & Hc').
    rewrite Ha in Hacc. injection Hacc as <- _. congruence.
  - destruct Hafter; cbn; discriminate.
Qed.

(** X9: a login is answered with status 200 only if the password check
    passed: the first account that the query returns for the username is
    no SSO account and [bcrypt.compareSync] accepts the password for the
    hash it stores. *)
Theorem login_succeeds_only_with_the_password (username password : string) (db : DB) :
  status (login sqlEq compareSync username password db).1 = 200%nat ->
  accepted sqlEq compareSync username password db.
Proof.
  destruct (login_view sqlEq compareSync username password db)
    as [e|Hn|user rest Ha Hs|user rest Ha Hs Hc|user rest hash Ha Hs Hp Hc
        |user rest hash result Ha Hs Hp Hc Hafter]; cbn; try discriminate.
  intros _. exists user, rest, hash. auto.
Qed.

(** X10: a login answered with status 200 has stamped [lastLogin] in the
    rows of [users] with the id of the account, and has appended one row
    to [audit_log] that names the username, the action LOGIN and the
    target type USER; nothing else has changed. *)
Theorem successful_login_is_stamped_and_audited (username password : string) (db : DB) :
  let result := login sqlEq compareSync username password db in
  status result.1 = 200%nat ->
  exists user rest U A row,
    accounts sqlEq username db = user :: rest
    /\ db !! "users" = Some U
    /\ db !! "audit_log" = Some A
    /\ result.2 = <["audit_log" := appendRow row A]>
                    (<["users" := stamped sqlEq (bound (row_get "id" user)) U]> db)
    /\ row_get "username" row = Some (VStr username)
    /\ row_get "action_type" row = Some (VStr "LOGIN")
    /\ row_get "target_type" row = Some (VStr "USER")
    /\ row_get "details" row = Some (VStr "User logged in").
Proof.
  cbv zeta.
  destruct (login_view sqlEq compareSync username password db)
    as [e|Hn|user rest Ha Hs|user rest Ha Hs Hc|user rest hash Ha Hs Hp Hc
        |user rest hash result Ha Hs Hp Hc Hafter]; cbn; try discriminate.
  destruct Hafter as [e|e|U e HU Hi|U db' flag HU Hi]; cbn; try discriminate.
  intros _.
  apply insertInto_plain_appends in Hi as (A & row & HA & -> & Hb & Hcols).
  rewrite lookup_insert_ne in HA by discriminate.
  exists user, rest, U, A, row. repeat split; try assumption.
  all: eapply buildRow_given;
    [ exact Hb
    | apply Hcols, list_elem_of_In; cbn; repeat (first [left; reflexivity | right])
    | reflexivity
    | discriminate ].
Qed.

(** X11: the statements of a login are not one transaction.  On a
    database with the tables [users] and [app_config] of the migrations
    but without [audit_log], a login with the right password is answered
    with status 500, and the stamp of [lastLogin] that was written before
    the failure stays. *)
Theorem failed_audit_keeps_the_login_stamp
    (username password : string) (db : DB) (U C : Table) (user : Row) (rest : list Row)
    (hash : string) :
  db !! "users" = Some U -> columns U = usersColumns ->
  db !! "app_config" = Some C -> columns C = appConfigColumns ->
  db !! "audit_log" = None ->
  accounts sqlEq username db = user :: rest ->
  jsTruthy (row_get "ssoProvider" user) = false ->
  row_get "password" user = Some (VStr hash) ->
  compareSync password hash = Some true ->
  login sqlEq compareSync username password db
  = ({| status := 500;
        body := ErrorJson (QueryError (ER_NO_SUCH_TABLE "audit_log")) |},
     <["users" := stamped sqlEq (bound (row_get "id" user)) U]> db).
Proof.
  intros HU HcU HC HcC HA Hacc Hsso Hp Hc.
  unfold login, handler, bind. rewrite poolQuery_select, HU.
  unfold unknownColumn, fields. rewrite HcU. cbn [default app].
  change (find _ ["username"]) with (@None string).
  unfold accounts, rowsOf in Hacc. rewrite HU in Hacc. cbn [pick]. rewrite map_id, Hacc.
  rewrite Hsso. unfold comparePassword. rewrite Hp, Hc. unfold ret at 1. cbn [negb].
  rewrite poolQuery_select, HC. unfold unknownColumn, fields. rewrite HcC.
  change (find _ (default [] (Some ["config_value"]) ++ ["config_key"])) with (@None string).
  unfold poolQuery at 1. cbn [execDml]. rewrite HU.
  unfold unknownColumn, fields. rewrite HcU.
  change (find _ ["lastLogin"; "id"]) with (@None string).
  unfold poolQuery, auditLogin. cbn [execDml]. unfold insertInto.
  rewrite lookup_insert_ne by discriminate. rewrite HA.
  unfold stamped. rewrite HcU. reflexivity.
Qed.

End LoginFacts.

Lemma refused_login_writes_nothing_witness :
  (login exactEq plainCompare "admin" "guess" office).2 = office
  /\ ~ accepted exactEq plainCompare "admin" "guess" office.
Proof.
  apply (refused_login_writes_nothing exactEq plainCompare "admin" "guess" office).
  vm_compute. reflexivity.
Defined.

Lemma login_succeeds_only_with_the_password_witness :
  accepted exactEq plainCompare "admin" "secret" office.
Proof.
  apply (login_succeeds_only_with_the_password exactEq plainCompare "admin" "secret" office).
  vm_compute. reflexivity.
Defined.

Lemma successful_login_is_stamped_and_audited_witness :
  exists user rest U A row,
    accounts exactEq "admin" office = user :: rest
    /\ office !! "users" = Some U
    /\ office !! "audit_log" = Some A
    /\ (login exactEq plainCompare "admin" "secret" office).2
       = <["audit_log" := appendRow row A]>
           (<["users" := stamped exactEq (bound (row_get "id" user)) U]> office)
    /\ row_get "username" row = Some (VStr "admin")
    /\ row_get "action_type" row = Some (VStr "LOGIN")
    /\ row_get "target_type" row = Some (VStr "USER")
    /\ row_get "details" row = Some (VStr "User logged in").
Proof.
  apply (successful_login_is_stamped_and_audited exactEq plainCompare "admin" "secret" office).
  vm_compute. reflexivity.
Defined.

Lemma failed_audit_keeps_the_login_stamp_witness :
  login exactEq plainCompare "admin" "secret" unaudited
  = ({| status := 500;
        body := ErrorJson (QueryError (ER_NO_SUCH_TABLE "audit_log")) |},
     <["users" := stamped exactEq (VInt 1)
                    {| columns := usersColumns; rows := [adminRow 1 "secret"] |}]>
       unaudited).
Proof.
  apply (failed_audit_keeps_the_login_stamp exactEq plainCompare "admin" "secret" unaudited
           {| columns := usersColumns; rows := [adminRow 1 "secret"] |}
           {| columns := appConfigColumns; rows := [] |}
           (adminRow 1 "secret") [] "secret");
    vm_compute; reflexivity.
Defined.

Section LoginAccepts.

Variable sqlEq : Value -> Value -> bool.
Variable compareSync : string -> string -> option bool.

(** The audit row of a login, as the table of migration 5 stores it. *)
Lemma audit_insert_succeeds (username : string) (id : Value) (db : DB) (A : Table) :
  db !! "audit_log" = Some A -> columns A = auditLogColumns ->
  exists row,
    insertInto false "audit_log"
      ["username"; "action_type"; "target_type"; "target_id"; "details"; "timestamp"]
      [VStr username; VStr "LOGIN"; VStr "USER"; id; VStr "User logged in";
       current_timestamp] db
    = inr (<["audit_log" := appendRow row A]> db, []).
Proof.
  intros HA Hc. unfold insertInto. rewrite HA. cbn [length Nat.eqb negb].
  unfold fields. rewrite Hc.
  change (find _ ["username"; "action_type"; "target_type"; "target_id"; "details";
                  "timestamp"]) with (@None string).
  cbn [combine].
  set (row := [("id", VInt (nextAutoIncrement "id" A)); ("timestamp", current_timestamp);
               ("username", VStr username); ("action_type", VStr "LOGIN");
               ("target_type", VStr "USER"); ("target_id", id);
               ("details", VStr "User logged in")]).
  assert (buildRow false A
            [("username", VStr username); ("action_type", VStr "LOGIN");
             ("target_type", VStr "USER"); ("target_id", id);
             ("details", VStr "User logged in"); ("timestamp", current_timestamp)]
            auditLogColumns = inr row) as ->.
  { subst row. cbn. destruct id; reflexivity. }
  assert (find (conflicts A row) auditLogColumns = None) as ->.
  { cbn [auditLogColumns find]. unfold conflicts at 1. cbn.
    pose proof (nextAutoIncrement_fresh "id" A) as Hf. unfold holds in Hf. rewrite Hf.
    reflexivity. }
  exists row. reflexivity.
Qed.

(** X12: on the tables [users], [app_config] and [audit_log] as the
    migrations create them, the right password of an account that is no
    SSO account is accepted: the response has status 200 and carries the
    account without its [password] and [twoFASecret]. *)
Theorem login_accepts_the_right_password
    (username password : string) (db : DB) (U C A : Table) (user : Row) (rest : list Row)
    (hash : string) :
  db !! "users" = Some U -> columns U = usersColumns ->
  db !! "app_config" = Some C -> columns C = appConfigColumns ->
  db !! "audit_log" = Some A -> columns A = auditLogColumns ->
  accounts sqlEq username db = user :: rest ->
  jsTruthy (row_get "ssoProvider" user) = false ->
  row_get "password" user = Some (VStr hash) ->
  compareSync password hash = Some true ->
  exists flag,
    (login sqlEq compareSync username password db).1
    = {| status := 200; body := UserJson (omit ["password"; "twoFASecret"] user) flag |}.
Proof.
  intros HU HcU HC HcC HA HcA Hacc Hsso Hp Hc.
  unfold login, handler, bind. rewrite poolQuery_select, HU.
  unfold unknownColumn, fields. rewrite HcU. cbn [default app].
  change (find _ ["username"]) with (@None string).
  unfold accounts, rowsOf in Hacc. rewrite HU in Hacc. cbn [pick]. rewrite map_id, Hacc.
  rewrite Hsso. unfold comparePassword. rewrite Hp, Hc. unfold ret at 1. cbn [negb].
  rewrite poolQuery_select, HC. unfold unknownColumn, fields. rewrite HcC.
  change (find _ (default [] (Some ["config_value"]) ++ ["config_key"])) with (@None string).
  unfold poolQuery at 1. cbn [execDml]. rewrite HU.
  unfold unknownColumn, fields. rewrite HcU.
  change (find _ ["lastLogin"; "id"]) with (@None string).
  unfold poolQuery, auditLogin. cbn [execDml].
  edestruct (audit_insert_succeeds username (bound (row_get "id" user))) as [row ->];
    [rewrite lookup_insert_ne by discriminate; exact HA | exact HcA |].
  eexists. reflexivity.
Qed.

End LoginAccepts.

Lemma login_accepts_the_right_password_witness :
  exists flag,
    (login exactEq plainCompare "admin" "secret" office).1
    = {| status := 200;
         body := UserJson (omit ["password"; "twoFASecret"] (adminRow 1 "secret")) flag |}.
Proof.
  apply (login_accepts_the_right_password exactEq plainCompare "admin" "secret" office
           {| columns := usersColumns; rows := [adminRow 1 "secret"] |}
           {| columns := appConfigColumns; rows := [] |}
           {| columns := auditLogColumns; rows := [] |}
           (adminRow 1 "secret") [] "secret");
    vm_compute; reflexivity.
Defined.

(** X13: after the first startup on an empty database, the seeded
    administrator can log in with the password of the seed, for every
    salt and cost of that build: the response has status 200 and carries
    the account with role Admin and without its password hash.  What is
    asked of the parameters is that [bcrypt.compareSync] accepts the
    password for the hash that [bcrypt.hashSync] made of it, and that the
    server finds the username equal to itself. *)
Theorem seeded_admin_logs_in_after_installation
    (SALT_ROUNDS : nat) (digest : string -> nat -> string -> string) (random : string)
    (sqlEq : Value -> Value -> bool) (compareSync : string -> string -> option bool) :
  let hash := Bcrypt.hashSync digest "marceloadmin" SALT_ROUNDS random in
  compareSync "marceloadmin" hash = Some true ->
  sqlEq (VStr "admin") (VStr "admin") = true ->
  let db := dbAfter (runMigrations SALT_ROUNDS digest true random) freshDatabase in
  exists flag,
    (login sqlEq compareSync "admin" "marceloadmin" db).1
    = {| status := 200;
         body := UserJson
                   [("id", VInt 1); ("username", VStr "admin"); ("realName", VStr "Admin");
                    ("email", VStr "admin@example.com"); ("role", VStr "Admin");
                    ("lastLogin", VNull); ("is2FAEnabled", VInt 0);
                    ("ssoProvider", VNull); ("avatarUrl", VNull)]
                   flag |}.
Proof.
  cbv zeta. intros Hc Hrefl.
  set (hash := Bcrypt.hashSync digest "marceloadmin" SALT_ROUNDS random) in *.
  set (db := dbAfter (runMigrations SALT_ROUNDS digest true random) freshDatabase).
  assert (db !! "users" = Some {| columns := usersColumns; rows := [adminRow 1 hash] |})
    as HU by (vm_compute; reflexivity).
  assert (exists C, db !! "app_config" = Some C /\ columns C = appConfigColumns)
    as (C & HC & HcC) by (eexists; split; vm_compute; reflexivity).
  assert (db !! "audit_log" = Some {| columns := auditLogColumns; rows := [] |})
    as HA by (vm_compute; reflexivity).
  apply (login_accepts_the_right_password sqlEq compareSync "admin" "marceloadmin" db
           _ C _ (adminRow 1 hash) [] hash HU eq_refl HC HcC HA eq_refl);
    try reflexivity; [|exact Hc].
  unfold accounts, rowsOf. rewrite HU. cbn [rows List.filter].
  unfold matches. cbn [adminRow row_get String.eqb Ascii.eqb Bool.eqb]. cbn.
  rewrite Hrefl. reflexivity.
Qed.

Lemma seeded_admin_logs_in_after_installation_witness :
  exists flag,
    (login exactEq
       (fun s h => Some (String.eqb h (Bcrypt.hashSync exampleDigest s 10 saltA)))
       "admin" "marceloadmin" installed).1
    = {| status := 200;
         body := UserJson
                   [("id", VInt 1); ("username", VStr "admin"); ("realName", VStr "Admin");
                    ("email", VStr "admin@example.com"); ("role", VStr "Admin");
                    ("lastLogin", VNull); ("is2FAEnabled", VInt 0);
                    ("ssoProvider", VNull); ("avatarUrl", VNull)]
                   flag |}.
Proof.
  apply (seeded_admin_logs_in_after_installation 10 exampleDigest saltA exactEq
           (fun s h => Some (String.eqb h (Bcrypt.hashSync exampleDigest s 10 saltA))));
    vm_compute; reflexivity.
Defined.

(* ===================================================================== *)
(** ** The root component of the frontend *)
(* ===================================================================== *)

Import App AppRun.

Lemma enforceTwoFactor_cases w :
  enforceTwoFactor w = w
  \/ exists user,
       currentUser w = Some user /\ userFor2FASetup w = None
       /\ requires2FA w = true /\ is2FAEnabled user = false
       /\ currentUser (enforceTwoFactor w) = None
       /\ userFor2FASetup (enforceTwoFactor w) = Some user
       /\ userFor2FA (enforceTwoFactor w) = userFor2FA w
       /\ savedUser (enforceTwoFactor w) = savedUser w
       /\ savedTheme (enforceTwoFactor w) = savedTheme w
       /\ verified (enforceTwoFactor w) = verified w
       /\ isDarkMode (enforceTwoFactor w) = isDarkMode w
       /\ darkClass (enforceTwoFactor w) = darkClass w
       /\ companyName (enforceTwoFactor w) = companyName w
       /\ isSsoEnabled (enforceTwoFactor w) = isSsoEnabled w.
Proof.
  unfold enforceTwoFactor, requires2FA.
  destruct (currentUser w) as [user|] eqn:Eu; [|left; reflexivity].
  destruct (userFor2FASetup w) eqn:Es; [left; reflexivity|].
  destruct (default false (require2fa (globalSettings w))) eqn:Er; [|left; reflexivity].
  destruct (is2FAEnabled user) eqn:E2; [left; reflexivity|].
  right. exists user. cbn. repeat split; assumption || reflexivity.
Qed.

Lemma enforceTwoFactor_settled w : enforceTwoFactor (enforceTwoFactor w) = enforceTwoFactor w.
Proof.
  destruct (enforceTwoFactor_cases w) as [Hfix|(user & _ & _ & _ & _ & Hc & _)].
  - rewrite !Hfix. reflexivity.
  - unfold enforceTwoFactor at 1. rewrite Hc. reflexivity.
Qed.

Lemma run_snoc actions a w : run (actions ++ [a]) w = step a (run actions w).
Proof. unfold run. rewrite fold_left_app. reflexivity. Qed.

(** Every state that the application reaches is one on which the effect
    has nothing left to do. *)
Lemma run_settled actions h b :
  enforceTwoFactor (run actions (mount h b)) = run actions (mount h b).
Proof.
  destruct actions as [|a actions _] using rev_ind.
  - apply enforceTwoFactor_settled.
  - rewrite run_snoc. apply enforceTwoFactor_settled.
Qed.

(** Induction over the states that the application reaches. *)
Lemma reachable_ind (P : World -> Prop) h b :
  P (mount h b) ->
  (forall a w, P w -> P (step a w)) ->
  forall actions, P (run actions (mount h b)).
Proof.
  intros H0 Hstep actions. induction actions as [|a actions IH] using rev_ind.
  - exact H0.
  - rewrite run_snoc. apply Hstep. exact IH.
Qed.

(** X14: in every state that the application reaches, the user it holds
    as signed in is the user saved in [localStorage]. *)
Theorem signed_in_user_is_the_saved_user (actions : list Action) (h : bool) (b : World) :
  let w := run actions (mount h b) in
  forall user, currentUser w = Some user -> savedUser w = Some user.
Proof.
  cbv zeta. apply reachable_ind.
  - intros user. unfold mount.
    destruct (enforceTwoFactor_cases (restoreSession (initial h b)))
      as [->|(u & _ & _ & _ & _ & Hc & _)]; [|congruence].
    unfold restoreSession, loadSavedTheme, loadSavedUser. cbn.
    destruct (savedUser b) as [u|]; [|destruct (bool_decide _); discriminate].
    destruct (is2FAEnabled u && negb (truthy (verified b)));
      destruct (bool_decide _); cbn; congruence.
  - intros a w IH user. unfold step.
    destruct (enforceTwoFactor_cases (handle a w))
      as [->|(u & _ & _ & _ & _ & Hc & _)]; [|congruence].
    destruct a; cbn; try exact (IH user); try congruence.
    + unfold handleLoginSuccess.
      destruct (requires2FASetup user0); [exact (IH user)|].
      destruct (is2FAEnabled user0); [exact (IH user)|]. cbn. congruence.
    + unfold fetchSettings. destruct result; [cbn|]; exact (IH user).
Qed.

Lemma signed_in_user_is_the_saved_user_witness :
  savedUser (run [LoginSuccess bob] (mount false blank)) = Some bob.
Proof.
  apply (signed_in_user_is_the_saved_user [LoginSuccess bob] false blank bob).
  reflexivity.
Defined.

(** X15: in every state that the application reaches, once the effects
    of a render have run, the layout is not shown for a user without
    second factor while the settings in force require one. *)
Theorem required_second_factor_is_enforced (actions : list Action) (h : bool) (b : World) :
  let w := run actions (mount h b) in
  forall user,
    shownUser w = Some user -> requires2FA w = true -> is2FAEnabled user = true.
Proof.
  cbv zeta. intros user.
  pose proof (run_settled actions h b) as Hfix.
  generalize dependent (run actions (mount h b)). intros w Hfix.
  unfold shownUser, render, requires2FA. intros Hshown Hreq.
  destruct (userFor2FASetup w) eqn:Es; [discriminate|].
  destruct (userFor2FA w) eqn:Ea; [discriminate|].
  destruct (currentUser w) as [u|] eqn:Eu; [|discriminate].
  injection Hshown as ->.
  destruct (is2FAEnabled user) eqn:E2; [reflexivity|].
  unfold enforceTwoFactor in Hfix. rewrite Eu, Es, Hreq, E2 in Hfix.
  apply (f_equal currentUser) in Hfix. cbn in Hfix. congruence.
Qed.

Lemma required_second_factor_is_enforced_witness :
  let strict := {| settingsCompanyName := None; settingsIsSsoEnabled := None;
                   require2fa := Some true |} in
  let actions := [SettingsFetched (Some strict); VerificationSuccess alice;
                  LoginSuccess bob] in
  is2FAEnabled alice = true
  /\ render (run actions (mount false blank)) = TwoFactorSetup bob.
Proof.
  cbv zeta. split; [|reflexivity].
  apply (required_second_factor_is_enforced
           [SettingsFetched (Some {| settingsCompanyName := None;
                                     settingsIsSsoEnabled := None;
                                     require2fa := Some true |});
            VerificationSuccess alice] false blank alice); reflexivity.
Defined.


(** X17: after a logout, from any state, the login screen is shown, the
    saved user and the mark of the verified second factor are gone from
    the storages, and loading the page again shows the login screen. *)
Theorem logout_forgets_the_user (w : World) (h : bool) :
  let w' := step Logout w in
  render w' = Login (isSsoEnabled w)
  /\ savedUser w' = None /\ verified w' = None
  /\ render (mount h w') = Login false.
Proof.
  cbv zeta. repeat split.
  unfold mount, restoreSession, loadSavedTheme. cbn.
  destruct (bool_decide (savedTheme w = Some "dark")); reflexivity.
Qed.

Lemma enforceTwoFactor_storage w :
  savedUser (enforceTwoFactor w) = savedUser w
  /\ verified (enforceTwoFactor w) = verified w
  /\ savedTheme (enforceTwoFactor w) = savedTheme w.
Proof.
  destruct (enforceTwoFactor_cases w) as [->|(u & H)]; [auto|].
  decompose [and] H. auto.
Qed.

(** Loading the page depends on the storages only. *)
Lemma mount_storage h w w' :
  savedUser w = savedUser w' -> verified w = verified w' -> savedTheme w = savedTheme w' ->
  mount h w = mount h w'.
Proof.
  intros Hu Hv Ht. unfold mount, initial. rewrite Hu, Hv, Ht. reflexivity.
Qed.

Lemma mount_step h a w : mount h (step a w) = mount h (handle a w).
Proof.
  destruct (enforceTwoFactor_storage (handle a w)) as (Hu & Hv & Ht).
  apply mount_storage; assumption.
Qed.

Lemma mount_endSession_step h a w :
  mount h (endSession (step a w)) = mount h (endSession (handle a w)).
Proof.
  destruct (enforceTwoFactor_storage (handle a w)) as (Hu & Hv & Ht).
  apply mount_storage; cbn; first [assumption | reflexivity].
Qed.

(** X18: the second factor is asked once per browser session.  After the
    setup of the second factor, for any user, and after a verification,
    for a user who has a second factor, loading the page again in the
    same session shows the layout for the user; once the session has
    ended, loading the page asks that user for the second factor again.
    After the setup the user is the one given, with the second factor
    switched on. *)
Theorem second_factor_is_asked_once_per_session (user : User) (w : World) (h : bool) :
  let verifiedIn := step (VerificationSuccess user) w in
  let setUp := step (SetupSuccess user) w in
  shownUser (mount h setUp) = Some (withSecondFactor user)
  /\ render (mount h (endSession setUp)) = TwoFactorAuth (withSecondFactor user)
  /\ (is2FAEnabled user = true ->
      shownUser (mount h verifiedIn) = Some user
      /\ render (mount h (endSession verifiedIn)) = TwoFactorAuth user).
Proof.
  cbv zeta. rewrite !mount_step, !mount_endSession_step.
  unfold shownUser, mount, restoreSession, loadSavedTheme, loadSavedUser. cbn.
  split; [|split].
  - destruct (bool_decide (savedTheme w = Some "dark")); reflexivity.
  - destruct (bool_decide (savedTheme w = Some "dark")); reflexivity.
  - intros H2. rewrite H2. cbn.
    destruct (bool_decide (savedTheme w = Some "dark")); split; reflexivity.
Qed.

Lemma second_factor_is_asked_once_per_session_witness :
  is2FAEnabled bob = false
  /\ shownUser (mount false (step (SetupSuccess bob) blank)) = Some (withSecondFactor bob)
  /\ render (mount false (endSession (step (SetupSuccess bob) blank)))
     = TwoFactorAuth (withSecondFactor bob)
  /\ shownUser (mount false (step (VerificationSuccess alice) blank)) = Some alice
  /\ render (mount false (endSession (step (VerificationSuccess alice) blank)))
     = TwoFactorAuth alice.
Proof.
  destruct (second_factor_is_asked_once_per_session bob blank false) as (S1 & S2 & _).
  destruct (second_factor_is_asked_once_per_session alice blank false) as (_ & _ & V).
  destruct (V eq_refl) as [V1 V2].
  repeat split; assumption.
Defined.

(** X19: the password alone does not sign in a user who has a second
    factor or has to set one up.  From a signed-out state with no saved
    user, the success of the login form leaves the layout hidden and the
    storages as they were, and loading the page again shows the login
    screen. *)
Theorem password_alone_does_not_sign_in (user : User) (w : World) (h : bool) :
  requires2FASetup user || is2FAEnabled user = true ->
  currentUser w = None -> savedUser w = None ->
  let w' := step (LoginSuccess user) w in
  shownUser w' = None
  /\ savedUser w' = None
  /\ verified w' = verified w
  /\ render (mount h w') = Login false.
Proof.
  intros Hf Hc Hs. cbv zeta.
  assert (step (LoginSuccess user) w = handleLoginSuccess user w) as ->.
  { unfold step, handle, enforceTwoFactor, handleLoginSuccess.
    destruct (requires2FASetup user); [cbn; rewrite Hc; reflexivity|].
    destruct (is2FAEnabled user); [cbn; rewrite Hc; reflexivity|]. discriminate. }
  unfold shownUser, mount, restoreSession, loadSavedTheme, loadSavedUser, render,
    handleLoginSuccess.
  destruct (requires2FASetup user); cbn.
  - rewrite Hs. cbn. repeat split; try assumption.
    destruct (bool_decide _); reflexivity.
  - destruct (is2FAEnabled user); [|discriminate]. cbn. rewrite Hs, Hc. cbn.
    repeat split.
    + destruct (userFor2FASetup w); reflexivity.
    + destruct (bool_decide _); reflexivity.
Qed.

Lemma password_alone_does_not_sign_in_witness :
  shownUser (step (LoginSuccess alice) blank) = None
  /\ render (mount false (step (LoginSuccess alice) blank)) = Login false.
Proof.
  destruct (password_alone_does_not_sign_in alice blank false eq_refl eq_refl eq_refl)
    as (H1 & _ & _ & H2).
  split; [exact H1 | exact H2].
Defined.

(** X20: the menu follows the role: beside the three pages that everyone
    gets, it offers the user management to Admin and UserManager, and
    the audit log and the settings to Admin only, each page once.  The
    renderer itself does not look at the role: it renders those three
    pages for whoever is signed in when they are the active page. *)
Theorem menu_follows_role (w : World) (user : User) :
  currentUser w = Some user ->
  (forall page,
     page ∈ pages w <->
     page ∈ ["Dashboard"; "Inventário de Equipamentos"; "Controle de Licenças"]
     \/ (page = "Usuários e Permissões"
         /\ (role user = Admin \/ role user = UserManager))
     \/ ((page = "Auditoria" \/ page = "Configurações") /\ role user = Admin))
  /\ NoDup (pages w)
  /\ renderPage (setActivePage "Usuários e Permissões" w) = Some (UserManagement user)
  /\ renderPage (setActivePage "Auditoria" w) = Some AuditLog
  /\ renderPage (setActivePage "Configurações" w) = Some (Settings user).
Proof.
  intros Hu. unfold pages, renderPage. cbn. rewrite Hu.
  split; [|split; [|repeat split]].
  - intros page. destruct (role user); cbn; set_unfold; intuition congruence.
  - destruct (role user); apply NoDup_ListNoDup; vm_compute;
      repeat constructor; cbn; intuition discriminate.
Qed.

Lemma menu_follows_role_witness :
  ("Auditoria" ∉ pages (handleUserUpdate alice blank))
  /\ renderPage (setActivePage "Auditoria" (handleUserUpdate alice blank)) = Some AuditLog.
Proof.
  destruct (menu_follows_role (handleUserUpdate alice blank) alice eq_refl)
    as (Hp & _ & _ & Ha & _).
  split; [|exact Ha].
  intros Hin. apply Hp in Hin. vm_compute in Hin.
  destruct Hin as [Hin|[[_ [H|H]]|[_ H]]]; try discriminate.
  apply (proj1 (list_elem_of_In _ _)) in Hin. cbn in Hin.
  intuition discriminate.
Defined.

(** X21: in every state that the application reaches, the company name
    is not empty, whatever the fetched settings hold; and a failed fetch
    of the settings changes nothing. *)
Theorem company_name_is_never_empty (actions : list Action) (h : bool) (b : World) :
  let w := run actions (mount h b) in
  companyName w <> ""
  /\ step (SettingsFetched None) w = w.
Proof.
  cbv zeta. split; [|apply run_settled].
  assert (forall w, companyName (enforceTwoFactor w) = companyName w) as Henf.
  { intros w. destruct (enforceTwoFactor_cases w) as [->|(u & H)]; [auto|].
    decompose [and] H. auto. }
  apply reachable_ind.
  - unfold mount. rewrite Henf. unfold restoreSession, loadSavedTheme, loadSavedUser. cbn.
    destruct (savedUser b) as [u|];
      [destruct (is2FAEnabled u && negb (truthy (verified b)))|];
      destruct (bool_decide _); cbn; discriminate.
  - intros a w IH. unfold step. rewrite Henf.
    destruct a; cbn; try exact IH.
    + unfold handleLoginSuccess.
      destruct (requires2FASetup user); [exact IH|]. destruct (is2FAEnabled user); exact IH.
    + unfold fetchSettings. destruct result as [s|]; [cbn|exact IH].
      destruct (settingsCompanyName s) as [name|]; [|discriminate].
      destruct (String.eqb name "") eqn:En; [discriminate|].
      apply String.eqb_neq. exact En.
Qed.
